(** * The person-overrides squash job (dags/person_overrides.py)

    A shallow embedding of the Dagster job that folds the
    [person_distinct_id_overrides] log into the events table of a ClickHouse
    cluster, together with the part of the ClickHouse server the job talks to.

    Layout:
    - [Sql]: values and the expression fragment of the job's statements
      (three-valued logic, LIKE, dictionary functions);
    - the stored rows, the statements the job sends, and the state of one
      ClickHouse host with the meaning of every statement on it;
    - the Python side: exceptions, the outcome of a call, the client,
      unpacking of result sets;
    - [Deployment]: the settings and the behaviour of the server that the
      module takes from outside;
    - the classes [PersonOverridesSnapshotTable], [Mutation] and
      [PersonOverridesSnapshotDictionary], the cluster fan-out, the Dagster
      ops and the job graph;
    - a small concrete deployment;
    - the properties, and the properties at work on the small deployment.

    A Python call is a function from the state it acts on to an outcome and
    the state afterwards.  The waiting loops take the number of polls that
    are observed; a call that is still polling then is [Pending]. *)

From Stdlib Require Import ZArith NArith Ascii String List Bool Lia.
From stdpp Require Import base option list gmap strings pretty sorting.

Local Open Scope string_scope.
Local Open Scope list_scope.
Local Open Scope Z_scope.

(** ** SQL values and expressions *)

Module Sql.

(** A cell of a result set or of a stored row.  [VInt] covers the integer
    column types that occur (Int64, UInt64, UInt32 and the UInt8 booleans);
    none of the statements does arithmetic on them. *)
Inductive Value :=
| VNull
| VInt (z : Z)
| VStr (s : string)
| VUUID (u : N)
| VTuple (a b : Value).

#[global] Instance Value_eq_dec : EqDecision Value.
Proof. solve_decision. Defined.

Definition of_bool (b : bool) : Value := VInt (if b then 1 else 0).

(** What a WHERE clause makes of a value: NULL and 0 reject the row. *)
Definition truthy (v : Value) : option bool :=
  match v with
  | VNull => Some false
  | VInt z => Some (negb (z =? 0))
  | _ => None
  end.

(** *** LIKE

    [%] matches any run of characters, [_] exactly one, and a backslash
    before [%], [_] or a backslash makes that character literal; before
    anything else the backslash stands for itself. *)

Definition is_like_special (c : ascii) : bool :=
  Ascii.eqb c "%" || Ascii.eqb c "_" || Ascii.eqb c "\".

Definition head_is (c : ascii) (text : string) : option string :=
  match text with
  | String c' t => if Ascii.eqb c c' then Some t else None
  | EmptyString => None
  end.

Fixpoint like (text pattern : string) {struct pattern} : bool :=
  match pattern with
  | EmptyString => match text with EmptyString => true | _ => false end
  | String c p =>
      if Ascii.eqb c "%" then
        (fix skip (t : string) : bool :=
           like t p || match t with
                       | EmptyString => false
                       | String _ t' => skip t'
                       end) text
      else if Ascii.eqb c "_" then
        match text with
        | String _ t => like t p
        | EmptyString => false
        end
      else if Ascii.eqb c "\" then
        match p with
        | String e p' =>
            if is_like_special e then
              match head_is e text with Some t => like t p' | None => false end
            else
              match head_is c text with Some t => like t p | None => false end
        | EmptyString =>
            match head_is c text with Some t => like t p | None => false end
        end
      else
        match head_is c text with Some t => like t p | None => false end
  end.

(** *** Dictionaries

    The only dictionaries the job creates are keyed by
    [(team_id Int64, distinct_id String)] and carry the attributes
    [person_id UUID] and [version Int64]. *)

Record Dictionary := {
  dict_source : string;
  status : string;
  last_exception : string;
  dict_data : gmap (Z * string) (N * Z);
}.

Definition dict_key (v : Value) : option (Z * string) :=
  match v with
  | VTuple (VInt t) (VStr d) => Some (t, d)
  | _ => None
  end.

Definition attribute (attr : string) (entry : N * Z) : option Value :=
  if String.eqb attr "person_id" then Some (VUUID (fst entry))
  else if String.eqb attr "version" then Some (VInt (snd entry))
  else None.

(** [dictGet] of a missing key yields the attribute's default value. *)
Definition attribute_default (attr : string) : option Value :=
  attribute attr (0%N, 0).

(** *** Expressions *)

Inductive Expr :=
| Col (c : string)
| Lit (v : Value)
| Tuple (a b : Expr)
| As (e : Expr) (alias : string)
| IsNotNull (e : Expr)
| Not (e : Expr)
| And (a b : Expr)
| Eq (a b : Expr)
| Lt (a b : Expr)
| Ge (a b : Expr)
| StartsWith (s prefix : Expr)
| Like (s pattern : Expr)
| Concat (a b c : Expr)
| DictHas (dict : string) (key : Expr)
| DictGet (dict attr : string) (key : Expr)
| DictGetOrNull (dict attr : string) (key : Expr).

(** Aliases introduced by [e AS a] are visible in the whole expression. *)
Fixpoint aliases (e : Expr) : list (string * Expr) :=
  match e with
  | Col _ | Lit _ => []
  | As e a => (a, e) :: aliases e
  | IsNotNull e | Not e => aliases e
  | Tuple a b | And a b | Eq a b | Lt a b | Ge a b
  | StartsWith a b | Like a b => aliases a ++ aliases b
  | Concat a b c => aliases a ++ aliases b ++ aliases c
  | DictHas _ k | DictGet _ _ k | DictGetOrNull _ _ k => aliases k
  end.

Fixpoint find_alias (al : list (string * Expr)) (c : string) : option Expr :=
  match al with
  | [] => None
  | (a, e) :: al => if String.eqb a c then Some e else find_alias al c
  end.

(** Replace every identifier that names an alias by the aliased expression
    (an alias wins over a column of the same name). *)
Fixpoint expand (al : list (string * Expr)) (e : Expr) : Expr :=
  match e with
  | Col c => match find_alias al c with Some e' => e' | None => Col c end
  | Lit v => Lit v
  | Tuple a b => Tuple (expand al a) (expand al b)
  | As e a => As (expand al e) a
  | IsNotNull e => IsNotNull (expand al e)
  | Not e => Not (expand al e)
  | And a b => And (expand al a) (expand al b)
  | Eq a b => Eq (expand al a) (expand al b)
  | Lt a b => Lt (expand al a) (expand al b)
  | Ge a b => Ge (expand al a) (expand al b)
  | StartsWith a b => StartsWith (expand al a) (expand al b)
  | Like a b => Like (expand al a) (expand al b)
  | Concat a b c => Concat (expand al a) (expand al b) (expand al c)
  | DictHas d k => DictHas d (expand al k)
  | DictGet d attr k => DictGet d attr (expand al k)
  | DictGetOrNull d attr k => DictGetOrNull d attr (expand al k)
  end.

(** Three-valued connectives. *)
Definition sql_not (v : Value) : option Value :=
  match v with
  | VNull => Some VNull
  | VInt z => Some (of_bool (z =? 0))
  | _ => None
  end.

Definition sql_and (a b : Value) : option Value :=
  match a, b with
  | VInt x, VInt y => Some (of_bool (negb (x =? 0) && negb (y =? 0)))
  | VInt x, VNull => Some (if x =? 0 then of_bool false else VNull)
  | VNull, VInt y => Some (if y =? 0 then of_bool false else VNull)
  | VNull, VNull => Some VNull
  | _, _ => None
  end.

Definition sql_eq (a b : Value) : option Value :=
  match a, b with
  | VNull, _ | _, VNull => Some VNull
  | VInt x, VInt y => Some (of_bool (x =? y))
  | VStr x, VStr y => Some (of_bool (String.eqb x y))
  | VUUID x, VUUID y => Some (of_bool (x =? y)%N)
  | _, _ => None
  end.

Definition sql_lt (a b : Value) : option Value :=
  match a, b with
  | VNull, _ | _, VNull => Some VNull
  | VInt x, VInt y => Some (of_bool (x <? y))
  | _, _ => None
  end.

Definition sql_ge (a b : Value) : option Value :=
  match a, b with
  | VNull, _ | _, VNull => Some VNull
  | VInt x, VInt y => Some (of_bool (y <=? x))
  | _, _ => None
  end.

Definition sql_string (v : Value) : option string :=
  match v with VStr s => Some s | _ => None end.

(** The evaluation context of one row: its columns and the dictionaries of
    the host that evaluates the expression.  [None] is a server-side
    exception (unknown identifier, type error, unknown dictionary). *)
Record Env := {
  column : string -> option Value;
  env_dictionaries : gmap string Dictionary;
}.

Fixpoint eval (env : Env) (e : Expr) : option Value :=
  match e with
  | Col c => column env c
  | Lit v => Some v
  | Tuple a b => a' ← eval env a; b' ← eval env b; Some (VTuple a' b')
  | As e _ => eval env e
  | IsNotNull e =>
      v ← eval env e;
      Some (of_bool (if decide (v = VNull) then false else true))
  | Not e => eval env e ≫= sql_not
  | And a b => a' ← eval env a; b' ← eval env b; sql_and a' b'
  | Eq a b => a' ← eval env a; b' ← eval env b; sql_eq a' b'
  | Lt a b => a' ← eval env a; b' ← eval env b; sql_lt a' b'
  | Ge a b => a' ← eval env a; b' ← eval env b; sql_ge a' b'
  | StartsWith s p =>
      s' ← eval env s ≫= sql_string; p' ← eval env p ≫= sql_string;
      Some (of_bool (String.prefix p' s'))
  | Like s p =>
      s' ← eval env s ≫= sql_string; p' ← eval env p ≫= sql_string;
      Some (of_bool (like s' p'))
  | Concat a b c =>
      a' ← eval env a ≫= sql_string; b' ← eval env b ≫= sql_string;
      c' ← eval env c ≫= sql_string;
      Some (VStr (a' +:+ b' +:+ c'))
  | DictHas d k =>
      dict ← env_dictionaries env !! d;
      key ← eval env k ≫= dict_key;
      Some (of_bool (bool_decide (is_Some (dict_data dict !! key))))
  | DictGet d attr k =>
      dict ← env_dictionaries env !! d;
      key ← eval env k ≫= dict_key;
      match dict_data dict !! key with
      | Some entry => attribute attr entry
      | None => attribute_default attr
      end
  | DictGetOrNull d attr k =>
      dict ← env_dictionaries env !! d;
      key ← eval env k ≫= dict_key;
      match dict_data dict !! key with
      | Some entry => attribute attr entry
      | None => _ ← attribute_default attr; Some VNull
      end
  end.

(** A row passes [WHERE e] when [e], with its aliases resolved, is true. *)
Definition eval_top (env : Env) (e : Expr) : option Value :=
  eval env (expand (aliases e) e).

Definition satisfies (env : Env) (e : Expr) : option bool :=
  eval_top env e ≫= truthy.

End Sql.

Import Sql.

(** ** Stored rows *)

(** A row of [person_distinct_id_overrides]. *)
Module Override.
Record Row := {
  team_id : Z;
  distinct_id : string;
  person_id : N;
  version : Z;
  _timestamp : Z;
}.

Definition key (r : Row) : Z * string := (team_id r, distinct_id r).

Definition column (r : Row) (c : string) : option Value :=
  if String.eqb c "team_id" then Some (VInt (team_id r))
  else if String.eqb c "distinct_id" then Some (VStr (distinct_id r))
  else if String.eqb c "person_id" then Some (VUUID (person_id r))
  else if String.eqb c "version" then Some (VInt (version r))
  else if String.eqb c "_timestamp" then Some (VInt (_timestamp r))
  else None.
End Override.

(** A row of a snapshot table:
  [(team_id Int64, distinct_id String, person_id UUID, version Int64)]. *)
Module Snapshot.
Record Row := {
  team_id : Z;
  distinct_id : string;
  person_id : N;
  version : Z;
}.

Definition key (r : Row) : Z * string := (team_id r, distinct_id r).
End Snapshot.

(** A row of the events table: only the three columns the job names are
  known; the row is kept as a map from column name to value. *)
Module Event.
Abbreviation Row := (gmap string Value).

Definition column (r : Row) (c : string) : option Value := r !! c.
End Event.

(** A row of [system.mutations]. *)
Module SystemMutations.
Record Row := {
  database : string;
  table : string;
  mutation_id : string;
  command : string;
  create_time : Z;
  is_done : bool;
  is_killed : bool;
}.

Definition column (r : Row) (c : string) : option Value :=
  if String.eqb c "database" then Some (VStr (database r))
  else if String.eqb c "table" then Some (VStr (table r))
  else if String.eqb c "mutation_id" then Some (VStr (mutation_id r))
  else if String.eqb c "command" then Some (VStr (command r))
  else if String.eqb c "create_time" then Some (VInt (create_time r))
  else if String.eqb c "is_done" then Some (of_bool (is_done r))
  else if String.eqb c "is_killed" then Some (of_bool (is_killed r))
  else None.

(** [ORDER BY create_time DESC] *)
Definition newer_first (a b : Row) : Prop := create_time b <= create_time a.

#[global] Instance newer_first_dec : RelDecision newer_first.
Proof. intros a b. unfold newer_first. apply _. Defined.
End SystemMutations.

(** ** Statements *)

(** [ALTER TABLE ... UPDATE col = value WHERE cond] and
    [ALTER TABLE ... DELETE WHERE cond]. *)
Inductive AlterCommand :=
| Update (col : string) (value : Expr) (cond : Expr)
| Delete (cond : Expr).

(** Every statement the job sends through [client.execute], with the
    parameters the Python code interpolates or binds. *)
Inductive Query :=
| CreateTableIfNotExists (qualified_name : string)
| DropTableIfExists (qualified_name : string)
| SelectCount (qualified_name : string)
| InsertLatestOverrides (target source timestamp : string)
| SystemSyncReplicaStrict (qualified_name : string)
| SelectQueueSize (database table : string)
| SelectFromSystemMutations (col : string) (cond : Expr)
| CreateDictionaryIfNotExists
    (qualified_name database table password : string)
    (shards max_execution_time : Z)
| DropDictionaryIfExists (qualified_name : string)
| SelectStatus (database name : string)
| SystemReloadDictionary (qualified_name : string)
| SelectChecksum (qualified_name : string)
| AlterTable (database table : string) (cmd : AlterCommand).

(** *** How the server prints a mutation command in [system.mutations] *)

Fixpoint escape (s : string) : string :=
  match s with
  | EmptyString => EmptyString
  | String c s' =>
      if Ascii.eqb c "'" || Ascii.eqb c "\" then String "\" (String c (escape s'))
      else String c (escape s')
  end.

Definition quote (s : string) : string := "'" +:+ escape s +:+ "'".

Fixpoint format_value (v : Value) : string :=
  match v with
  | VNull => "NULL"
  | VInt z => pretty z
  | VStr s => quote s
  | VUUID u => quote (pretty u)
  | VTuple a b => "(" +:+ format_value a +:+ ", " +:+ format_value b +:+ ")"
  end.

Fixpoint format_expr (e : Expr) : string :=
  match e with
  | Col c => c
  | Lit v => format_value v
  | Tuple a b => "(" +:+ format_expr a +:+ ", " +:+ format_expr b +:+ ")"
  | As e a => format_expr e +:+ " AS " +:+ a
  | IsNotNull e => "isNotNull(" +:+ format_expr e +:+ ")"
  | Not e => "NOT " +:+ format_expr e
  | And a b => format_expr a +:+ " AND " +:+ format_expr b
  | Eq a b => "(" +:+ format_expr a +:+ " = " +:+ format_expr b +:+ ")"
  | Lt a b => "(" +:+ format_expr a +:+ " < " +:+ format_expr b +:+ ")"
  | Ge a b => "(" +:+ format_expr a +:+ " >= " +:+ format_expr b +:+ ")"
  | StartsWith a b =>
      "startsWith(" +:+ format_expr a +:+ ", " +:+ format_expr b +:+ ")"
  | Like a b => "(" +:+ format_expr a +:+ " LIKE " +:+ format_expr b +:+ ")"
  | Concat a b c =>
      "concat(" +:+ format_expr a +:+ ", " +:+ format_expr b +:+ ", "
      +:+ format_expr c +:+ ")"
  | DictHas d k => "dictHas(" +:+ quote d +:+ ", " +:+ format_expr k +:+ ")"
  | DictGet d attr k =>
      "dictGet(" +:+ quote d +:+ ", " +:+ quote attr +:+ ", "
      +:+ format_expr k +:+ ")"
  | DictGetOrNull d attr k =>
      "dictGetOrNull(" +:+ quote d +:+ ", " +:+ quote attr +:+ ", "
      +:+ format_expr k +:+ ")"
  end.

Definition format_command (cmd : AlterCommand) : string :=
  match cmd with
  | Update col value cond =>
      "UPDATE " +:+ col +:+ " = " +:+ format_expr value
      +:+ " WHERE " +:+ format_expr cond
  | Delete cond => "DELETE WHERE " +:+ format_expr cond
  end.

(** ** One ClickHouse host *)

(** A replicated snapshot table as one host sees it: the rows it holds and
    the depth of its replication queue ([system.replicas.queue_size]). *)
Record ReplicatedTable := {
  rows : list Snapshot.Row;
  queue_size : Z;
}.

Record Server := {
  tables : gmap string ReplicatedTable;
  overrides : list Override.Row;
  events : list Event.Row;
  dictionaries : gmap string Dictionary;
  mutations : list SystemMutations.Row;
  mutation_counter : N;
  now : Z;
}.

Definition set_tables (f : gmap string ReplicatedTable → gmap string ReplicatedTable)
    (s : Server) : Server :=
  {| tables := f (tables s); overrides := overrides s; events := events s;
     dictionaries := dictionaries s; mutations := mutations s;
     mutation_counter := mutation_counter s; now := now s |}.

Definition set_dictionaries (f : gmap string Dictionary → gmap string Dictionary)
    (s : Server) : Server :=
  {| tables := tables s; overrides := overrides s; events := events s;
     dictionaries := f (dictionaries s); mutations := mutations s;
     mutation_counter := mutation_counter s; now := now s |}.

Definition add_mutation (m : SystemMutations.Row) (s : Server) : Server :=
  {| tables := tables s; overrides := overrides s; events := events s;
     dictionaries := dictionaries s; mutations := m :: mutations s;
     mutation_counter := N.succ (mutation_counter s); now := now s |}.

Definition qualify (database name : string) : string :=
  database +:+ "." +:+ name.

(** *** The aggregation of [populate]

    [SELECT team_id, distinct_id, argMax(person_id, version), max(version)
     ... GROUP BY team_id, distinct_id]: one aggregation state per key,
    replaced whenever a row with a larger version arrives. *)
Definition aggregate_step (groups : gmap (Z * string) (N * Z)) (o : Override.Row)
    : gmap (Z * string) (N * Z) :=
  match groups !! Override.key o with
  | Some (_, v) =>
      if v <? Override.version o
      then <[Override.key o := (Override.person_id o, Override.version o)]> groups
      else groups
  | None => <[Override.key o := (Override.person_id o, Override.version o)]> groups
  end.

Definition aggregate (l : list Override.Row) : gmap (Z * string) (N * Z) :=
  fold_left aggregate_step l ∅.

Definition group_row (g : (Z * string) * (N * Z)) : Snapshot.Row :=
  {| Snapshot.team_id := fst (fst g); Snapshot.distinct_id := snd (fst g);
     Snapshot.person_id := fst (snd g); Snapshot.version := snd (snd g) |}.

Definition latest_overrides (cutoff : Z) (l : list Override.Row) : list Snapshot.Row :=
  group_row <$> map_to_list
    (aggregate (filter (λ o, Override._timestamp o < cutoff) l)).

(** *** The system tables *)

Definition zero_pad (width : nat) (s : string) : string :=
  String.concat "" (replicate (width - String.length s)%nat "0") +:+ s.

Definition new_mutation (database table : string) (cmd : AlterCommand) (s : Server)
    : SystemMutations.Row :=
  {| SystemMutations.database := database;
     SystemMutations.table := table;
     SystemMutations.mutation_id := zero_pad 10 (pretty (mutation_counter s));
     SystemMutations.command := format_command cmd;
     SystemMutations.create_time := now s;
     SystemMutations.is_done := false;
     SystemMutations.is_killed := false |}.

(** [WHERE cond] over [system.mutations]; an expression that fails on some
    row fails the query. *)
Fixpoint where_mutations (dicts : gmap string Dictionary) (cond : Expr)
    (l : list SystemMutations.Row) : option (list SystemMutations.Row) :=
  match l with
  | [] => Some []
  | r :: l' =>
      keep ← satisfies {| column := SystemMutations.column r;
                          env_dictionaries := dicts |} cond;
      rest ← where_mutations dicts cond l';
      Some (if keep : bool then r :: rest else rest)
  end.

Definition project_mutations (col : string) (l : list SystemMutations.Row)
    : option (list (list Value)) :=
  mapM (λ r, v ← SystemMutations.column r col; Some [v]) l.

(** *** What a mutation does to the rows of its table

    The server runs a registered mutation in the background, row by row,
    against the dictionaries of the host that executes it. *)
Class Tabular (R : Type) := {
  columns : R → string → option Value;
  assign : string → Value → R → option R;
}.

#[global] Instance Override_tabular : Tabular Override.Row := {|
  columns := Override.column;
  assign c v r :=
    match v with
    | VInt z =>
        if String.eqb c "team_id" then
          Some {| Override.team_id := z; Override.distinct_id := Override.distinct_id r;
                  Override.person_id := Override.person_id r;
                  Override.version := Override.version r;
                  Override._timestamp := Override._timestamp r |}
        else if String.eqb c "version" then
          Some {| Override.team_id := Override.team_id r;
                  Override.distinct_id := Override.distinct_id r;
                  Override.person_id := Override.person_id r;
                  Override.version := z;
                  Override._timestamp := Override._timestamp r |}
        else if String.eqb c "_timestamp" then
          Some {| Override.team_id := Override.team_id r;
                  Override.distinct_id := Override.distinct_id r;
                  Override.person_id := Override.person_id r;
                  Override.version := Override.version r;
                  Override._timestamp := z |}
        else None
    | VStr d =>
        if String.eqb c "distinct_id" then
          Some {| Override.team_id := Override.team_id r; Override.distinct_id := d;
                  Override.person_id := Override.person_id r;
                  Override.version := Override.version r;
                  Override._timestamp := Override._timestamp r |}
        else None
    | VUUID u =>
        if String.eqb c "person_id" then
          Some {| Override.team_id := Override.team_id r;
                  Override.distinct_id := Override.distinct_id r;
                  Override.person_id := u;
                  Override.version := Override.version r;
                  Override._timestamp := Override._timestamp r |}
        else None
    | _ => None
    end;
|}.

#[global] Instance Event_tabular : Tabular Event.Row := {|
  columns := Event.column;
  assign c v r :=
    match r !! c with Some _ => Some (<[c := v]> r) | None => None end;
|}.

Definition row_env `{Tabular R} (dicts : gmap string Dictionary) (r : R) : Env :=
  {| column := columns r; env_dictionaries := dicts |}.

(** The rows that replace [r]: none when it is deleted, itself when the
    condition rejects it, the updated row otherwise. *)
Definition mutate_row `{Tabular R} (dicts : gmap string Dictionary)
    (cmd : AlterCommand) (r : R) : option (list R) :=
  match cmd with
  | Delete cond =>
      hit ← satisfies (row_env dicts r) cond;
      Some (if hit : bool then [] else [r])
  | Update col value cond =>
      hit ← satisfies (row_env dicts r) cond;
      if hit : bool then
        v ← eval_top (row_env dicts r) value;
        r' ← assign col v r;
        Some [r']
      else Some [r]
  end.

Definition apply_command `{Tabular R} (dicts : gmap string Dictionary)
    (cmd : AlterCommand) (l : list R) : option (list R) :=
  mjoin <$> mapM (mutate_row dicts cmd) l.

(** ** The Python side *)

(** A host of the cluster, as [posthog.clickhouse.cluster] describes it. *)
Record HostInfo := {
  address : string;
  shard_num : Z;
  replica_num : Z;
}.

#[global] Instance HostInfo_eq_dec : EqDecision HostInfo.
Proof. solve_decision. Defined.

#[warnings="-register-all"]
Inductive PyError :=
| AssertionError
| ValueError
| TypeError
| Exception (msg : string)
| ServerException
| ExceptionGroup (errors : list (HostInfo * PyError)).

(** How a call ends.  [Pending] stands for a call that is still polling
    when the observation budget of its loops is used up. *)
Inductive Outcome (A : Type) :=
| Returned (a : A)
| Raised (e : PyError)
| Pending.

Arguments Returned {A} a.
Arguments Raised {A} e.
Arguments Pending {A}.

Definition M (S A : Type) : Type := S → Outcome A * S.

Definition ret {S A} (a : A) : M S A := λ s, (Returned a, s).

Definition bind {S A B} (m : M S A) (k : A → M S B) : M S B :=
  λ s, match m s with
       | (Returned a, s') => k a s'
       | (Raised e, s') => (Raised e, s')
       | (Pending, s') => (Pending, s')
       end.

Definition raise {S A} (e : PyError) : M S A := λ s, (Raised e, s).

Definition pending {S A} : M S A := λ s, (Pending, s).

Notation "x <- m ;; k" := (bind m (λ x, k))
  (at level 100, m at next level, right associativity).
Notation "m ;; k" := (bind m (λ _, k))
  (at level 100, right associativity).

(** [assert cond] *)
Definition assert {S} (cond : bool) : M S unit :=
  if cond then ret tt else raise AssertionError.

(** [[[x]] = results] and [[[x, y]] = results] *)
Definition unpack1 {S} (results : list (list Value)) : M S Value :=
  match results with
  | [[x]] => ret x
  | _ => raise ValueError
  end.

Definition unpack2 {S} (results : list (list Value)) : M S (Value * Value) :=
  match results with
  | [[x; y]] => ret (x, y)
  | _ => raise ValueError
  end.

(** [x == y], [bool(x)] and [str(x)] on the values a result set holds. *)
Definition py_eq (x y : Value) : bool := bool_decide (x = y).

Definition py_bool (x : Value) : bool :=
  match x with
  | VNull => false
  | VInt z => negb (z =? 0)
  | VStr s => negb (String.eqb s "")
  | VUUID _ | VTuple _ _ => true
  end.

Definition py_str (x : Value) : string :=
  match x with
  | VStr s => s
  | VNull => "None"
  | _ => format_value x
  end.

(** A [clickhouse_driver.Client] connected to one host; the journal keeps
    every statement sent over the connection, in order. *)
Record Client := {
  server : Server;
  journal : list Query;
}.

(** The dataclasses of the module. *)
Record PersonOverridesSnapshotTable := {
  id : N;
  timestamp : string;
}.

Record Mutation := {
  table : string;
  mutation_id : string;
}.

Record PersonOverridesSnapshotDictionary := {
  source : PersonOverridesSnapshotTable;
}.

(** [uuid.UUID.hex]: the 32 lowercase hexadecimal digits of the identifier. *)
Definition hex_digit (n : N) : ascii :=
  match String.get (N.to_nat n) "0123456789abcdef" with
  | Some c => c
  | None => "0"%char
  end.

Fixpoint hex_digits (width : nat) (n : N) : string :=
  match width with
  | O => ""
  | S w => hex_digits w (n / 16)%N +:+ String (hex_digit (n mod 16)%N) ""
  end.

Definition hex (u : N) : string := hex_digits 32 u.

(** ** What the module takes from its surroundings

    [posthog.settings], the table names of [posthog.models.person.sql] and
    [posthog.models.event.sql], and what the job cannot see of a server:
    what a host does while the client sleeps (background loads, merges,
    mutations, replication), how [SYSTEM SYNC REPLICA] ends, how a
    timestamp literal is read, and the hash function.  Hosts are separate:
    what reaches a host from the others reaches it through [elapse] and
    [sync_replica]. *)
Class Deployment := {
  CLICKHOUSE_DATABASE : string;
  CLICKHOUSE_PASSWORD : string;
  PERSON_DISTINCT_ID_OVERRIDES_TABLE : string;
  EVENTS_DATA_TABLE : string;
  elapse : Z → Server → Server;
  sync_replica : string → Server → option Server;
  toDateTime : string → option Z;
  cityHash64 : Snapshot.Row → N;
}.

Section Deployment.
Context {deployment : Deployment}.

(** [SELECT groupBitXor(cityHash64( * )) FROM dictionary] *)
Definition groupBitXor (hashes : list N) : N := foldr N.lxor 0%N hashes.

Definition dictionary_rows (d : Dictionary) : list Snapshot.Row :=
  group_row <$> map_to_list (dict_data d).

(** The meaning of a statement on one host: the result set (or [None] for
    a server-side exception) and the host afterwards. *)
Definition run (q : Query) (s : Server) : option (list (list Value)) * Server :=
  match q with
  | CreateTableIfNotExists qn =>
      match tables s !! qn with
      | Some _ => (Some [], s)
      | None =>
          (Some [], set_tables (insert qn {| rows := []; queue_size := 0 |}) s)
      end
  | DropTableIfExists qn => (Some [], set_tables (delete qn) s)
  | SelectCount qn =>
      match tables s !! qn with
      | Some t => (Some [[VInt (Z.of_nat (length (rows t)))]], s)
      | None => (None, s)
      end
  | InsertLatestOverrides target source timestamp =>
      match tables s !! target, toDateTime timestamp with
      | Some t, Some cutoff =>
          if decide (source = qualify CLICKHOUSE_DATABASE PERSON_DISTINCT_ID_OVERRIDES_TABLE)
          then
            (Some [],
             set_tables
               (insert target
                  {| rows := rows t ++ latest_overrides cutoff (overrides s);
                     queue_size := queue_size t |}) s)
          else (None, s)
      | _, _ => (None, s)
      end
  | SystemSyncReplicaStrict qn =>
      match sync_replica qn s with
      | Some s' => (Some [], s')
      | None => (None, s)
      end
  | SelectQueueSize database table =>
      match tables s !! qualify database table with
      | Some t => (Some [[VInt (queue_size t)]], s)
      | None => (Some [], s)
      end
  | SelectFromSystemMutations col cond =>
      (found ← where_mutations (dictionaries s) cond (mutations s);
       project_mutations col (merge_sort SystemMutations.newer_first found),
       s)
  | CreateDictionaryIfNotExists qn database table password shards max_execution_time =>
      match dictionaries s !! qn with
      | Some _ => (Some [], s)
      | None =>
          (Some [],
           set_dictionaries
             (insert qn {| dict_source := qualify database table;
                           status := "NOT_LOADED";
                           last_exception := "";
                           dict_data := ∅ |}) s)
      end
  | DropDictionaryIfExists qn => (Some [], set_dictionaries (delete qn) s)
  | SelectStatus database name =>
      match dictionaries s !! qualify database name with
      | Some d => (Some [[VStr (status d); VStr (last_exception d)]], s)
      | None => (Some [], s)
      end
  | SystemReloadDictionary qn =>
      match dictionaries s !! qn with
      | Some d =>
          (Some [],
           set_dictionaries
             (insert qn {| dict_source := dict_source d;
                           status := "LOADING";
                           last_exception := last_exception d;
                           dict_data := dict_data d |}) s)
      | None => (None, s)
      end
  | SelectChecksum qn =>
      match dictionaries s !! qn with
      | Some d =>
          (Some [[VInt (Z.of_N (groupBitXor (cityHash64 <$> dictionary_rows d)))]], s)
      | None => (None, s)
      end
  | AlterTable database table cmd =>
      (Some [], add_mutation (new_mutation database table cmd s) s)
  end.


Definition execute (q : Query) : M Client (list (list Value)) :=
  λ c,
    let '(results, s) := run q (server c) in
    let c' := {| server := s; journal := journal c ++ [q] |} in
    match results with
    | Some r => (Returned r, c')
    | None => (Raised ServerException, c')
    end.

(** [time.sleep(seconds)] *)
Definition sleep (seconds : Z) : M Client unit :=
  λ c, (Returned tt, {| server := elapse seconds (server c); journal := journal c |}).

(** *** class PersonOverridesSnapshotTable *)

Definition PersonOverridesSnapshotTable_name (self : PersonOverridesSnapshotTable) : string :=
  "person_distinct_id_overrides_snapshot_" +:+ hex (id self).

Definition PersonOverridesSnapshotTable_qualified_name
    (self : PersonOverridesSnapshotTable) : string :=
  CLICKHOUSE_DATABASE +:+ "." +:+ PersonOverridesSnapshotTable_name self.

Definition PersonOverridesSnapshotTable_create (self : PersonOverridesSnapshotTable)
    : M Client unit :=
  execute (CreateTableIfNotExists (PersonOverridesSnapshotTable_qualified_name self)) ;;
  ret tt.

Definition PersonOverridesSnapshotTable_drop (self : PersonOverridesSnapshotTable)
    : M Client unit :=
  execute (DropTableIfExists (PersonOverridesSnapshotTable_qualified_name self)) ;;
  ret tt.

Definition PersonOverridesSnapshotTable_populate (self : PersonOverridesSnapshotTable)
    : M Client unit :=
  results <- execute (SelectCount (PersonOverridesSnapshotTable_qualified_name self)) ;;
  count <- unpack1 results ;;
  assert (py_eq count (VInt 0)) ;;
  execute (InsertLatestOverrides
             (PersonOverridesSnapshotTable_qualified_name self)
             (CLICKHOUSE_DATABASE +:+ "." +:+ PERSON_DISTINCT_ID_OVERRIDES_TABLE)
             (timestamp self)) ;;
  ret tt.

Definition PersonOverridesSnapshotTable_sync (self : PersonOverridesSnapshotTable)
    : M Client unit :=
  execute (SystemSyncReplicaStrict (PersonOverridesSnapshotTable_qualified_name self)) ;;
  results <- execute (SelectQueueSize CLICKHOUSE_DATABASE
                        (PersonOverridesSnapshotTable_name self)) ;;
  queue_size <- unpack1 results ;;
  assert (py_eq queue_size (VInt 0)) ;;
  ret tt.

(** *** class Mutation *)

Definition Mutation_is_done (self : Mutation) : M Client Value :=
  results <- execute
    (SelectFromSystemMutations "is_done"
       (And (And (Eq (Col "database") (Lit (VStr CLICKHOUSE_DATABASE)))
                 (Eq (Col "table") (Lit (VStr (table self)))))
            (Eq (Col "mutation_id") (Lit (VStr (mutation_id self)))))) ;;
  unpack1 results.

(** [while not self.is_done(client): time.sleep(15.0)]; [polls] bounds the
    number of status checks that are observed. *)
Fixpoint Mutation_wait (polls : nat) (self : Mutation) : M Client unit :=
  match polls with
  | O => pending
  | S n =>
      done <- Mutation_is_done self ;;
      if py_bool done then ret tt
      else (sleep 15 ;; Mutation_wait n self)
  end.

(** *** class PersonOverridesSnapshotDictionary *)

Definition PersonOverridesSnapshotDictionary_name
    (self : PersonOverridesSnapshotDictionary) : string :=
  PersonOverridesSnapshotTable_name (source self) +:+ "_dictionary".

Definition PersonOverridesSnapshotDictionary_qualified_name
    (self : PersonOverridesSnapshotDictionary) : string :=
  CLICKHOUSE_DATABASE +:+ "." +:+ PersonOverridesSnapshotDictionary_name self.

Definition PersonOverridesSnapshotDictionary_create
    (self : PersonOverridesSnapshotDictionary) (shards max_execution_time : Z)
    : M Client unit :=
  execute (CreateDictionaryIfNotExists
             (PersonOverridesSnapshotDictionary_qualified_name self)
             CLICKHOUSE_DATABASE
             (PersonOverridesSnapshotTable_name (source self))
             CLICKHOUSE_PASSWORD
             shards max_execution_time) ;;
  ret tt.

Definition PersonOverridesSnapshotDictionary_drop
    (self : PersonOverridesSnapshotDictionary) : M Client unit :=
  execute (DropDictionaryIfExists
             (PersonOverridesSnapshotDictionary_qualified_name self)) ;;
  ret tt.

Definition PersonOverridesSnapshotDictionary_is_loaded
    (self : PersonOverridesSnapshotDictionary) : M Client bool :=
  results <- execute (SelectStatus CLICKHOUSE_DATABASE
                        (PersonOverridesSnapshotDictionary_name self)) ;;
  match results with
  | [] => raise (Exception "dictionary does not exist")
  | _ =>
      row <- unpack2 results ;;
      let '(status, last_exception) := row in
      if py_eq status (VStr "LOADED") then ret true
      else if py_eq status (VStr "LOADING")
              || py_eq status (VStr "FAILED_AND_RELOADING")
              || py_eq status (VStr "LOADED_AND_RELOADING") then ret false
      else if py_eq status (VStr "FAILED") then
        raise (Exception ("failed to load: " +:+ py_str last_exception))
      else raise (Exception ("unexpected status: " +:+ py_str status))
  end.

(** [while not self.__is_loaded(client): time.sleep(5.0)] *)
Fixpoint wait_until_loaded (polls : nat) (self : PersonOverridesSnapshotDictionary)
    : M Client unit :=
  match polls with
  | O => pending
  | S n =>
      loaded <- PersonOverridesSnapshotDictionary_is_loaded self ;;
      if loaded : bool then ret tt
      else (sleep 5 ;; wait_until_loaded n self)
  end.

Definition PersonOverridesSnapshotDictionary_load (polls : nat)
    (self : PersonOverridesSnapshotDictionary) : M Client Value :=
  execute (SystemReloadDictionary
             (PersonOverridesSnapshotDictionary_qualified_name self)) ;;
  wait_until_loaded polls self ;;
  results <- execute (SelectChecksum
                        (PersonOverridesSnapshotDictionary_qualified_name self)) ;;
  unpack1 results.

Definition find_existing_mutation_condition
    (self : PersonOverridesSnapshotDictionary) (table command_kind : string) : Expr :=
  And (And (And (And (Eq (Col "database") (Lit (VStr CLICKHOUSE_DATABASE)))
                     (Eq (Col "table") (Lit (VStr table))))
                (StartsWith (Col "command") (Lit (VStr command_kind))))
           (Like (Col "command")
              (Concat (Lit (VStr "%"))
                 (Lit (VStr (PersonOverridesSnapshotDictionary_qualified_name self)))
                 (Lit (VStr "%")))))
      (Not (Col "is_killed")).

Definition find_existing_mutation_query
    (self : PersonOverridesSnapshotDictionary) (table command_kind : string) : Query :=
  SelectFromSystemMutations "mutation_id"
    (find_existing_mutation_condition self table command_kind).

Definition PersonOverridesSnapshotDictionary_find_existing_mutation
    (self : PersonOverridesSnapshotDictionary) (table command_kind : string)
    : M Client (option Mutation) :=
  results <- execute (find_existing_mutation_query self table command_kind) ;;
  match results with
  | [] => ret None
  | _ =>
      assert (bool_decide (length results = 1%nat)) ;;
      mutation_id <- unpack1 results ;;
      ret (Some {| table := table; mutation_id := py_str mutation_id |})
  end.

Definition person_id_update_command (self : PersonOverridesSnapshotDictionary)
    : AlterCommand :=
  Update "person_id"
    (DictGet (PersonOverridesSnapshotDictionary_qualified_name self) "person_id"
       (Tuple (Col "team_id") (Col "distinct_id")))
    (DictHas (PersonOverridesSnapshotDictionary_qualified_name self)
       (Tuple (Col "team_id") (Col "distinct_id"))).

Definition PersonOverridesSnapshotDictionary_enqueue_person_id_update_mutation
    (self : PersonOverridesSnapshotDictionary) : M Client Mutation :=
  let table := EVENTS_DATA_TABLE in
  existing <- PersonOverridesSnapshotDictionary_find_existing_mutation self table "UPDATE" ;;
  match existing with
  | Some mutation => ret mutation
  | None =>
      execute (AlterTable CLICKHOUSE_DATABASE table (person_id_update_command self)) ;;
      mutation <- PersonOverridesSnapshotDictionary_find_existing_mutation self table "UPDATE" ;;
      assert (bool_decide (mutation ≠ None)) ;;
      match mutation with
      | Some m => ret m
      | None => raise AssertionError
      end
  end.

Definition overrides_delete_command (self : PersonOverridesSnapshotDictionary)
    : AlterCommand :=
  Delete
    (And (IsNotNull
            (As (DictGetOrNull (PersonOverridesSnapshotDictionary_qualified_name self)
                   "version" (Tuple (Col "team_id") (Col "distinct_id")))
                "snapshot_version"))
         (Ge (Col "snapshot_version") (Col "version"))).

Definition PersonOverridesSnapshotDictionary_enqueue_overrides_delete_mutation
    (self : PersonOverridesSnapshotDictionary) : M Client Mutation :=
  let table := PERSON_DISTINCT_ID_OVERRIDES_TABLE in
  existing <- PersonOverridesSnapshotDictionary_find_existing_mutation self table "DELETE" ;;
  match existing with
  | Some mutation => ret mutation
  | None =>
      execute (AlterTable CLICKHOUSE_DATABASE table (overrides_delete_command self)) ;;
      mutation <- PersonOverridesSnapshotDictionary_find_existing_mutation self table "DELETE" ;;
      assert (bool_decide (mutation ≠ None)) ;;
      match mutation with
      | Some m => ret m
      | None => raise AssertionError
      end
  end.

(** ** The cluster *)

(** What is recorded of a run: the ops Dagster starts and finishes, and
    every statement a host receives. *)
Inductive Op :=
| Op_create_snapshot_table
| Op_populate_snapshot_table
| Op_wait_for_snapshot_table_replication
| Op_create_snapshot_dictionary
| Op_load_and_verify_snapshot_dictionary
| Op_start_person_id_update_mutations
| Op_wait_for_person_id_update_mutations
| Op_start_overrides_delete_mutations
| Op_wait_for_overrides_delete_mutations
| Op_drop_snapshot_dictionary
| Op_drop_snapshot_table.

#[global] Instance Op_eq_dec : EqDecision Op.
Proof. solve_decision. Defined.

Inductive Event :=
| OpStarted (op : Op)
| OpFinished (op : Op)
| Sent (host : HostInfo) (q : Query).

(** Modelled from the spec: [posthog.clickhouse.cluster.ClickhouseCluster]
    is not part of the sources.  Section 4.1 of the specification gives its
    contract: four fan-out operations over the hosts of the topology, each
    taking a single-host operation and returning a handle whose [result()]
    blocks until every target host has completed or raised, and raises one
    composite failure if any host failed.  Hosts hold separate state; the
    tasks of one fan-out are run here one host after the other, in the
    order of the topology. *)
Record Cluster := {
  nodes : list (HostInfo * Server);
  log : list Event;
}.

Definition hosts (cl : Cluster) : list HostInfo := (nodes cl).*1.

(** Modelled from the spec: the dispatch of one task per target host.
    [fn] runs on the hosts that [pick] selects, each on its own connection;
    the result is how each task ended, the hosts afterwards, and the
    statements that were sent. *)
Fixpoint visit {A} (pick : HostInfo → bool) (fn : M Client A)
    (l : list (HostInfo * Server))
    : list (HostInfo * Outcome A) * list (HostInfo * Server) * list Event :=
  match l with
  | [] => ([], [], [])
  | (h, s) :: l' =>
      if pick h then
        let '(o, c) := fn {| server := s; journal := [] |} in
        let '(outs, l'', evs) := visit pick fn l' in
        ((h, o) :: outs, (h, server c) :: l'', (Sent h <$> journal c) ++ evs)
      else
        let '(outs, l'', evs) := visit pick fn l' in
        (outs, (h, s) :: l'', evs)
  end.

(** Modelled from the spec: the handle that a fan-out returns, "results
    keyed by host identity".  The submitted tasks always yield the per-host
    outcomes; [result] turns them into values or a failure. *)
Definition FutureList (A : Type) : Type := M Cluster (list (HostInfo * Outcome A)).

(** Modelled from the spec: a fan-out over the hosts that [pick] selects
    among the hosts of the topology. *)
Definition submit {A} (pick : list HostInfo → HostInfo → bool) (fn : M Client A)
    : FutureList A :=
  λ cl,
    let '(outs, l, evs) := visit (pick (hosts cl)) fn (nodes cl) in
    (Returned outs, {| nodes := l; log := log cl ++ evs |}).

(** Modelled from the spec: run-on-all-hosts, "executes once per host in
    the entire cluster". *)
Definition map_all_hosts {A} (fn : M Client A) : FutureList A :=
  submit (λ _ _, true) fn.

(** Modelled from the spec: run-on-any-host, "executes once, on an
    engine-selected host"; the first host of the topology stands for the
    selected one. *)
Definition any_host {A} (fn : M Client A) : FutureList A :=
  submit (λ all h, bool_decide (head all = Some h)) fn.

(** Modelled from the spec: run-one-host-per-shard, "executes once per
    shard (engine selects a representative replica)"; the first host of a
    shard stands for its representative. *)
Definition map_one_host_per_shard {A} (fn : M Client A) : FutureList A :=
  submit (λ all h,
            bool_decide (head (filter (λ h', shard_num h' = shard_num h) all) = Some h))
         fn.

(** Modelled from the spec: run-on-all-hosts-in-shard, "executes once per
    replica within one named shard". *)
Definition map_all_hosts_in_shard {A} (shard : Z) (fn : M Client A) : FutureList A :=
  submit (λ _ h, bool_decide (shard_num h = shard)) fn.

(** Modelled from the spec: [x.merge(y)], the handle for the tasks of both. *)
Definition merge {A} (x y : FutureList A) : FutureList A :=
  rx <- x ;; ry <- y ;; ret (rx ++ ry).

(** Modelled from the spec: "aggregating per-host failures into one
    composite failure that names the offending host(s)"; [None] while a
    task has not completed. *)
Fixpoint collect {A} (outs : list (HostInfo * Outcome A))
    : option (list (HostInfo * A) + list (HostInfo * PyError)) :=
  match outs with
  | [] => Some (inl [])
  | (h, o) :: outs' =>
      rest ← collect outs';
      match o, rest with
      | Pending, _ => None
      | Returned a, inl values => Some (inl ((h, a) :: values))
      | Returned _, inr errors => Some (inr errors)
      | Raised e, inl _ => Some (inr [(h, e)])
      | Raised e, inr errors => Some (inr ((h, e) :: errors))
      end
  end.

(** Modelled from the spec: [.result()], which "blocks until every target
    host has completed or raised": the values by host, or the composite
    failure; it does not return while a task is still polling. *)
Definition result {A} (futures : FutureList A) : M Cluster (list (HostInfo * A)) :=
  outs <- futures ;;
  match collect outs with
  | None => pending
  | Some (inl values) => ret values
  | Some (inr errors) => raise (ExceptionGroup errors)
  end.

(** Modelled from the spec: [.result()] of the single future of
    [any_host], the value of the one task. *)
Definition result_any {A} (future : FutureList A) : M Cluster A :=
  values <- result future ;;
  match values with
  | (_, a) :: _ => ret a
  | [] => raise (Exception "no host")
  end.

(** [reduce(lambda x, y: x.merge(y), futures)] *)
Definition reduce_merge {A} (futures : list (FutureList A)) : M Cluster (FutureList A) :=
  match futures with
  | [] => raise TypeError
  | x :: rest => ret (fold_left merge rest x)
  end.

(** ** The ops *)

Record SnapshotTableConfig := {
  config_timestamp : string;
}.

Record SnapshotDictionaryConfig := {
  shards : Z;
  max_execution_time : Z;
}.

Definition create_snapshot_table (run_id : N) (config : SnapshotTableConfig)
    : M Cluster PersonOverridesSnapshotTable :=
  let table := {| id := run_id; timestamp := config_timestamp config |} in
  result (map_all_hosts (PersonOverridesSnapshotTable_create table)) ;;
  ret table.

Definition populate_snapshot_table (table : PersonOverridesSnapshotTable)
    : M Cluster PersonOverridesSnapshotTable :=
  result_any (any_host (PersonOverridesSnapshotTable_populate table)) ;;
  ret table.

Definition wait_for_snapshot_table_replication (table : PersonOverridesSnapshotTable)
    : M Cluster PersonOverridesSnapshotTable :=
  result (map_all_hosts (PersonOverridesSnapshotTable_sync table)) ;;
  ret table.

Definition create_snapshot_dictionary (config : SnapshotDictionaryConfig)
    (table : PersonOverridesSnapshotTable) : M Cluster PersonOverridesSnapshotDictionary :=
  let dictionary := {| source := table |} in
  result (map_all_hosts
            (PersonOverridesSnapshotDictionary_create dictionary
               (shards config) (max_execution_time config))) ;;
  ret dictionary.

(** [len(set(checksums.values()))] *)
Definition distinct_values (checksums : list (HostInfo * Value)) : nat :=
  length (remove_dups checksums.*2).

Definition load_and_verify_snapshot_dictionary (polls : nat)
    (dictionary : PersonOverridesSnapshotDictionary)
    : M Cluster PersonOverridesSnapshotDictionary :=
  checksums <- result (map_all_hosts
                         (PersonOverridesSnapshotDictionary_load polls dictionary)) ;;
  assert (bool_decide (distinct_values checksums = 1%nat)) ;;
  ret dictionary.

Definition start_person_id_update_mutations
    (dictionary : PersonOverridesSnapshotDictionary)
    : M Cluster (PersonOverridesSnapshotDictionary * gmap Z Mutation) :=
  mutations <- result
    (map_one_host_per_shard
       (PersonOverridesSnapshotDictionary_enqueue_person_id_update_mutation dictionary)) ;;
  let shard_mutations : gmap Z Mutation :=
    list_to_map (reverse ((λ hm : HostInfo * Mutation, (shard_num hm.1, hm.2))
                            <$> mutations)) in
  ret (dictionary, shard_mutations).

Definition wait_for_person_id_update_mutations (polls : nat)
    (inputs : PersonOverridesSnapshotDictionary * gmap Z Mutation)
    : M Cluster PersonOverridesSnapshotDictionary :=
  let '(dictionary, shard_mutations) := inputs in
  futures <- reduce_merge
    ((λ sm : Z * Mutation, map_all_hosts_in_shard sm.1 (Mutation_wait polls sm.2))
       <$> map_to_list shard_mutations) ;;
  result futures ;;
  ret dictionary.

Definition start_overrides_delete_mutations
    (dictionary : PersonOverridesSnapshotDictionary)
    : M Cluster (PersonOverridesSnapshotDictionary * Mutation) :=
  mutation <- result_any
    (any_host
       (PersonOverridesSnapshotDictionary_enqueue_overrides_delete_mutation dictionary)) ;;
  ret (dictionary, mutation).

Definition wait_for_overrides_delete_mutations (polls : nat)
    (inputs : PersonOverridesSnapshotDictionary * Mutation)
    : M Cluster PersonOverridesSnapshotDictionary :=
  let '(dictionary, mutation) := inputs in
  result (map_all_hosts (Mutation_wait polls mutation)) ;;
  ret dictionary.

Definition drop_snapshot_dictionary (dictionary : PersonOverridesSnapshotDictionary)
    : M Cluster PersonOverridesSnapshotTable :=
  result (map_all_hosts (PersonOverridesSnapshotDictionary_drop dictionary)) ;;
  ret (source dictionary).

Definition drop_snapshot_table (table : PersonOverridesSnapshotTable) : M Cluster unit :=
  result (map_all_hosts (PersonOverridesSnapshotTable_drop table)) ;;
  ret tt.

(** ** The job *)

(** The body of a [@dagster.job] composes op invocations; an invocation
    depends on the invocations whose outputs it is applied to. *)
#[warnings="-register-all"]
Inductive Invocation :=
| Invoke (op : Op) (inputs : list Invocation).

Definition prepared_snapshot_table : Invocation :=
  Invoke Op_wait_for_snapshot_table_replication
    [Invoke Op_populate_snapshot_table [Invoke Op_create_snapshot_table []]].

Definition created_snapshot_dictionary : Invocation :=
  Invoke Op_create_snapshot_dictionary [prepared_snapshot_table].

Definition prepared_dictionary : Invocation :=
  Invoke Op_load_and_verify_snapshot_dictionary [created_snapshot_dictionary].

Definition dictionary_after_person_id_update_mutations : Invocation :=
  Invoke Op_wait_for_person_id_update_mutations
    [Invoke Op_start_person_id_update_mutations [prepared_dictionary]].

Definition dictionary_after_override_delete_mutations : Invocation :=
  Invoke Op_wait_for_overrides_delete_mutations
    [Invoke Op_start_overrides_delete_mutations
       [dictionary_after_person_id_update_mutations]].

Definition squash_person_overrides : Invocation :=
  Invoke Op_drop_snapshot_table
    [Invoke Op_drop_snapshot_dictionary [dictionary_after_override_delete_mutations]].

(** The values that flow along the edges of the graph. *)
Inductive Output :=
| OutNone
| OutTable (table : PersonOverridesSnapshotTable)
| OutDictionary (dictionary : PersonOverridesSnapshotDictionary)
| OutShardMutations (inputs : PersonOverridesSnapshotDictionary * gmap Z Mutation)
| OutMutation (inputs : PersonOverridesSnapshotDictionary * Mutation).

(** What a run is given: the run id of the context (as the 128-bit number
    that [uuid.UUID] reads from it), the two op configurations, and the
    number of polls observed in each waiting loop. *)
Record Run := {
  run_id : N;
  table_config : SnapshotTableConfig;
  dictionary_config : SnapshotDictionaryConfig;
  poll_budget : nat;
}.

Definition compute (run : Run) (op : Op) (inputs : list Output) : M Cluster Output :=
  match op, inputs with
  | Op_create_snapshot_table, [] =>
      t <- create_snapshot_table (run_id run) (table_config run) ;; ret (OutTable t)
  | Op_populate_snapshot_table, [OutTable table] =>
      t <- populate_snapshot_table table ;; ret (OutTable t)
  | Op_wait_for_snapshot_table_replication, [OutTable table] =>
      t <- wait_for_snapshot_table_replication table ;; ret (OutTable t)
  | Op_create_snapshot_dictionary, [OutTable table] =>
      d <- create_snapshot_dictionary (dictionary_config run) table ;;
      ret (OutDictionary d)
  | Op_load_and_verify_snapshot_dictionary, [OutDictionary dictionary] =>
      d <- load_and_verify_snapshot_dictionary (poll_budget run) dictionary ;;
      ret (OutDictionary d)
  | Op_start_person_id_update_mutations, [OutDictionary dictionary] =>
      dm <- start_person_id_update_mutations dictionary ;; ret (OutShardMutations dm)
  | Op_wait_for_person_id_update_mutations, [OutShardMutations inputs] =>
      d <- wait_for_person_id_update_mutations (poll_budget run) inputs ;;
      ret (OutDictionary d)
  | Op_start_overrides_delete_mutations, [OutDictionary dictionary] =>
      dm <- start_overrides_delete_mutations dictionary ;; ret (OutMutation dm)
  | Op_wait_for_overrides_delete_mutations, [OutMutation inputs] =>
      d <- wait_for_overrides_delete_mutations (poll_budget run) inputs ;;
      ret (OutDictionary d)
  | Op_drop_snapshot_dictionary, [OutDictionary dictionary] =>
      t <- drop_snapshot_dictionary dictionary ;; ret (OutTable t)
  | Op_drop_snapshot_table, [OutTable table] =>
      drop_snapshot_table table ;; ret OutNone
  | _, _ => raise TypeError
  end.

Definition record (e : Event) : M Cluster unit :=
  λ cl, (Returned tt, {| nodes := nodes cl; log := log cl ++ [e] |}).

(** Dagster runs an op once the outputs it consumes have been produced, and
    does not run it when an upstream op has failed. *)
Fixpoint execute_job (run : Run) (job : Invocation) : M Cluster Output :=
  match job with
  | Invoke op inputs =>
      args <- (fix upstream (l : list Invocation) : M Cluster (list Output) :=
                 match l with
                 | [] => ret []
                 | i :: l' =>
                     x <- execute_job run i ;;
                     xs <- upstream l' ;;
                     ret (x :: xs)
                 end) inputs ;;
      record (OpStarted op) ;;
      out <- compute run op args ;;
      record (OpFinished op) ;;
      ret out
  end.


(** *** Vocabulary of the properties *)

(** [e] is the group of key [k]: person and version of a row of [l] with
    that key whose version is the largest. *)
Definition is_latest (l : list Override.Row) (k : Z * string) (e : N * Z) : Prop :=
  ∃ o, o ∈ l ∧ Override.key o = k
       ∧ Override.person_id o = e.1 ∧ Override.version o = e.2
       ∧ ∀ o', o' ∈ l → Override.key o' = k → Override.version o' <= e.2.

(** The snapshot's version for the key of an override, if it has one. *)
Definition snapshot_version (d : Dictionary) (o : Override.Row) : option Z :=
  snd <$> dict_data d !! Override.key o.

Definition superseded (d : Dictionary) (o : Override.Row) : bool :=
  match snapshot_version d o with
  | Some s => Override.version o <=? s
  | None => false
  end.

Fixpoint no_backslash (s : string) : bool :=
  match s with
  | EmptyString => true
  | String c s' => negb (Ascii.eqb c "\") && no_backslash s'
  end.

Fixpoint no_quote (s : string) : bool :=
  match s with
  | EmptyString => true
  | String c s' => negb (Ascii.eqb c "'") && no_quote s'
  end.

(** [needle] occurs in [hay] as a substring. *)
Fixpoint contains (hay needle : string) : bool :=
  String.prefix needle hay
  || match hay with
     | EmptyString => false
     | String _ hay' => contains hay' needle
     end.

(** The rows of [system.mutations] that the query of
    [__find_existing_mutation] selects. *)
Definition is_existing_mutation (self : PersonOverridesSnapshotDictionary)
    (table command_kind : string) (r : SystemMutations.Row) : bool :=
  String.eqb (SystemMutations.database r) CLICKHOUSE_DATABASE
  && String.eqb (SystemMutations.table r) table
  && String.prefix command_kind (SystemMutations.command r)
  && like (SystemMutations.command r)
       ("%" +:+ PersonOverridesSnapshotDictionary_qualified_name self +:+ "%")
  && negb (SystemMutations.is_killed r).

Definition existing_mutations (self : PersonOverridesSnapshotDictionary)
    (table command_kind : string) (s : Server) : list SystemMutations.Row :=
  filter (λ r, is_existing_mutation self table command_kind r = true) (mutations s).

(** The same selection with "the command contains the qualified name" read
    as plain substring containment. *)
Definition names_dictionary (self : PersonOverridesSnapshotDictionary)
    (table command_kind : string) (r : SystemMutations.Row) : bool :=
  String.eqb (SystemMutations.database r) CLICKHOUSE_DATABASE
  && String.eqb (SystemMutations.table r) table
  && String.prefix command_kind (SystemMutations.command r)
  && contains (SystemMutations.command r)
       (PersonOverridesSnapshotDictionary_qualified_name self)
  && negb (SystemMutations.is_killed r).


(** What an enqueue method does, given the table, the command kind and the
    command it issues. *)
Definition enqueue (self : PersonOverridesSnapshotDictionary)
    (table command_kind : string) (cmd : AlterCommand) : M Client Mutation :=
  existing <- PersonOverridesSnapshotDictionary_find_existing_mutation
                self table command_kind ;;
  match existing with
  | Some mutation => ret mutation
  | None =>
      execute (AlterTable CLICKHOUSE_DATABASE table cmd) ;;
      mutation <- PersonOverridesSnapshotDictionary_find_existing_mutation
                    self table command_kind ;;
      assert (bool_decide (mutation ≠ None)) ;;
      match mutation with
      | Some m => ret m
      | None => raise AssertionError
      end
  end.

(** *** The job as a graph and as a state machine *)

Definition root (job : Invocation) : Op :=
  match job with Invoke op _ => op end.

(** The ops of a job, upstream first, and its dependency edges
    [(upstream, downstream)]. *)
Fixpoint ops_of (job : Invocation) : list Op :=
  match job with
  | Invoke op inputs =>
      (fix all (l : list Invocation) : list Op :=
         match l with
         | [] => []
         | i :: l' => ops_of i ++ all l'
         end) inputs ++ [op]
  end.

Fixpoint edges (job : Invocation) : list (Op * Op) :=
  match job with
  | Invoke op inputs =>
      (fix all (l : list Invocation) : list (Op * Op) :=
         match l with
         | [] => []
         | i :: l' => edges i ++ (root i, op) :: all l'
         end) inputs
  end.

(** An op may start when it has not run yet and everything upstream of it
    has finished. *)
Definition runnable (job : Invocation) (finished : list Op) (op : Op) : bool :=
  bool_decide (op ∈ ops_of job)
  && negb (bool_decide (op ∈ finished))
  && forallb (λ e : Op * Op,
                if decide (e.2 = op) then bool_decide (e.1 ∈ finished) else true)
       (edges job).

(** [order] is an order in which a scheduler may have run ops of the job. *)
Definition schedule (job : Invocation) (order : list Op) : Prop :=
  ∀ i op, order !! i = Some op → runnable job (take i order) op = true.

Definition pipeline : list Op :=
  [Op_create_snapshot_table;
   Op_populate_snapshot_table;
   Op_wait_for_snapshot_table_replication;
   Op_create_snapshot_dictionary;
   Op_load_and_verify_snapshot_dictionary;
   Op_start_person_id_update_mutations;
   Op_wait_for_person_id_update_mutations;
   Op_start_overrides_delete_mutations;
   Op_wait_for_overrides_delete_mutations;
   Op_drop_snapshot_dictionary;
   Op_drop_snapshot_table].

(** The statements an op sends. *)
Definition allowed (op : Op) (q : Query) : bool :=
  match op, q with
  | Op_create_snapshot_table, CreateTableIfNotExists _
  | Op_populate_snapshot_table, (SelectCount _ | InsertLatestOverrides _ _ _)
  | Op_wait_for_snapshot_table_replication,
      (SystemSyncReplicaStrict _ | SelectQueueSize _ _)
  | Op_create_snapshot_dictionary, CreateDictionaryIfNotExists _ _ _ _ _ _
  | Op_load_and_verify_snapshot_dictionary,
      (SystemReloadDictionary _ | SelectStatus _ _ | SelectChecksum _)
  | Op_start_person_id_update_mutations,
      (SelectFromSystemMutations _ _ | AlterTable _ _ (Update _ _ _))
  | Op_wait_for_person_id_update_mutations, SelectFromSystemMutations _ _
  | Op_start_overrides_delete_mutations,
      (SelectFromSystemMutations _ _ | AlterTable _ _ (Delete _))
  | Op_wait_for_overrides_delete_mutations, SelectFromSystemMutations _ _
  | Op_drop_snapshot_dictionary, DropDictionaryIfExists _
  | Op_drop_snapshot_table, DropTableIfExists _ => true
  | _, _ => false
  end.

(** The linear state machine of the orchestrator: [Idle k] after the first
    [k] ops of the pipeline have finished, [Running k] while op [k] runs. *)
Inductive Stage :=
| Idle (finished : nat)
| Running (index : nat).

Definition step (s : Stage) (e : Event) : option Stage :=
  match s, e with
  | Idle k, OpStarted op =>
      if decide (pipeline !! k = Some op) then Some (Running k) else None
  | Running k, Sent _ q =>
      op ← pipeline !! k;
      if allowed op q then Some (Running k) else None
  | Running k, OpFinished op =>
      if decide (pipeline !! k = Some op) then Some (Idle (S k)) else None
  | _, _ => None
  end.

Fixpoint accepts (s : Stage) (evs : list Event) : option Stage :=
  match evs with
  | [] => Some s
  | e :: evs' => s' ← step s e; accepts s' evs'
  end.

Definition finished_ops (s : Stage) : nat :=
  match s with Idle k | Running k => k end.

(** A host-level call sends only statements that satisfy [P]; a
    cluster-level call records only such statements, and no op event. *)
Definition issues {A} (P : Query → bool) (f : M Client A) : Prop :=
  ∀ c, ∃ qs, journal (f c).2 = journal c ++ qs ∧ forallb P qs = true.

Definition is_sent (P : Query → bool) (e : Event) : bool :=
  match e with
  | Sent _ q => P q
  | _ => false
  end.

Definition sends {A} (P : Query → bool) (m : M Cluster A) : Prop :=
  ∀ cl, ∃ evs, log (m cl).2 = log cl ++ evs ∧ forallb (is_sent P) evs = true.

(** One op of a run, between its two op events. *)
Definition stage (run : Run) (op : Op) (args : list Output) : M Cluster Output :=
  record (OpStarted op) ;;
  out <- compute run op args ;;
  record (OpFinished op) ;;
  ret out.

(** A computation that takes the state machine from [Idle 0] to [Idle k]
    when it returns, and leaves it inside one of the first [k] ops when it
    does not. *)
Definition reaches {A} (k : nat) (m : M Cluster A) : Prop :=
  ∀ cl, ∃ evs s,
    log (m cl).2 = log cl ++ evs
    ∧ accepts (Idle 0) evs = Some s
    ∧ match (m cl).1 with
      | Returned _ => s = Idle k
      | _ => ∃ j, (j < k)%nat ∧ s = Running j
      end.

Definition is_alter (q : Query) : bool :=
  match q with AlterTable _ _ _ => true | _ => false end.

Definition is_alter_delete (q : Query) : bool :=
  match q with AlterTable _ _ (Delete _) => true | _ => false end.

(** How a task ends on a host, and the host after it. *)
Definition task_outcome {A} (fn : M Client A) (s : Server) : Outcome A :=
  (fn {| server := s; journal := [] |}).1.

Definition task_server {A} (fn : M Client A) (s : Server) : Server :=
  server (fn {| server := s; journal := [] |}).2.

(** The futures of a list, one after the other. *)
Fixpoint run_all {A} (futures : list (FutureList A)) : FutureList A :=
  match futures with
  | [] => ret []
  | f :: rest => merge f (run_all rest)
  end.

(** The host reports the mutation as done. *)
Definition mutation_done (m : Mutation) (s : Server) : Prop :=
  ∃ v, task_outcome (Mutation_is_done m) s = Returned v ∧ py_bool v = true.

Definition all_returned {A} (outs : list (HostInfo * Outcome A)) : Prop :=
  ∀ h o, (h, o) ∈ outs → ∃ a, o = Returned a.

(** *** Vocabulary of the further properties *)

(** [int(s, 16)] on a run of lowercase hexadecimal digits. *)
Definition hex_value (c : ascii) : N :=
  let n := N_of_ascii c in
  if (48 <=? n)%N && (n <=? 57)%N then (n - 48)%N
  else if (97 <=? n)%N && (n <=? 102)%N then (n - 87)%N
  else 0%N.

Fixpoint unhex_from (acc : N) (s : string) : N :=
  match s with
  | EmptyString => acc
  | String c s' => unhex_from (16 * acc + hex_value c)%N s'
  end.

Definition unhex (s : string) : N := unhex_from 0 s.

(** The query of [Mutation.is_done], and the rows of [system.mutations]
    that it selects. *)
Definition is_done_query (self : Mutation) : Query :=
  SelectFromSystemMutations "is_done"
    (And (And (Eq (Col "database") (Lit (VStr CLICKHOUSE_DATABASE)))
              (Eq (Col "table") (Lit (VStr (table self)))))
         (Eq (Col "mutation_id") (Lit (VStr (mutation_id self))))).

Definition is_mutation_row (self : Mutation) (r : SystemMutations.Row) : bool :=
  String.eqb (SystemMutations.database r) CLICKHOUSE_DATABASE
  && String.eqb (SystemMutations.table r) (table self)
  && String.eqb (SystemMutations.mutation_id r) (mutation_id self).

Definition mutation_rows (self : Mutation) (s : Server) : list SystemMutations.Row :=
  filter (λ r, is_mutation_row self r = true) (mutations s).

(** The query of [__is_loaded]. *)
Definition status_query (self : PersonOverridesSnapshotDictionary) : Query :=
  SelectStatus CLICKHOUSE_DATABASE (PersonOverridesSnapshotDictionary_name self).

(** What [SELECT groupBitXor(...)] returns for a dictionary. *)
Definition checksum (d : Dictionary) : Value :=
  VInt (Z.of_N (groupBitXor (cityHash64 <$> dictionary_rows d))).

(** What a dictionary holds once it has loaded the rows of its source
    table, keyed by [(team_id, distinct_id)]. *)
Definition snapshot_entries (rows : list Snapshot.Row) : gmap (Z * string) (N * Z) :=
  list_to_map
    ((λ r, (Snapshot.key r, (Snapshot.person_id r, Snapshot.version r))) <$> rows).

(** An event row has the columns that the UPDATE reads and writes. *)
Definition has_key_columns (row : Event.Row) : bool :=
  match row !! "team_id", row !! "distinct_id", row !! "person_id" with
  | Some (VInt _), Some (VStr _), Some _ => true
  | _, _, _ => false
  end.

(** The event row with the person of its dictionary entry, if it has one. *)
Definition rewritten (d : Dictionary) (row : Event.Row) : Event.Row :=
  match row !! "team_id", row !! "distinct_id" with
  | Some (VInt team), Some (VStr distinct) =>
      match dict_data d !! (team, distinct) with
      | Some entry => <["person_id" := VUUID entry.1]> row
      | None => row
      end
  | _, _ => row
  end.

Definition is_drop (q : Query) : bool :=
  match q with
  | DropTableIfExists _ | DropDictionaryIfExists _ => true
  | _ => false
  end.

(** A cluster-level call leaves the topology as it is. *)
Definition keeps_hosts {A} (m : M Cluster A) : Prop :=
  ∀ cl, hosts (m cl).2 = hosts cl.

(** The snapshot table and the dictionary of a run, and the outputs that
    carry them. *)
Definition run_table (run : Run) : PersonOverridesSnapshotTable :=
  {| id := run_id run; timestamp := config_timestamp (table_config run) |}.

Definition run_dictionary (run : Run) : PersonOverridesSnapshotDictionary :=
  {| source := run_table run |}.

Definition carries (run : Run) (out : Output) : Prop :=
  match out with
  | OutNone => True
  | OutTable t => t = run_table run
  | OutDictionary d => d = run_dictionary run
  | OutShardMutations (d, _) | OutMutation (d, _) => d = run_dictionary run
  end.

End Deployment.

(** ** A small deployment

    One database, the two table names of PostHog, a server that finishes
    every load and every mutation while the client sleeps, replication that
    is always caught up, and a toy hash. *)

Definition demo_load (tables : gmap string ReplicatedTable) (d : Dictionary) : Dictionary :=
  if String.eqb (status d) "LOADING" then
    match tables !! dict_source d with
    | Some t =>
        {| dict_source := dict_source d; status := "LOADED"; last_exception := "";
           dict_data :=
             list_to_map
               ((λ r, (Snapshot.key r, (Snapshot.person_id r, Snapshot.version r)))
                  <$> rows t) |}
    | None =>
        {| dict_source := dict_source d; status := "FAILED";
           last_exception := "source table is missing"; dict_data := ∅ |}
    end
  else d.

Definition demo_finish (m : SystemMutations.Row) : SystemMutations.Row :=
  {| SystemMutations.database := SystemMutations.database m;
     SystemMutations.table := SystemMutations.table m;
     SystemMutations.mutation_id := SystemMutations.mutation_id m;
     SystemMutations.command := SystemMutations.command m;
     SystemMutations.create_time := SystemMutations.create_time m;
     SystemMutations.is_done := true;
     SystemMutations.is_killed := SystemMutations.is_killed m |}.

Definition demo_elapse (seconds : Z) (s : Server) : Server :=
  {| tables := tables s; overrides := overrides s; events := events s;
     dictionaries := demo_load (tables s) <$> dictionaries s;
     mutations := demo_finish <$> mutations s;
     mutation_counter := mutation_counter s; now := now s + seconds |}.

Definition demo_cityHash64 (r : Snapshot.Row) : N :=
  (Z.to_N (Snapshot.team_id r) + 31 * N.of_nat (String.length (Snapshot.distinct_id r))
   + 7 * Snapshot.person_id r + 3 * Z.to_N (Snapshot.version r))%N.

Definition demo : Deployment :=
  {| CLICKHOUSE_DATABASE := "default";
     CLICKHOUSE_PASSWORD := "";
     PERSON_DISTINCT_ID_OVERRIDES_TABLE := "person_distinct_id_overrides";
     EVENTS_DATA_TABLE := "sharded_events";
     elapse := demo_elapse;
     sync_replica := λ _ s, Some s;
     toDateTime := λ literal, if String.eqb literal "t2" then Some 20 else None;
     cityHash64 := demo_cityHash64 |}.

Definition demo_table : PersonOverridesSnapshotTable := {| id := 255; timestamp := "t2" |}.
Definition demo_dictionary : PersonOverridesSnapshotDictionary := {| source := demo_table |}.

Definition demo_table_name : string :=
  Eval vm_compute in
    PersonOverridesSnapshotTable_qualified_name (deployment := demo) demo_table.

Definition demo_dictionary_name : string :=
  Eval vm_compute in
    PersonOverridesSnapshotDictionary_qualified_name (deployment := demo) demo_dictionary.

Definition demo_override (d : string) (p : N) (v t : Z) : Override.Row :=
  {| Override.team_id := 1; Override.distinct_id := d; Override.person_id := p;
     Override.version := v; Override._timestamp := t |}.

(** The scenario of the specification: two overrides of [(1, A)] before
    the cutoff [t2 = 20], a third one after it, and an unrelated key. *)
Definition demo_overrides : list Override.Row :=
  [demo_override "A" 9 1 5; demo_override "A" 9 2 10; demo_override "A" 7 3 30;
   demo_override "B" 4 1 40].

Definition demo_event (d : string) (p : N) (payload : string) : Event.Row :=
  {[ "team_id" := VInt 1; "distinct_id" := VStr d; "person_id" := VUUID p;
     "event" := VStr payload ]}.

Definition demo_server (snapshot : list Snapshot.Row) (queue : Z) : Server :=
  {| tables := {[ demo_table_name := {| rows := snapshot; queue_size := queue |} ]};
     overrides := demo_overrides;
     events := [demo_event "A" 1 "pageview"; demo_event "C" 3 "click"];
     dictionaries := ∅; mutations := []; mutation_counter := 0; now := 100 |}.

Definition demo_snapshot_row : Snapshot.Row :=
  {| Snapshot.team_id := 1; Snapshot.distinct_id := "A";
     Snapshot.person_id := 9; Snapshot.version := 2 |}.

Definition demo_client (s : Server) : Client := {| server := s; journal := [] |}.

Definition demo_loaded : Dictionary :=
  {| dict_source := demo_table_name; status := "LOADED"; last_exception := "";
     dict_data := {[ (1, "A") := (9%N, 2) ]} |}.

Definition demo_dictionaries : gmap string Dictionary :=
  {[ demo_dictionary_name := demo_loaded ]}.

Abbreviation demo_populate :=
  (PersonOverridesSnapshotTable_populate (deployment := demo) demo_table).

Abbreviation demo_sync :=
  (PersonOverridesSnapshotTable_sync (deployment := demo) demo_table).

Abbreviation demo_enqueue_update :=
  (PersonOverridesSnapshotDictionary_enqueue_person_id_update_mutation
     (deployment := demo) demo_dictionary).

Abbreviation demo_enqueue_delete :=
  (PersonOverridesSnapshotDictionary_enqueue_overrides_delete_mutation
     (deployment := demo) demo_dictionary).

Abbreviation demo_find_existing_mutation :=
  (PersonOverridesSnapshotDictionary_find_existing_mutation
     (deployment := demo) demo_dictionary "sharded_events" "UPDATE").

Abbreviation demo_find_query table command_kind :=
  (find_existing_mutation_query (deployment := demo) demo_dictionary table command_kind).

Definition demo_after_update : Client :=
  Eval vm_compute in (demo_enqueue_update (demo_client (demo_server [] 0))).2.

Definition demo_after_delete : Client :=
  Eval vm_compute in (demo_enqueue_delete (demo_client (demo_server [] 0))).2.

(** A mutation of another dictionary, whose name differs from the job's
    dictionary where that has underscores. *)
Definition demo_foreign_mutation : SystemMutations.Row :=
  {| SystemMutations.database := "default";
     SystemMutations.table := "sharded_events";
     SystemMutations.mutation_id := "0000000042";
     SystemMutations.command :=
       "UPDATE person_id = dictGet('default.person-distinct-id-overrides-snapshot-000000000000000000000000000000ff-dictionary', 'person_id', (team_id, distinct_id)) WHERE 1";
     SystemMutations.create_time := 50;
     SystemMutations.is_done := false;
     SystemMutations.is_killed := false |}.

Definition demo_foreign_client : Client :=
  demo_client (add_mutation demo_foreign_mutation (demo_server [] 0)).

Definition demo_fresh_server : Server :=
  {| tables := ∅; overrides := demo_overrides;
     events := [demo_event "A" 1 "pageview"; demo_event "C" 3 "click"];
     dictionaries := ∅; mutations := []; mutation_counter := 0; now := 100 |}.

Definition demo_host (name : string) (shard replica : Z) : HostInfo :=
  {| address := name; shard_num := shard; replica_num := replica |}.

Definition demo_run : Run :=
  {| run_id := 255;
     table_config := {| config_timestamp := "t2" |};
     dictionary_config := {| shards := 16; max_execution_time := 0 |};
     poll_budget := 3 |}.

(** One host; and two replicas of which only the first receives the
    snapshot, because nothing replicates in this deployment. *)
Definition demo_single : Cluster :=
  {| nodes := [(demo_host "ch1" 1 1, demo_fresh_server)]; log := [] |}.

Definition demo_diverging : Cluster :=
  {| nodes := [(demo_host "ch1" 1 1, demo_fresh_server);
               (demo_host "ch2" 1 2, demo_fresh_server)];
     log := [] |}.

Abbreviation demo_execute_job := (execute_job (deployment := demo) demo_run).

Abbreviation demo_load_and_verify :=
  (load_and_verify_snapshot_dictionary (deployment := demo) 3 demo_dictionary).

Abbreviation demo_load_all :=
  (result (map_all_hosts
             (PersonOverridesSnapshotDictionary_load (deployment := demo) 3
                demo_dictionary))).

Abbreviation demo_start_updates :=
  (start_person_id_update_mutations (deployment := demo) demo_dictionary).

Abbreviation demo_wait_updates :=
  (wait_for_person_id_update_mutations (deployment := demo) 3).

Definition demo_single_created : Cluster :=
  Eval vm_compute in (demo_execute_job created_snapshot_dictionary demo_single).2.

Definition demo_diverging_created : Cluster :=
  Eval vm_compute in (demo_execute_job created_snapshot_dictionary demo_diverging).2.

Definition demo_diverging_started : Cluster :=
  {| nodes := nodes demo_diverging_created;
     log := log demo_diverging_created
              ++ [OpStarted Op_load_and_verify_snapshot_dictionary] |}.

Definition demo_diverging_failed : Cluster :=
  Eval vm_compute in (demo_load_and_verify demo_diverging_started).2.

Definition demo_single_loaded : Cluster :=
  Eval vm_compute in (demo_load_and_verify demo_single_created).2.

Definition demo_single_started : Cluster :=
  Eval vm_compute in (demo_start_updates demo_single_loaded).2.

Definition demo_single_mutations : gmap Z Mutation :=
  {[ 1 := {| table := "sharded_events"; mutation_id := "0000000000" |} ]}.

Definition demo_single_waited : Cluster :=
  Eval vm_compute in
    (demo_wait_updates (demo_dictionary, demo_single_mutations) demo_single_started).2.


(** Further hosts and runs of the small deployment: a second run, a table
    whose timestamp the server cannot read, a host whose overrides are all
    later than the cutoff, a deployment whose replicas cannot be synced, a
    host that lists a mutation twice, a host whose mutation was killed, and
    the stages of the run on one host. *)
Definition demo_other_table : PersonOverridesSnapshotTable :=
  {| id := 256; timestamp := "t2" |}.

Definition demo_undated_table : PersonOverridesSnapshotTable :=
  {| id := 255; timestamp := "yesterday" |}.

Definition demo_late_server : Server :=
  {| tables := {[ demo_table_name := {| rows := []; queue_size := 0 |} ]};
     overrides := [demo_override "B" 4 1 40];
     events := []; dictionaries := ∅; mutations := []; mutation_counter := 0;
     now := 100 |}.

Definition demo_unreachable : Deployment :=
  {| CLICKHOUSE_DATABASE := "default";
     CLICKHOUSE_PASSWORD := "";
     PERSON_DISTINCT_ID_OVERRIDES_TABLE := "person_distinct_id_overrides";
     EVENTS_DATA_TABLE := "sharded_events";
     elapse := demo_elapse;
     sync_replica := λ _ _, None;
     toDateTime := λ literal, if String.eqb literal "t2" then Some 20 else None;
     cityHash64 := demo_cityHash64 |}.

Definition demo_mutation : Mutation :=
  {| table := "sharded_events"; mutation_id := "0000000000" |}.

Definition demo_delete_mutation : Mutation :=
  {| table := "person_distinct_id_overrides"; mutation_id := "0000000001" |}.

Definition demo_twice_listed : Server :=
  Eval vm_compute in
    {| tables := tables (server demo_after_update);
       overrides := overrides (server demo_after_update);
       events := events (server demo_after_update);
       dictionaries := dictionaries (server demo_after_update);
       mutations := mutations (server demo_after_update)
                    ++ mutations (server demo_after_update);
       mutation_counter := mutation_counter (server demo_after_update);
       now := now (server demo_after_update) |}.

Definition demo_kill (m : SystemMutations.Row) : SystemMutations.Row :=
  {| SystemMutations.database := SystemMutations.database m;
     SystemMutations.table := SystemMutations.table m;
     SystemMutations.mutation_id := SystemMutations.mutation_id m;
     SystemMutations.command := SystemMutations.command m;
     SystemMutations.create_time := SystemMutations.create_time m;
     SystemMutations.is_done := SystemMutations.is_done m;
     SystemMutations.is_killed := true |}.

Definition demo_killed_server : Server :=
  Eval vm_compute in
    {| tables := tables (server demo_after_update);
       overrides := overrides (server demo_after_update);
       events := events (server demo_after_update);
       dictionaries := dictionaries (server demo_after_update);
       mutations := demo_kill <$> mutations (server demo_after_update);
       mutation_counter := mutation_counter (server demo_after_update);
       now := now (server demo_after_update) |}.

Definition demo_after_wait : Client :=
  Eval vm_compute in
    (Mutation_wait (deployment := demo) 3 demo_mutation demo_after_update).2.

Definition demo_created_server : Server :=
  Eval vm_compute in
    match nodes demo_single_created with
    | (_, s) :: _ => s
    | [] => demo_fresh_server
    end.

Definition demo_after_load : Client :=
  Eval vm_compute in
    (PersonOverridesSnapshotDictionary_load (deployment := demo) 3 demo_dictionary
       (demo_client demo_created_server)).2.

Definition demo_empty : Cluster := {| nodes := []; log := [] |}.

Definition demo_replicated : Cluster :=
  {| nodes := [(demo_host "ch1" 1 1, demo_created_server);
               (demo_host "ch2" 1 2, demo_created_server)];
     log := [] |}.

Definition demo_replicated_log : list Event :=
  Eval vm_compute in log (demo_load_all demo_replicated).2.

Definition demo_replicated_loaded : Cluster :=
  {| nodes := [(demo_host "ch1" 1 1, server demo_after_load);
               (demo_host "ch2" 1 2, server demo_after_load)];
     log := demo_replicated_log |}.

Definition demo_single_delete_started : Cluster :=
  Eval vm_compute in
    (start_overrides_delete_mutations (deployment := demo) demo_dictionary
       demo_single_waited).2.

Definition demo_single_deleted : Cluster :=
  Eval vm_compute in
    (wait_for_overrides_delete_mutations (deployment := demo) 3
       (demo_dictionary, demo_delete_mutation) demo_single_delete_started).2.

Definition demo_single_finished : Cluster :=
  Eval vm_compute in (demo_execute_job squash_person_overrides demo_single).2.


Section Properties.
Context {deployment : Deployment}.

(** ** Properties *)

(** *** Running one statement *)

Lemma execute_eq (q : Query) (c : Client) :
  execute q c =
    (match (run q (server c)).1 with
     | Some r => Returned r
     | None => Raised ServerException
     end,
     {| server := (run q (server c)).2; journal := journal c ++ [q] |}).
Proof. unfold execute. destruct (run q (server c)) as [[r|] s]; reflexivity. Qed.

Lemma py_eq_count_zero (n : nat) :
  py_eq (VInt (Z.of_nat n)) (VInt 0) = bool_decide (n = O).
Proof.
  unfold py_eq. apply bool_decide_ext. split.
  - intros [= H]. lia.
  - intros ->. reflexivity.
Qed.

Lemma py_eq_int (x y : Z) : py_eq (VInt x) (VInt y) = bool_decide (x = y).
Proof. unfold py_eq. apply bool_decide_ext. split; [by intros [= ->] | by intros ->]. Qed.

(** *** populate *)

(** C2. On a snapshot table that holds at least one row, [populate] raises
    AssertionError after the count query alone: the host is left as it was
    and no INSERT is sent.  On an empty table the INSERT is sent. *)
Theorem populate_requires_empty_table
    (self : PersonOverridesSnapshotTable) (c : Client) (t : ReplicatedTable) :
  tables (server c) !! PersonOverridesSnapshotTable_qualified_name self = Some t →
  (rows t ≠ [] →
     PersonOverridesSnapshotTable_populate self c =
       (Raised AssertionError,
        {| server := server c;
           journal := journal c
             ++ [SelectCount (PersonOverridesSnapshotTable_qualified_name self)] |}))
  ∧ (rows t = [] →
     ∃ outcome c',
       PersonOverridesSnapshotTable_populate self c = (outcome, c')
       ∧ journal c' = journal c
           ++ [SelectCount (PersonOverridesSnapshotTable_qualified_name self);
               InsertLatestOverrides
                 (PersonOverridesSnapshotTable_qualified_name self)
                 (CLICKHOUSE_DATABASE +:+ "." +:+ PERSON_DISTINCT_ID_OVERRIDES_TABLE)
                 (timestamp self)]).
Proof.
  intros Ht. split; intros Hrows.
  - unfold PersonOverridesSnapshotTable_populate, bind.
    rewrite execute_eq. simpl. rewrite Ht. simpl.
    rewrite py_eq_count_zero.
    rewrite bool_decide_eq_false_2; [reflexivity|].
    destruct (rows t); [done|discriminate].
  - unfold PersonOverridesSnapshotTable_populate, bind.
    rewrite execute_eq. simpl. rewrite Ht. simpl.
    rewrite py_eq_count_zero, Hrows. simpl.
    rewrite execute_eq. simpl.
    match goal with
    | |- context [match ?r with Some _ => _ | None => _ end] => destruct r
    end; simpl; eexists _, _; (split; [reflexivity|]); simpl;
      rewrite <- app_assoc; reflexivity.
Qed.

Lemma aggregate_snoc (l : list Override.Row) (o : Override.Row) :
  aggregate (l ++ [o]) = aggregate_step (aggregate l) o.
Proof. unfold aggregate. rewrite fold_left_app. reflexivity. Qed.

Lemma aggregate_lookup (l : list Override.Row) (k : Z * string) :
  match aggregate l !! k with
  | Some e => is_latest l k e
  | None => ∀ o, o ∈ l → Override.key o ≠ k
  end.
Proof.
  induction l as [|o l IH] using rev_ind.
  - unfold aggregate. simpl. rewrite lookup_empty. intros o Ho.
    by apply not_elem_of_nil in Ho.
  - rewrite aggregate_snoc. unfold aggregate_step.
    destruct (decide (Override.key o = k)) as [Hk|Hk].
    + subst k. destruct (aggregate l !! Override.key o) as [[p v]|] eqn:Hl.
      * destruct (Z.ltb_spec v (Override.version o)) as [Hlt|Hge].
        -- rewrite lookup_insert_eq. exists o. simpl.
           split; [apply elem_of_app; right; apply list_elem_of_singleton; done|].
           repeat split; try reflexivity.
           intros o' Ho' Hk'. apply elem_of_app in Ho' as [Ho'|Ho'].
           ++ destruct IH as (o1 & _ & _ & _ & _ & Hmax). simpl in Hmax.
              specialize (Hmax o' Ho' Hk'). lia.
           ++ apply list_elem_of_singleton in Ho'. subst. lia.
        -- rewrite Hl. destruct IH as (o1 & Hin & Hk1 & Hp & Hv & Hmax).
           exists o1. split; [apply elem_of_app; by left|]. repeat split; try done.
           intros o' Ho' Hk'. apply elem_of_app in Ho' as [Ho'|Ho'].
           ++ by apply Hmax.
           ++ apply list_elem_of_singleton in Ho'. subst. simpl. lia.
      * rewrite lookup_insert_eq. exists o. simpl.
        split; [apply elem_of_app; right; apply list_elem_of_singleton; done|].
        repeat split; try reflexivity.
        intros o' Ho' Hk'. apply elem_of_app in Ho' as [Ho'|Ho'].
        -- by destruct (IH o' Ho').
        -- apply list_elem_of_singleton in Ho'. subst. lia.
    + assert (Hsame : ∀ m', m' = aggregate l ∨
                (∃ e, m' = <[Override.key o := e]> (aggregate l)) →
                m' !! k = aggregate l !! k).
      { intros m' [->|[e ->]]; [done|]. by rewrite lookup_insert_ne. }
      match goal with |- match ?m !! k with _ => _ end => rewrite (Hsame m) end.
      2:{ destruct (aggregate l !! Override.key o) as [[p v]|]; [|eauto].
          destruct (v <? Override.version o); eauto. }
      destruct (aggregate l !! k) as [e|].
      * destruct IH as (o1 & Hin & Hk1 & Hp & Hv & Hmax).
        exists o1. split; [apply elem_of_app; by left|]. repeat split; try done.
        intros o' Ho' Hk'. apply elem_of_app in Ho' as [Ho'|Ho'].
        -- by apply Hmax.
        -- apply list_elem_of_singleton in Ho'. by subst.
      * intros o' Ho'. apply elem_of_app in Ho' as [Ho'|Ho'].
        -- by apply IH.
        -- apply list_elem_of_singleton in Ho'. by subst.
Qed.

Lemma key_group_row (g : (Z * string) * (N * Z)) : Snapshot.key (group_row g) = g.1.
Proof. by destruct g as [[??][??]]. Qed.

Lemma latest_overrides_keys (cutoff : Z) (l : list Override.Row) :
  Snapshot.key <$> latest_overrides cutoff l
  = (map_to_list (aggregate (filter (λ o, Override._timestamp o < cutoff) l))).*1.
Proof.
  unfold latest_overrides. rewrite <- list_fmap_compose.
  apply list_fmap_ext. intros _ g _. apply key_group_row.
Qed.

(** C7. On an empty snapshot table [populate] inserts exactly one row for
    every [(team_id, distinct_id)] that occurs among the overrides written
    strictly before the cutoff; the row carries the person and the version
    of an override of that key whose version is the largest among them.
    Overrides at or after the cutoff take no part. *)
Theorem populate_inserts_latest_overrides
    (self : PersonOverridesSnapshotTable) (c : Client) (t : ReplicatedTable)
    (cutoff : Z) :
  tables (server c) !! PersonOverridesSnapshotTable_qualified_name self = Some t →
  rows t = [] →
  toDateTime (timestamp self) = Some cutoff →
  let eligible := filter (λ o, Override._timestamp o < cutoff) (overrides (server c)) in
  ∃ c' t',
    PersonOverridesSnapshotTable_populate self c = (Returned tt, c')
    ∧ tables (server c') !! PersonOverridesSnapshotTable_qualified_name self = Some t'
    ∧ overrides (server c') = overrides (server c)
    ∧ NoDup (Snapshot.key <$> rows t')
    ∧ (∀ k, k ∈ Snapshot.key <$> rows t' ↔ k ∈ Override.key <$> eligible)
    ∧ (∀ r, r ∈ rows t' →
         ∃ o, o ∈ eligible
              ∧ Override.key o = Snapshot.key r
              ∧ Override.person_id o = Snapshot.person_id r
              ∧ Override.version o = Snapshot.version r
              ∧ ∀ o', o' ∈ eligible → Override.key o' = Snapshot.key r →
                      Override.version o' <= Snapshot.version r).
Proof.
  intros Ht Hrows Hts eligible.
  unfold PersonOverridesSnapshotTable_populate, bind.
  rewrite execute_eq. simpl. rewrite Ht. simpl.
  rewrite py_eq_count_zero, Hrows. simpl.
  rewrite execute_eq. simpl. rewrite Ht, Hts. simpl.
  unfold qualify. rewrite decide_True by reflexivity. simpl.
  eexists _, _. split; [reflexivity|]. simpl.
  split; [apply lookup_insert_eq|]. simpl.
  split; [reflexivity|].
  rewrite Hrows. simpl. fold eligible. split; [|split].
  - rewrite latest_overrides_keys. apply NoDup_fst_map_to_list.
  - intros k. rewrite latest_overrides_keys. fold eligible.
    pose proof (aggregate_lookup eligible k) as Hk.
    rewrite list_elem_of_fmap. split.
    + intros ([k' e] & -> & Hin). simpl in *. apply elem_of_map_to_list in Hin.
      rewrite Hin in Hk. destruct Hk as (o & Ho & Hko & _).
      apply list_elem_of_fmap. by exists o.
    + intros Hin. apply list_elem_of_fmap in Hin as (o & -> & Ho).
      destruct (aggregate eligible !! Override.key o) as [e|] eqn:He.
      * exists (Override.key o, e). split; [done|]. by apply elem_of_map_to_list.
      * by destruct (Hk o Ho).
  - intros r Hr. unfold latest_overrides in Hr. fold eligible in Hr.
    apply list_elem_of_fmap in Hr as ([k e] & -> & Hin).
    apply elem_of_map_to_list in Hin.
    pose proof (aggregate_lookup eligible k) as Hk. rewrite Hin in Hk.
    destruct e as [p v], k as [team d]. exact Hk.
Qed.

(** *** sync *)

(** C5. [sync] returns only when, after SYSTEM SYNC REPLICA ... STRICT, the
    host reports a replication queue of depth zero for the snapshot table;
    a non-zero depth raises AssertionError. *)
Theorem sync_requires_empty_queue
    (self : PersonOverridesSnapshotTable) (c : Client) :
  (∀ c', PersonOverridesSnapshotTable_sync self c = (Returned tt, c') →
     ∃ t, sync_replica (PersonOverridesSnapshotTable_qualified_name self) (server c)
            = Some (server c')
          ∧ tables (server c') !! PersonOverridesSnapshotTable_qualified_name self = Some t
          ∧ queue_size t = 0)
  ∧ (∀ s' t,
       sync_replica (PersonOverridesSnapshotTable_qualified_name self) (server c) = Some s' →
       tables s' !! PersonOverridesSnapshotTable_qualified_name self = Some t →
       queue_size t ≠ 0 →
       PersonOverridesSnapshotTable_sync self c =
         (Raised AssertionError,
          {| server := s';
             journal := journal c
               ++ [SystemSyncReplicaStrict (PersonOverridesSnapshotTable_qualified_name self);
                   SelectQueueSize CLICKHOUSE_DATABASE
                     (PersonOverridesSnapshotTable_name self)] |})).
Proof.
  split.
  - intros c'. unfold PersonOverridesSnapshotTable_sync, bind.
    rewrite execute_eq. simpl.
    destruct (sync_replica _ (server c)) as [s'|] eqn:Hsync; simpl; [|discriminate].
    rewrite execute_eq. simpl. unfold qualify.
    fold (PersonOverridesSnapshotTable_qualified_name self).
    destruct (tables s' !! _) as [t|] eqn:Ht; simpl; [|discriminate].
    rewrite py_eq_int. case_bool_decide as Hq; simpl; [|discriminate].
    intros [= <-]. simpl. by exists t.
  - intros s' t Hsync Ht Hq.
    unfold PersonOverridesSnapshotTable_sync, bind.
    rewrite execute_eq. simpl. rewrite Hsync. simpl.
    rewrite execute_eq. simpl. unfold qualify.
    fold (PersonOverridesSnapshotTable_qualified_name self).
    rewrite Ht. simpl. rewrite py_eq_int, bool_decide_eq_false_2 by done.
    simpl. rewrite <- app_assoc. reflexivity.
Qed.

(** *** The DELETE mutation *)

Lemma mapM_mutate_row `{Tabular R} (dicts : gmap string Dictionary)
    (cmd : AlterCommand) (keep : R → bool) (l : list R) :
  (∀ r, r ∈ l → mutate_row dicts cmd r = Some (if keep r then [r] else [])) →
  apply_command dicts cmd l = Some (filter (λ r, keep r = true) l).
Proof.
  unfold apply_command. induction l as [|r l IH]; intros Hrow; [reflexivity|].
  simpl. rewrite (Hrow r) by apply list_elem_of_here. simpl.
  specialize (IH (λ r' Hr', Hrow r' (list_elem_of_further _ _ _ Hr'))).
  destruct (mapM (mutate_row dicts cmd) l) as [ls|]; [|discriminate].
  simpl in *. injection IH as IH. rewrite IH.
  rewrite filter_cons.
  destruct (decide (keep r = true)) as [Hk|Hk]; destruct (keep r); done.
Qed.

Lemma delete_override_row (self : PersonOverridesSnapshotDictionary)
    (dicts : gmap string Dictionary) (d : Dictionary) (o : Override.Row) :
  dicts !! PersonOverridesSnapshotDictionary_qualified_name self = Some d →
  mutate_row dicts (overrides_delete_command self) o
  = Some (if negb (superseded d o) then [o] else []).
Proof.
  intros Hd. unfold mutate_row, overrides_delete_command, satisfies, eval_top.
  cbn. rewrite Hd. cbn. unfold superseded, snapshot_version.
  change (Override.team_id o, Override.distinct_id o) with (Override.key o).
  destruct (dict_data d !! Override.key o) as [[p s]|] eqn:He; cbn;
    [|reflexivity].
  destruct (Override.version o <=? s); reflexivity.
Qed.

Lemma delete_command_effect
    (self : PersonOverridesSnapshotDictionary)
    (dicts : gmap string Dictionary) (d : Dictionary) (l : list Override.Row) :
  dicts !! PersonOverridesSnapshotDictionary_qualified_name self = Some d →
  ∃ l',
    apply_command dicts (overrides_delete_command self) l = Some l'
    ∧ (∀ o, o ∈ l →
         (o ∉ l' ↔ ∃ p s, dict_data d !! Override.key o = Some (p, s)
                           ∧ s >= Override.version o))
    ∧ (∀ o, o ∈ l → dict_data d !! Override.key o = None → o ∈ l')
    ∧ (∀ o, o ∈ l' → o ∈ l).
Proof.
  intros Hd.
  pose proof (mapM_mutate_row dicts (overrides_delete_command self)
                (λ o, negb (superseded d o)) l
                (λ o _, delete_override_row self dicts d o Hd)) as Happly.
  eexists. split; [exact Happly|].
  assert (Hsup : ∀ o, superseded d o = true ↔
            ∃ p s, dict_data d !! Override.key o = Some (p, s)
                   ∧ s >= Override.version o).
  { intros o. unfold superseded, snapshot_version.
    destruct (dict_data d !! Override.key o) as [[p s]|]; simpl.
    - rewrite Z.leb_le. split.
      + intros Hle. exists p, s. split; [done|lia].
      + intros (p' & s' & [= <- <-] & Hge). lia.
    - split; [done|]. by intros (? & ? & ? & _). }
  split; [|split].
  - intros o Ho. rewrite <- Hsup, list_elem_of_filter.
    destruct (superseded d o); simpl; split.
    + done.
    + by intros _ [? _].
    + intros Hn. by destruct Hn.
    + done.
  - intros o Ho Hnone. apply list_elem_of_filter. split; [|done].
    unfold superseded, snapshot_version. by rewrite Hnone.
  - intros o Ho. by apply list_elem_of_filter in Ho as [_ ?].
Qed.


(** *** LIKE *)

Lemma like_percent (text p : string) :
  like text (String "%" p)
  = like text p || match text with
                   | EmptyString => false
                   | String _ t => like t (String "%" p)
                   end.
Proof. destruct text; reflexivity. Qed.

Lemma like_percent_skip (a text p : string) :
  like text p = true → like (a +:+ text) (String "%" p) = true.
Proof.
  intros H. induction a as [|c a IH].
  - change ("" +:+ text) with text. rewrite like_percent, H. reflexivity.
  - change (String c a +:+ text) with (String c (a +:+ text)).
    rewrite like_percent. cbv iota. rewrite IH. apply orb_true_r.
Qed.

Lemma like_anything (text : string) : like text "%" = true.
Proof.
  induction text as [|c t IH]; [reflexivity|].
  rewrite like_percent. cbv iota. rewrite IH. apply orb_true_r.
Qed.

Lemma like_same_prefix (s text p : string) :
  no_backslash s = true → like text p = true → like (s +:+ text) (s +:+ p) = true.
Proof.
  intros Hs H. induction s as [|c s IH]; [exact H|].
  simpl in Hs. apply andb_true_iff in Hs as [Hc Hs]. specialize (IH Hs).
  change (String c s +:+ text) with (String c (s +:+ text)).
  change (String c s +:+ p) with (String c (s +:+ p)).
  destruct (Ascii.eqb_spec c "%") as [->|Hpercent].
  { rewrite like_percent. cbv iota. apply orb_true_iff. right.
    rewrite like_percent, IH. reflexivity. }
  destruct (Ascii.eqb_spec c "_") as [->|Hunderscore]; [exact IH|].
  destruct (Ascii.eqb_spec c "\") as [->|Hbackslash]; [discriminate|].
  simpl. apply Ascii.eqb_neq in Hpercent, Hunderscore, Hbackslash.
  rewrite Hpercent, Hunderscore, Hbackslash, Ascii.eqb_refl. exact IH.
Qed.

Lemma prefix_app (needle hay : string) :
  String.prefix needle hay = true → ∃ b, hay = needle +:+ b.
Proof.
  revert hay. induction needle as [|c n IH]; intros hay H.
  - by exists hay.
  - destruct hay as [|c' h]; simpl in H; [discriminate|].
    destruct (ascii_dec c c') as [->|]; [|discriminate].
    destruct (IH h H) as [b ->]. by exists b.
Qed.

Lemma contains_unfold (hay needle : string) :
  contains hay needle
  = String.prefix needle hay
    || match hay with
       | EmptyString => false
       | String _ hay' => contains hay' needle
       end.
Proof. destruct hay; reflexivity. Qed.

Lemma contains_app (hay needle : string) :
  contains hay needle = true → ∃ a b, hay = a +:+ needle +:+ b.
Proof.
  induction hay as [|c h IH]; intros H;
    rewrite contains_unfold in H; apply orb_true_iff in H as [H|H].
  - destruct (prefix_app _ _ H) as [b Hb]. by exists "", b.
  - discriminate.
  - destruct (prefix_app _ _ H) as [b Hb]. by exists "", b.
  - destruct (IH H) as (a & b & ->). by exists (String c a), b.
Qed.

Lemma contains_like (hay needle : string) :
  no_backslash needle = true → contains hay needle = true →
  like hay ("%" +:+ needle +:+ "%") = true.
Proof.
  intros Hn H. destruct (contains_app _ _ H) as (a & b & ->).
  change ("%" +:+ needle +:+ "%") with (String "%" (needle +:+ "%")).
  apply like_percent_skip, like_same_prefix; [done|apply like_anything].
Qed.

Lemma no_backslash_app (a b : string) :
  no_backslash (a +:+ b) = no_backslash a && no_backslash b.
Proof.
  induction a as [|c a IH]; [reflexivity|].
  change (String c a +:+ b) with (String c (a +:+ b)). simpl.
  rewrite IH. apply andb_assoc.
Qed.

Lemma hex_digit_no_backslash (n : N) : Ascii.eqb (hex_digit n) "\" = false.
Proof.
  unfold hex_digit. generalize (N.to_nat n). intros k.
  do 17 (destruct k as [|k]; [reflexivity|]). reflexivity.
Qed.

Lemma hex_digits_no_backslash (width : nat) (n : N) :
  no_backslash (hex_digits width n) = true.
Proof.
  revert n. induction width as [|w IH]; intros n; [reflexivity|].
  simpl. rewrite no_backslash_app, IH. simpl.
  by rewrite hex_digit_no_backslash.
Qed.

Lemma qualified_name_no_backslash (self : PersonOverridesSnapshotDictionary) :
  no_backslash CLICKHOUSE_DATABASE = true →
  no_backslash (PersonOverridesSnapshotDictionary_qualified_name self) = true.
Proof.
  intros H. unfold PersonOverridesSnapshotDictionary_qualified_name,
    PersonOverridesSnapshotDictionary_name, PersonOverridesSnapshotTable_name, hex.
  rewrite !no_backslash_app, H, hex_digits_no_backslash. reflexivity.
Qed.

(** *** The query of [__find_existing_mutation] *)

Lemma truthy_of_bool (b : bool) : truthy (of_bool b) = Some b.
Proof. by destruct b. Qed.

Lemma sql_and_of_bool (a b : bool) :
  sql_and (of_bool a) (of_bool b) = Some (of_bool (a && b)).
Proof. by destruct a, b. Qed.

Lemma sql_not_of_bool (b : bool) : sql_not (of_bool b) = Some (of_bool (negb b)).
Proof. by destruct b. Qed.

Lemma satisfies_find_existing_mutation (self : PersonOverridesSnapshotDictionary)
    (table command_kind : string) (dicts : gmap string Dictionary)
    (r : SystemMutations.Row) :
  satisfies {| column := SystemMutations.column r; env_dictionaries := dicts |}
    (find_existing_mutation_condition self table command_kind)
  = Some (is_existing_mutation self table command_kind r).
Proof.
  unfold satisfies, eval_top, is_existing_mutation. cbn.
  destruct (String.eqb (SystemMutations.database r) CLICKHOUSE_DATABASE),
    (String.eqb (SystemMutations.table r) table),
    (String.prefix command_kind (SystemMutations.command r)),
    (like (SystemMutations.command r) _),
    (SystemMutations.is_killed r); reflexivity.
Qed.

Lemma where_existing_mutations (self : PersonOverridesSnapshotDictionary)
    (table command_kind : string) (dicts : gmap string Dictionary)
    (l : list SystemMutations.Row) :
  where_mutations dicts (find_existing_mutation_condition self table command_kind) l
  = Some (filter (λ r, is_existing_mutation self table command_kind r = true) l).
Proof.
  induction l as [|r l IH]; [reflexivity|].
  cbn [where_mutations]. rewrite satisfies_find_existing_mutation, IH. simpl.
  rewrite filter_cons.
  destruct (decide (is_existing_mutation self table command_kind r = true)) as [H|H];
    destruct (is_existing_mutation self table command_kind r); done.
Qed.

Lemma project_mutation_id (l : list SystemMutations.Row) :
  project_mutations "mutation_id" l
  = Some ((λ r, [VStr (SystemMutations.mutation_id r)]) <$> l).
Proof.
  unfold project_mutations. induction l as [|r l IH]; [reflexivity|].
  simpl in *. rewrite IH. reflexivity.
Qed.

Lemma merge_sort_singleton (r : SystemMutations.Row) :
  merge_sort SystemMutations.newer_first [r] = [r].
Proof. reflexivity. Qed.

Lemma length_merge_sort (l : list SystemMutations.Row) :
  length (merge_sort SystemMutations.newer_first l) = length l.
Proof. apply Permutation_length, merge_sort_Permutation. Qed.

(** What [__find_existing_mutation] returns, by the number of selected rows. *)
Lemma find_existing_mutation_eq (self : PersonOverridesSnapshotDictionary)
    (table command_kind : string) (c : Client) :
  PersonOverridesSnapshotDictionary_find_existing_mutation self table command_kind c
  = (match existing_mutations self table command_kind (server c) with
     | [] => Returned None
     | [r] => Returned (Some {| table := table;
                                mutation_id := SystemMutations.mutation_id r |})
     | _ => Raised AssertionError
     end,
     {| server := server c;
        journal := journal c ++ [find_existing_mutation_query self table command_kind] |}).
Proof.
  unfold PersonOverridesSnapshotDictionary_find_existing_mutation, bind.
  rewrite execute_eq. unfold find_existing_mutation_query at 1 2. simpl.
  rewrite where_existing_mutations. simpl. rewrite project_mutation_id. simpl.
  fold (existing_mutations self table command_kind (server c)).
  destruct (existing_mutations self table command_kind (server c)) as [|r [|r' l]] eqn:E.
  - reflexivity.
  - reflexivity.
  - pose proof (length_merge_sort (r :: r' :: l)) as Hlen.
    destruct (merge_sort SystemMutations.newer_first (r :: r' :: l)) as [|x [|y l']];
      simpl in Hlen; try discriminate.
    reflexivity.
Qed.

(** What [__find_existing_mutation] does.  It sends one query and leaves
    the host alone.  The query selects the rows of [system.mutations] of
    the configured database and the given table that are not killed, whose
    command starts with the command kind and matches the LIKE pattern
    [%<qualified name>%]; it returns None for no row, the Mutation of the
    row for one, and raises AssertionError for more.  When the database name
    has no backslash, every such row whose command contains the qualified
    name is selected; the pattern selects more than those, since each
    underscore of the name matches any one character. *)
Theorem find_existing_mutation_selects_by_pattern
    (self : PersonOverridesSnapshotDictionary) (table command_kind : string)
    (c : Client) :
  let found := existing_mutations self table command_kind (server c) in
  PersonOverridesSnapshotDictionary_find_existing_mutation self table command_kind c
  = (match found with
     | [] => Returned None
     | [r] => Returned (Some {| table := table;
                                mutation_id := SystemMutations.mutation_id r |})
     | _ => Raised AssertionError
     end,
     {| server := server c;
        journal := journal c ++ [find_existing_mutation_query self table command_kind] |})
  ∧ (∀ r, r ∈ found ↔
       r ∈ mutations (server c)
       ∧ SystemMutations.database r = CLICKHOUSE_DATABASE
       ∧ SystemMutations.table r = table
       ∧ String.prefix command_kind (SystemMutations.command r) = true
       ∧ like (SystemMutations.command r)
           ("%" +:+ PersonOverridesSnapshotDictionary_qualified_name self +:+ "%") = true
       ∧ SystemMutations.is_killed r = false)
  ∧ (no_backslash CLICKHOUSE_DATABASE = true →
     ∀ r, r ∈ mutations (server c) →
          names_dictionary self table command_kind r = true → r ∈ found).
Proof.
  intros found. split; [apply find_existing_mutation_eq|].
  assert (Hin : ∀ r, r ∈ found ↔
            r ∈ mutations (server c)
            ∧ is_existing_mutation self table command_kind r = true).
  { intros r. unfold found, existing_mutations. rewrite list_elem_of_filter. tauto. }
  split.
  - intros r. rewrite Hin. unfold is_existing_mutation.
    rewrite !andb_true_iff, negb_true_iff, !String.eqb_eq. tauto.
  - intros Hdb r Hr Hnames. apply Hin. split; [done|].
    unfold names_dictionary in Hnames. unfold is_existing_mutation.
    rewrite !andb_true_iff in *.
    destruct Hnames as ((((? & ?) & ?) & Hcontains) & ?).
    repeat split; try done.
    apply contains_like; [|done]. by apply qualified_name_no_backslash.
Qed.

(** *** The two enqueue methods *)

Lemma existing_mutations_journal (self : PersonOverridesSnapshotDictionary)
    (table command_kind : string) (s : Server) (j j' : list Query) :
  existing_mutations self table command_kind
    (server {| server := s; journal := j |})
  = existing_mutations self table command_kind
      (server {| server := s; journal := j' |}).
Proof. reflexivity. Qed.

Lemma enqueue_person_id_update_mutation_eq (self : PersonOverridesSnapshotDictionary) :
  PersonOverridesSnapshotDictionary_enqueue_person_id_update_mutation self
  = enqueue self EVENTS_DATA_TABLE "UPDATE" (person_id_update_command self).
Proof. reflexivity. Qed.

Lemma enqueue_overrides_delete_mutation_eq (self : PersonOverridesSnapshotDictionary) :
  PersonOverridesSnapshotDictionary_enqueue_overrides_delete_mutation self
  = enqueue self PERSON_DISTINCT_ID_OVERRIDES_TABLE "DELETE"
      (overrides_delete_command self).
Proof. reflexivity. Qed.

(** The statements of one enqueue: the lookup alone, or lookup, ALTER and
    lookup again. *)
Lemma enqueue_journal (self : PersonOverridesSnapshotDictionary)
    (table command_kind : string) (cmd : AlterCommand) (c : Client) :
  let find := find_existing_mutation_query self table command_kind in
  match existing_mutations self table command_kind (server c) with
  | [] =>
      journal (enqueue self table command_kind cmd c).2
      = journal c ++ [find; AlterTable CLICKHOUSE_DATABASE table cmd; find]
  | _ =>
      (enqueue self table command_kind cmd c).2
      = {| server := server c; journal := journal c ++ [find] |}
  end.
Proof.
  intros find. unfold enqueue, bind. rewrite find_existing_mutation_eq.
  destruct (existing_mutations self table command_kind (server c)) as [|r [|r' l]];
    try reflexivity.
  rewrite execute_eq. simpl. rewrite find_existing_mutation_eq. simpl.
  match goal with
  | |- context [existing_mutations ?a ?b ?d ?s] =>
      destruct (existing_mutations a b d s) as [|x [|y l']]
  end; simpl; rewrite <- !app_assoc; reflexivity.
Qed.

Lemma enqueue_statements (self : PersonOverridesSnapshotDictionary)
    (table command_kind : string) (cmd : AlterCommand) (c : Client) (q : Query) :
  q ∈ journal (enqueue self table command_kind cmd c).2 →
  q ∈ journal c
  ∨ q = find_existing_mutation_query self table command_kind
  ∨ q = AlterTable CLICKHOUSE_DATABASE table cmd.
Proof.
  pose proof (enqueue_journal self table command_kind cmd c) as Hj. simpl in Hj.
  destruct (existing_mutations self table command_kind (server c)) as [|r l].
  - rewrite Hj. intros [Hq|Hq]%elem_of_app; [by left|].
    apply list_elem_of_In in Hq. simpl in Hq. 
    destruct Hq as [<-|[<-|[<-|[]]]]; auto.
  - rewrite Hj. simpl. intros [Hq|Hq]%elem_of_app; [by left|].
    apply list_elem_of_singleton in Hq. auto.
Qed.

Lemma enqueue_returned (self : PersonOverridesSnapshotDictionary)
    (table command_kind : string) (cmd : AlterCommand) (c c1 : Client) (m : Mutation) :
  enqueue self table command_kind cmd c = (Returned m, c1) →
  ∃ r, existing_mutations self table command_kind (server c1) = [r]
       ∧ m = {| table := table; mutation_id := SystemMutations.mutation_id r |}.
Proof.
  unfold enqueue, bind. rewrite find_existing_mutation_eq.
  destruct (existing_mutations self table command_kind (server c))
    as [|r [|r' l]] eqn:E.
  - rewrite execute_eq. simpl. rewrite find_existing_mutation_eq. simpl.
    match goal with
    | |- context [existing_mutations ?a ?b ?d ?s] =>
        destruct (existing_mutations a b d s) as [|x [|y l']] eqn:E'
    end; simpl; try discriminate.
    intros [= <- <-]. simpl. by exists x.
  - simpl. intros [= <- <-]. simpl. by exists r.
  - discriminate.
Qed.

(** *** A first enqueue on a host without a matching mutation *)

Lemma string_app_assoc (a b c : string) : (a +:+ b) +:+ c = a +:+ b +:+ c.
Proof.
  induction a as [|x a IH]; [reflexivity|].
  change (String x ((a +:+ b) +:+ c) = String x (a +:+ b +:+ c)).
  f_equal. exact IH.
Qed.

Lemma prefix_self_app (needle rest : string) :
  String.prefix needle (needle +:+ rest) = true.
Proof.
  induction needle as [|c n IH]; [by destruct rest|].
  change (String c n +:+ rest) with (String c (n +:+ rest)). simpl.
  destruct (ascii_dec c c); [exact IH|done].
Qed.

Lemma contains_cons (c : ascii) (hay needle : string) :
  contains hay needle = true → contains (String c hay) needle = true.
Proof. intros H. rewrite contains_unfold, H. apply orb_true_r. Qed.

Lemma contains_intro (a needle b : string) :
  contains (a +:+ needle +:+ b) needle = true.
Proof.
  induction a as [|c a IH].
  - rewrite contains_unfold. change ("" +:+ needle +:+ b) with (needle +:+ b).
    by rewrite prefix_self_app.
  - apply contains_cons, IH.
Qed.

Lemma contains_app_l (a b needle : string) :
  contains a needle = true → contains (a +:+ b) needle = true.
Proof.
  intros (x & y & ->)%contains_app.
  rewrite !string_app_assoc. apply contains_intro.
Qed.

Lemma contains_app_r (a b needle : string) :
  contains b needle = true → contains (a +:+ b) needle = true.
Proof.
  intros (x & y & ->)%contains_app.
  rewrite <- string_app_assoc. apply contains_intro.
Qed.

Lemma contains_prefix (needle rest : string) :
  contains (needle +:+ rest) needle = true.
Proof. apply (contains_intro "" needle rest). Qed.

Lemma no_quote_app (a b : string) :
  no_quote (a +:+ b) = no_quote a && no_quote b.
Proof.
  induction a as [|c a IH]; [reflexivity|].
  change (String c a +:+ b) with (String c (a +:+ b)). simpl.
  rewrite IH. apply andb_assoc.
Qed.

Lemma hex_digit_no_quote (n : N) : Ascii.eqb (hex_digit n) "'" = false.
Proof.
  unfold hex_digit. generalize (N.to_nat n). intros k.
  do 17 (destruct k as [|k]; [reflexivity|]). reflexivity.
Qed.

Lemma hex_digits_no_quote (width : nat) (n : N) :
  no_quote (hex_digits width n) = true.
Proof.
  revert n. induction width as [|w IH]; intros n; [reflexivity|].
  simpl. rewrite no_quote_app, IH. simpl. by rewrite hex_digit_no_quote.
Qed.

Lemma qualified_name_no_quote (self : PersonOverridesSnapshotDictionary) :
  no_quote CLICKHOUSE_DATABASE = true →
  no_quote (PersonOverridesSnapshotDictionary_qualified_name self) = true.
Proof.
  intros H. unfold PersonOverridesSnapshotDictionary_qualified_name,
    PersonOverridesSnapshotDictionary_name, PersonOverridesSnapshotTable_name, hex.
  rewrite !no_quote_app, H, hex_digits_no_quote. reflexivity.
Qed.

Lemma escape_plain (s : string) :
  no_backslash s = true → no_quote s = true → escape s = s.
Proof.
  induction s as [|c s IH]; [reflexivity|]. simpl.
  intros [Hb Hs]%andb_true_iff [Hq Hs']%andb_true_iff.
  apply negb_true_iff in Hb, Hq. rewrite Hb, Hq. simpl. by rewrite IH.
Qed.

(** The server prints both commands with the dictionary's qualified name
    in them, so the lookup finds the mutation it has just registered. *)
Lemma update_command_names_dictionary (self : PersonOverridesSnapshotDictionary) :
  no_backslash CLICKHOUSE_DATABASE = true → no_quote CLICKHOUSE_DATABASE = true →
  contains (format_command (person_id_update_command self))
    (PersonOverridesSnapshotDictionary_qualified_name self) = true.
Proof.
  intros Hb Hq. unfold person_id_update_command, format_command.
  cbn [format_expr]. unfold quote at 1.
  rewrite (escape_plain (PersonOverridesSnapshotDictionary_qualified_name self))
    by (by apply qualified_name_no_backslash || by apply qualified_name_no_quote).
  do 3 apply contains_app_r. apply contains_app_l, contains_app_r, contains_app_l.
  apply contains_app_r, contains_prefix.
Qed.

Lemma delete_command_names_dictionary (self : PersonOverridesSnapshotDictionary) :
  no_backslash CLICKHOUSE_DATABASE = true → no_quote CLICKHOUSE_DATABASE = true →
  contains (format_command (overrides_delete_command self))
    (PersonOverridesSnapshotDictionary_qualified_name self) = true.
Proof.
  intros Hb Hq. unfold overrides_delete_command, format_command.
  cbn [format_expr]. unfold quote at 1.
  rewrite (escape_plain (PersonOverridesSnapshotDictionary_qualified_name self))
    by (by apply qualified_name_no_backslash || by apply qualified_name_no_quote).
  apply contains_app_r, contains_app_l, contains_app_r, contains_app_l, contains_app_l.
  apply contains_app_r, contains_app_l, contains_app_r, contains_prefix.
Qed.

Lemma new_mutation_is_found (self : PersonOverridesSnapshotDictionary)
    (table command_kind : string) (cmd : AlterCommand) (s : Server) :
  no_backslash CLICKHOUSE_DATABASE = true →
  String.prefix command_kind (format_command cmd) = true →
  contains (format_command cmd)
    (PersonOverridesSnapshotDictionary_qualified_name self) = true →
  is_existing_mutation self table command_kind
    (new_mutation CLICKHOUSE_DATABASE table cmd s) = true.
Proof.
  intros Hb Hkind Hname. unfold is_existing_mutation, new_mutation.
  cbn [SystemMutations.database SystemMutations.table SystemMutations.command
       SystemMutations.is_killed].
  rewrite !String.eqb_refl, Hkind.
  rewrite contains_like; [reflexivity| |done]. by apply qualified_name_no_backslash.
Qed.

(** On a host where the lookup finds nothing, an enqueue sends the ALTER,
    the server registers the mutation, and the second lookup finds it. *)
Lemma enqueue_fresh (self : PersonOverridesSnapshotDictionary)
    (table command_kind : string) (cmd : AlterCommand) (c : Client) :
  no_backslash CLICKHOUSE_DATABASE = true →
  String.prefix command_kind (format_command cmd) = true →
  contains (format_command cmd)
    (PersonOverridesSnapshotDictionary_qualified_name self) = true →
  existing_mutations self table command_kind (server c) = [] →
  let r := new_mutation CLICKHOUSE_DATABASE table cmd (server c) in
  let find := find_existing_mutation_query self table command_kind in
  enqueue self table command_kind cmd c
  = (Returned {| table := table; mutation_id := SystemMutations.mutation_id r |},
     {| server := add_mutation r (server c);
        journal := journal c ++ [find; AlterTable CLICKHOUSE_DATABASE table cmd; find] |})
  ∧ existing_mutations self table command_kind (add_mutation r (server c)) = [r].
Proof.
  intros Hb Hkind Hname Hnone r find.
  assert (Hnew : existing_mutations self table command_kind (add_mutation r (server c))
                 = [r]).
  { unfold existing_mutations in *. simpl. rewrite filter_cons, Hnone.
    rewrite decide_True; [reflexivity|]. by apply new_mutation_is_found. }
  split; [|exact Hnew].
  unfold enqueue, bind. rewrite find_existing_mutation_eq, Hnone.
  rewrite execute_eq. simpl. rewrite find_existing_mutation_eq. simpl.
  fold r. rewrite Hnew. simpl. rewrite <- !app_assoc. reflexivity.
Qed.


(** C1. The only ALTER that [enqueue_overrides_delete_mutation] sends is
    the DELETE on the overrides table with the condition of the source.
    Where the host has the job's dictionary, that mutation removes an
    override row exactly when the dictionary has an entry for the row's
    [(team_id, distinct_id)] whose version is at least the row's; a row
    whose key has no entry stays. *)
Theorem delete_mutation_removes_superseded_overrides
    (self : PersonOverridesSnapshotDictionary)
    (dicts : gmap string Dictionary) (d : Dictionary) (l : list Override.Row) :
  dicts !! PersonOverridesSnapshotDictionary_qualified_name self = Some d →
  (∀ c q,
     q ∈ journal
           (PersonOverridesSnapshotDictionary_enqueue_overrides_delete_mutation self c).2 →
     q ∈ journal c
     ∨ q = find_existing_mutation_query self PERSON_DISTINCT_ID_OVERRIDES_TABLE "DELETE"
     ∨ q = AlterTable CLICKHOUSE_DATABASE PERSON_DISTINCT_ID_OVERRIDES_TABLE
             (overrides_delete_command self))
  ∧ ∃ l',
      apply_command dicts (overrides_delete_command self) l = Some l'
      ∧ (∀ o, o ∈ l →
           (o ∉ l' ↔ ∃ p s, dict_data d !! Override.key o = Some (p, s)
                             ∧ s >= Override.version o))
      ∧ (∀ o, o ∈ l → dict_data d !! Override.key o = None → o ∈ l')
      ∧ (∀ o, o ∈ l' → o ∈ l).
Proof.
  intros Hd. split.
  - intros c q. rewrite enqueue_overrides_delete_mutation_eq.
    apply enqueue_statements.
  - by apply delete_command_effect.
Qed.

(** C3. When an enqueue method has returned a mutation, the host's metadata
    holds exactly one live mutation that the lookup selects, and calling the
    method again returns the same [(table, mutation_id)]: the second call
    sends the lookup query only and changes nothing on the host.  On a host
    whose metadata has no such mutation (and with a database name free of
    quotes and backslashes) the first call does return: it sends the ALTER
    once, between two lookups. *)
Theorem enqueue_twice_returns_the_same_mutation
    (self : PersonOverridesSnapshotDictionary) (c c1 : Client) (m : Mutation) :
  (PersonOverridesSnapshotDictionary_enqueue_person_id_update_mutation self c
     = (Returned m, c1) →
   length (existing_mutations self EVENTS_DATA_TABLE "UPDATE" (server c1)) = 1%nat
   ∧ PersonOverridesSnapshotDictionary_enqueue_person_id_update_mutation self c1
     = (Returned m,
        {| server := server c1;
           journal := journal c1
             ++ [find_existing_mutation_query self EVENTS_DATA_TABLE "UPDATE"] |}))
  ∧ (PersonOverridesSnapshotDictionary_enqueue_overrides_delete_mutation self c
       = (Returned m, c1) →
     length (existing_mutations self PERSON_DISTINCT_ID_OVERRIDES_TABLE "DELETE"
               (server c1)) = 1%nat
     ∧ PersonOverridesSnapshotDictionary_enqueue_overrides_delete_mutation self c1
       = (Returned m,
          {| server := server c1;
             journal := journal c1
               ++ [find_existing_mutation_query self
                     PERSON_DISTINCT_ID_OVERRIDES_TABLE "DELETE"] |}))
  ∧ (no_backslash CLICKHOUSE_DATABASE = true → no_quote CLICKHOUSE_DATABASE = true →
     existing_mutations self EVENTS_DATA_TABLE "UPDATE" (server c) = [] →
     ∃ m' c',
       PersonOverridesSnapshotDictionary_enqueue_person_id_update_mutation self c
         = (Returned m', c')
       ∧ journal c'
         = journal c
             ++ [find_existing_mutation_query self EVENTS_DATA_TABLE "UPDATE";
                 AlterTable CLICKHOUSE_DATABASE EVENTS_DATA_TABLE
                   (person_id_update_command self);
                 find_existing_mutation_query self EVENTS_DATA_TABLE "UPDATE"])
  ∧ (no_backslash CLICKHOUSE_DATABASE = true → no_quote CLICKHOUSE_DATABASE = true →
     existing_mutations self PERSON_DISTINCT_ID_OVERRIDES_TABLE "DELETE" (server c) = [] →
     ∃ m' c',
       PersonOverridesSnapshotDictionary_enqueue_overrides_delete_mutation self c
         = (Returned m', c')
       ∧ journal c'
         = journal c
             ++ [find_existing_mutation_query self
                   PERSON_DISTINCT_ID_OVERRIDES_TABLE "DELETE";
                 AlterTable CLICKHOUSE_DATABASE PERSON_DISTINCT_ID_OVERRIDES_TABLE
                   (overrides_delete_command self);
                 find_existing_mutation_query self
                   PERSON_DISTINCT_ID_OVERRIDES_TABLE "DELETE"]).
Proof.
  rewrite enqueue_person_id_update_mutation_eq, enqueue_overrides_delete_mutation_eq.
  split; [|split; [|split]].
  - intros Hfirst. apply enqueue_returned in Hfirst as (r & Hr & ->).
    split; [by rewrite Hr|].
    unfold enqueue, bind. rewrite find_existing_mutation_eq, Hr. reflexivity.
  - intros Hfirst. apply enqueue_returned in Hfirst as (r & Hr & ->).
    split; [by rewrite Hr|].
    unfold enqueue, bind. rewrite find_existing_mutation_eq, Hr. reflexivity.
  - intros Hb Hq Hnone.
    destruct (enqueue_fresh self EVENTS_DATA_TABLE "UPDATE"
                (person_id_update_command self) c Hb eq_refl
                (update_command_names_dictionary self Hb Hq) Hnone) as [Hcall _].
    eexists _, _. split; [exact Hcall|reflexivity].
  - intros Hb Hq Hnone.
    destruct (enqueue_fresh self PERSON_DISTINCT_ID_OVERRIDES_TABLE "DELETE"
                (overrides_delete_command self) c Hb eq_refl
                (delete_command_names_dictionary self Hb Hq) Hnone) as [Hcall _].
    eexists _, _. split; [exact Hcall|reflexivity].
Qed.

(** *** The UPDATE mutation *)

Lemma update_event_row (self : PersonOverridesSnapshotDictionary)
    (dicts : gmap string Dictionary) (d : Dictionary) (row : Event.Row)
    (team : Z) (distinct : string) :
  dicts !! PersonOverridesSnapshotDictionary_qualified_name self = Some d →
  row !! "team_id" = Some (VInt team) →
  row !! "distinct_id" = Some (VStr distinct) →
  is_Some (row !! "person_id") →
  mutate_row dicts (person_id_update_command self) row
  = Some [match dict_data d !! (team, distinct) with
          | Some entry => <["person_id" := VUUID entry.1]> row
          | None => row
          end].
Proof.
  intros Hd Hteam Hdistinct [old Hperson].
  unfold mutate_row, person_id_update_command, satisfies, eval_top.
  cbn. unfold Event.column. rewrite Hd, Hteam, Hdistinct. cbn.
  destruct (dict_data d !! (team, distinct)) as [[p v]|] eqn:He; cbn.
  - rewrite Hperson. reflexivity.
  - reflexivity.
Qed.

(** C8. The only ALTER that [enqueue_person_id_update_mutation] sends is
    the UPDATE of [person_id] on the events table with the value and the
    condition of the source.  Where the host has the job's dictionary, that
    mutation rewrites an event row exactly when the dictionary has the
    row's [(team_id, distinct_id)]: then [person_id] becomes the
    dictionary's value and every other column keeps its value; a row whose
    key is absent is left as it is. *)
Theorem update_mutation_rewrites_person_id
    (self : PersonOverridesSnapshotDictionary)
    (dicts : gmap string Dictionary) (d : Dictionary) (row : Event.Row)
    (team : Z) (distinct : string) :
  dicts !! PersonOverridesSnapshotDictionary_qualified_name self = Some d →
  row !! "team_id" = Some (VInt team) →
  row !! "distinct_id" = Some (VStr distinct) →
  is_Some (row !! "person_id") →
  (∀ c q,
     q ∈ journal
           (PersonOverridesSnapshotDictionary_enqueue_person_id_update_mutation self c).2 →
     q ∈ journal c
     ∨ q = find_existing_mutation_query self EVENTS_DATA_TABLE "UPDATE"
     ∨ q = AlterTable CLICKHOUSE_DATABASE EVENTS_DATA_TABLE
             (person_id_update_command self))
  ∧ ∃ row',
      mutate_row dicts (person_id_update_command self) row = Some [row']
      ∧ (∀ p v, dict_data d !! (team, distinct) = Some (p, v) →
           row' !! "person_id" = Some (VUUID p)
           ∧ ∀ col, col ≠ "person_id" → row' !! col = row !! col)
      ∧ (dict_data d !! (team, distinct) = None → row' = row).
Proof.
  intros Hd Hteam Hdistinct Hperson. split.
  { intros c q. rewrite enqueue_person_id_update_mutation_eq.
    apply enqueue_statements. }
  eexists. split; [by eapply update_event_row|].
  split.
  - intros p v He. rewrite He. simpl. split.
    + apply lookup_insert_eq.
    + intros col Hcol. by apply lookup_insert_ne.
  - intros He. by rewrite He.
Qed.

(** *** Loading the dictionary *)

(** C10. Where the host has no dictionary of the job's name, the status
    poll raises "dictionary does not exist" at once, so the waiting loop
    stops at its first poll without sleeping, and [load] raises instead of
    waiting. *)
Theorem load_fails_without_dictionary
    (self : PersonOverridesSnapshotDictionary) (c : Client) :
  dictionaries (server c) !! PersonOverridesSnapshotDictionary_qualified_name self
    = None →
  let polled :=
    {| server := server c;
       journal := journal c
         ++ [SelectStatus CLICKHOUSE_DATABASE
               (PersonOverridesSnapshotDictionary_name self)] |} in
  PersonOverridesSnapshotDictionary_is_loaded self c
    = (Raised (Exception "dictionary does not exist"), polled)
  ∧ (∀ polls, wait_until_loaded (S polls) self c
              = (Raised (Exception "dictionary does not exist"), polled))
  ∧ (∀ polls, ∃ e c',
       PersonOverridesSnapshotDictionary_load polls self c = (Raised e, c')).
Proof.
  intros Hnone polled.
  assert (Hpoll : PersonOverridesSnapshotDictionary_is_loaded self c
                  = (Raised (Exception "dictionary does not exist"), polled)).
  { unfold PersonOverridesSnapshotDictionary_is_loaded, bind.
    rewrite execute_eq. simpl. unfold qualify.
    fold (PersonOverridesSnapshotDictionary_qualified_name self).
    rewrite Hnone. reflexivity. }
  split; [exact Hpoll|]. split.
  - intros polls. simpl. unfold bind. rewrite Hpoll. reflexivity.
  - intros polls. unfold PersonOverridesSnapshotDictionary_load, bind.
    rewrite execute_eq. simpl. rewrite Hnone. simpl. eauto.
Qed.

(** *** Which statements a call sends *)

Lemma forallb_app_true {X} (P : X → bool) (a b : list X) :
  forallb P a = true → forallb P b = true → forallb P (a ++ b) = true.
Proof. intros Ha Hb. rewrite forallb_app, Ha, Hb. reflexivity. Qed.

Lemma issues_ret {A} (P : Query → bool) (a : A) : issues P (ret a).
Proof. intros c. exists []. by rewrite app_nil_r. Qed.

Lemma issues_raise {A} (P : Query → bool) (e : PyError) : issues P (@raise _ A e).
Proof. intros c. exists []. by rewrite app_nil_r. Qed.

Lemma issues_pending {A} (P : Query → bool) : issues P (@pending _ A).
Proof. intros c. exists []. by rewrite app_nil_r. Qed.

Lemma issues_bind {A B} (P : Query → bool) (m : M Client A) (k : A → M Client B) :
  issues P m → (∀ a, issues P (k a)) → issues P (bind m k).
Proof.
  intros Hm Hk c. destruct (Hm c) as (qs & Hj & Hqs). unfold bind.
  destruct (m c) as [[a|e|] c1]; simpl in *; try by exists qs.
  destruct (Hk a c1) as (qs' & Hj' & Hqs'). exists (qs ++ qs').
  rewrite Hj', Hj, app_assoc. split; [done|]. by apply forallb_app_true.
Qed.

Lemma issues_execute (P : Query → bool) (q : Query) :
  P q = true → issues P (execute q).
Proof.
  intros Hq c. exists [q]. rewrite execute_eq. simpl. by rewrite Hq.
Qed.

Lemma issues_sleep (P : Query → bool) (seconds : Z) : issues P (sleep seconds).
Proof. intros c. exists []. by rewrite app_nil_r. Qed.

Lemma issues_assert (P : Query → bool) (cond : bool) : issues P (assert cond).
Proof. destruct cond; [apply issues_ret|apply issues_raise]. Qed.

Lemma issues_unpack1 (P : Query → bool) (results : list (list Value)) :
  issues P (unpack1 results).
Proof.
  destruct results as [|[|x [|y r]] [|r' l]];
    first [apply issues_ret|apply issues_raise].
Qed.

Lemma issues_unpack2 (P : Query → bool) (results : list (list Value)) :
  issues P (unpack2 results).
Proof.
  destruct results as [|[|x [|y [|z r]]] [|r' l]];
    first [apply issues_ret|apply issues_raise].
Qed.

Create HintDb issues.
#[local] Hint Resolve issues_ret issues_raise issues_pending issues_sleep
  issues_assert issues_unpack1 issues_unpack2 : issues.

Ltac issues_step :=
  first
    [ apply issues_bind; [|intros]
    | apply issues_execute; reflexivity
    | solve [auto with issues] ].

Lemma issues_table_create (self : PersonOverridesSnapshotTable) :
  issues (allowed Op_create_snapshot_table) (PersonOverridesSnapshotTable_create self).
Proof. unfold PersonOverridesSnapshotTable_create. repeat issues_step. Qed.

Lemma issues_table_drop (self : PersonOverridesSnapshotTable) :
  issues (allowed Op_drop_snapshot_table) (PersonOverridesSnapshotTable_drop self).
Proof. unfold PersonOverridesSnapshotTable_drop. repeat issues_step. Qed.

Lemma issues_table_populate (self : PersonOverridesSnapshotTable) :
  issues (allowed Op_populate_snapshot_table)
    (PersonOverridesSnapshotTable_populate self).
Proof. unfold PersonOverridesSnapshotTable_populate. repeat issues_step. Qed.

Lemma issues_table_sync (self : PersonOverridesSnapshotTable) :
  issues (allowed Op_wait_for_snapshot_table_replication)
    (PersonOverridesSnapshotTable_sync self).
Proof. unfold PersonOverridesSnapshotTable_sync. repeat issues_step. Qed.

Lemma issues_dictionary_create (self : PersonOverridesSnapshotDictionary)
    (shards max_execution_time : Z) :
  issues (allowed Op_create_snapshot_dictionary)
    (PersonOverridesSnapshotDictionary_create self shards max_execution_time).
Proof. unfold PersonOverridesSnapshotDictionary_create. repeat issues_step. Qed.

Lemma issues_dictionary_drop (self : PersonOverridesSnapshotDictionary) :
  issues (allowed Op_drop_snapshot_dictionary)
    (PersonOverridesSnapshotDictionary_drop self).
Proof. unfold PersonOverridesSnapshotDictionary_drop. repeat issues_step. Qed.

Lemma issues_is_loaded (self : PersonOverridesSnapshotDictionary) :
  issues (allowed Op_load_and_verify_snapshot_dictionary)
    (PersonOverridesSnapshotDictionary_is_loaded self).
Proof.
  unfold PersonOverridesSnapshotDictionary_is_loaded.
  apply issues_bind; [apply issues_execute; reflexivity|]. intros results.
  destruct results; [apply issues_raise|].
  apply issues_bind; [apply issues_unpack2|]. intros [status last_exception].
  repeat match goal with |- issues _ (if ?b then _ else _) => destruct b end;
    auto with issues.
Qed.

Lemma issues_wait_until_loaded (polls : nat) (self : PersonOverridesSnapshotDictionary) :
  issues (allowed Op_load_and_verify_snapshot_dictionary) (wait_until_loaded polls self).
Proof.
  induction polls as [|n IH]; simpl; [apply issues_pending|].
  apply issues_bind; [apply issues_is_loaded|]. intros [|]; [apply issues_ret|].
  apply issues_bind; [apply issues_sleep|]. intros _. exact IH.
Qed.

Lemma issues_load (polls : nat) (self : PersonOverridesSnapshotDictionary) :
  issues (allowed Op_load_and_verify_snapshot_dictionary)
    (PersonOverridesSnapshotDictionary_load polls self).
Proof.
  unfold PersonOverridesSnapshotDictionary_load.
  apply issues_bind; [apply issues_execute; reflexivity|]. intros _.
  apply issues_bind; [apply issues_wait_until_loaded|]. intros _.
  repeat issues_step.
Qed.

Lemma issues_is_done (P : Query → bool) (self : Mutation) :
  (∀ col cond, P (SelectFromSystemMutations col cond) = true) →
  issues P (Mutation_is_done self).
Proof.
  intros HP. unfold Mutation_is_done.
  apply issues_bind; [apply issues_execute, HP|]. intros. apply issues_unpack1.
Qed.

Lemma issues_wait (P : Query → bool) (polls : nat) (self : Mutation) :
  (∀ col cond, P (SelectFromSystemMutations col cond) = true) →
  issues P (Mutation_wait polls self).
Proof.
  intros HP. induction polls as [|n IH]; simpl; [apply issues_pending|].
  apply issues_bind; [by apply issues_is_done|]. intros done.
  destruct (py_bool done); [apply issues_ret|].
  apply issues_bind; [apply issues_sleep|]. intros _. exact IH.
Qed.

Lemma issues_find_existing_mutation (P : Query → bool)
    (self : PersonOverridesSnapshotDictionary) (table command_kind : string) :
  (∀ col cond, P (SelectFromSystemMutations col cond) = true) →
  issues P (PersonOverridesSnapshotDictionary_find_existing_mutation
              self table command_kind).
Proof.
  intros HP. unfold PersonOverridesSnapshotDictionary_find_existing_mutation.
  apply issues_bind; [apply issues_execute, HP|]. intros results.
  destruct results; [apply issues_ret|]. repeat issues_step.
Qed.

Lemma issues_enqueue (P : Query → bool)
    (self : PersonOverridesSnapshotDictionary) (table command_kind : string)
    (cmd : AlterCommand) :
  (∀ col cond, P (SelectFromSystemMutations col cond) = true) →
  P (AlterTable CLICKHOUSE_DATABASE table cmd) = true →
  issues P (enqueue self table command_kind cmd).
Proof.
  intros HP Hcmd. unfold enqueue.
  apply issues_bind; [by apply issues_find_existing_mutation|]. intros [m|].
  - apply issues_ret.
  - apply issues_bind; [by apply issues_execute|]. intros _.
    apply issues_bind; [by apply issues_find_existing_mutation|]. intros [m|];
      repeat issues_step.
Qed.

(** *** Which statements an op sends *)

Lemma sends_ret {A} (P : Query → bool) (a : A) : sends P (ret a).
Proof. intros cl. exists []. by rewrite app_nil_r. Qed.

Lemma sends_raise {A} (P : Query → bool) (e : PyError) : sends P (@raise _ A e).
Proof. intros cl. exists []. by rewrite app_nil_r. Qed.

Lemma sends_pending {A} (P : Query → bool) : sends P (@pending _ A).
Proof. intros cl. exists []. by rewrite app_nil_r. Qed.

Lemma sends_assert (P : Query → bool) (cond : bool) : sends P (assert cond).
Proof. destruct cond; [apply sends_ret|apply sends_raise]. Qed.

Lemma sends_bind {A B} (P : Query → bool) (m : M Cluster A) (k : A → M Cluster B) :
  sends P m → (∀ a, sends P (k a)) → sends P (bind m k).
Proof.
  intros Hm Hk cl. destruct (Hm cl) as (evs & Hl & Hevs). unfold bind.
  destruct (m cl) as [[a|e|] cl1]; simpl in *; try by exists evs.
  destruct (Hk a cl1) as (evs' & Hl' & Hevs'). exists (evs ++ evs').
  rewrite Hl', Hl, app_assoc. split; [done|]. by apply forallb_app_true.
Qed.

Lemma visit_sends {A} (P : Query → bool) (pick : HostInfo → bool) (fn : M Client A)
    (l : list (HostInfo * Server)) :
  issues P fn → forallb (is_sent P) (visit pick fn l).2 = true.
Proof.
  intros Hfn. induction l as [|[h s] l IH]; [reflexivity|]. simpl.
  destruct (visit pick fn l) as [[outs l'] evs]. simpl in IH.
  destruct (pick h); [|exact IH].
  destruct (Hfn {| server := s; journal := [] |}) as (qs & Hj & Hqs).
  destruct (fn {| server := s; journal := [] |}) as [o c]. simpl in *. subst.
  apply forallb_app_true; [|exact IH].
  rewrite forallb_forall in *. intros e He.
  apply in_map_iff in He as (q & <- & Hq). simpl. by apply Hqs.
Qed.

Lemma sends_submit {A} (P : Query → bool) (pick : list HostInfo → HostInfo → bool)
    (fn : M Client A) :
  issues P fn → sends P (submit pick fn).
Proof.
  intros Hfn cl. unfold submit.
  pose proof (visit_sends P (pick (hosts cl)) fn (nodes cl) Hfn) as Hv.
  destruct (visit (pick (hosts cl)) fn (nodes cl)) as [[outs l] evs].
  by exists evs.
Qed.

Lemma sends_merge {A} (P : Query → bool) (x y : FutureList A) :
  sends P x → sends P y → sends P (merge x y).
Proof.
  intros Hx Hy. unfold merge. apply sends_bind; [done|]. intros rx.
  apply sends_bind; [done|]. intros ry. apply sends_ret.
Qed.

Lemma sends_fold_merge {A} (P : Query → bool) (rest : list (FutureList A))
    (x : FutureList A) :
  sends P x → Forall (sends P) rest → sends P (fold_left merge rest x).
Proof.
  revert x. induction rest as [|y rest IH]; intros x Hx Hrest; [done|].
  simpl. apply Forall_cons in Hrest as [Hy Hrest].
  apply IH; [by apply sends_merge|done].
Qed.

Lemma sends_result {A} (P : Query → bool) (futures : FutureList A) :
  sends P futures → sends P (result futures).
Proof.
  intros H. unfold result. apply sends_bind; [done|]. intros outs.
  destruct (collect outs) as [[values|errors]|];
    [apply sends_ret|apply sends_raise|apply sends_pending].
Qed.

Lemma sends_result_any {A} (P : Query → bool) (future : FutureList A) :
  sends P future → sends P (result_any future).
Proof.
  intros H. unfold result_any. apply sends_bind; [by apply sends_result|].
  intros [|[h a] values]; [apply sends_raise|apply sends_ret].
Qed.

Ltac sends_step :=
  first
    [ apply sends_ret | apply sends_raise | apply sends_assert
    | apply sends_result_any | apply sends_result | apply sends_submit
    | apply sends_bind; [|intros] ].

Lemma sends_wait_for_person_id_update_mutations (polls : nat)
    (inputs : PersonOverridesSnapshotDictionary * gmap Z Mutation) :
  sends (allowed Op_wait_for_person_id_update_mutations)
    (wait_for_person_id_update_mutations polls inputs).
Proof.
  destruct inputs as [dictionary shard_mutations].
  unfold wait_for_person_id_update_mutations.
  assert (Hall : Forall (sends (allowed Op_wait_for_person_id_update_mutations))
            ((λ sm : Z * Mutation,
                map_all_hosts_in_shard sm.1 (Mutation_wait polls sm.2))
               <$> map_to_list shard_mutations)).
  { apply Forall_fmap, Forall_forall. intros [shard mutation] _. simpl.
    apply sends_submit, issues_wait. reflexivity. }
  destruct (_ <$> map_to_list shard_mutations) as [|x rest].
  - apply (sends_raise _ TypeError).
  - apply Forall_cons in Hall as [Hx Hrest].
    change (sends (allowed Op_wait_for_person_id_update_mutations)
              (result (fold_left merge rest x) ;; ret dictionary)).
    apply sends_bind; [|intros; apply sends_ret].
    by apply sends_result, sends_fold_merge.
Qed.

Lemma sends_compute (run : Run) (op : Op) (args : list Output) :
  sends (allowed op) (compute run op args).
Proof.
  destruct op, args as [|[] [|]]; simpl; try apply sends_raise.
  - unfold create_snapshot_table. repeat sends_step. apply issues_table_create.
  - unfold populate_snapshot_table. repeat sends_step. apply issues_table_populate.
  - unfold wait_for_snapshot_table_replication. repeat sends_step.
    apply issues_table_sync.
  - unfold create_snapshot_dictionary. repeat sends_step.
    apply issues_dictionary_create.
  - unfold load_and_verify_snapshot_dictionary. repeat sends_step.
    apply issues_load.
  - unfold start_person_id_update_mutations. repeat sends_step.
    rewrite enqueue_person_id_update_mutation_eq. by apply issues_enqueue.
  - apply sends_bind; [apply sends_wait_for_person_id_update_mutations|].
    intros. apply sends_ret.
  - unfold start_overrides_delete_mutations. repeat sends_step.
    rewrite enqueue_overrides_delete_mutation_eq. by apply issues_enqueue.
  - unfold wait_for_overrides_delete_mutations. destruct inputs as [d m].
    repeat sends_step. by apply issues_wait.
  - unfold drop_snapshot_dictionary. repeat sends_step.
    apply issues_dictionary_drop.
  - unfold drop_snapshot_table. repeat sends_step. apply issues_table_drop.
Qed.

(** *** The run as a word of the state machine *)

Lemma accepts_app (s : Stage) (a b : list Event) :
  accepts s (a ++ b) = accepts s a ≫= λ s', accepts s' b.
Proof.
  revert s. induction a as [|e a IH]; intros s; [reflexivity|].
  simpl. destruct (step s e) as [s'|]; simpl; [apply IH|reflexivity].
Qed.

Lemma accepts_sent (k : nat) (op : Op) (evs : list Event) :
  pipeline !! k = Some op →
  forallb (is_sent (allowed op)) evs = true →
  accepts (Running k) evs = Some (Running k).
Proof.
  intros Hk. induction evs as [|e evs IH]; [reflexivity|].
  simpl. intros H. apply andb_true_iff in H as [He Hevs].
  destruct e as [| |h q]; try discriminate. simpl in *.
  rewrite Hk. simpl. rewrite He. by apply IH.
Qed.

Lemma stage_accepted (run : Run) (op : Op) (args : list Output) (k : nat)
    (cl : Cluster) :
  pipeline !! k = Some op →
  ∃ evs,
    log (stage run op args cl).2 = log cl ++ evs
    ∧ accepts (Idle k) evs
      = Some match (stage run op args cl).1 with
             | Returned _ => Idle (S k)
             | _ => Running k
             end.
Proof.
  intros Hk. unfold stage, bind, record. simpl.
  destruct (sends_compute run op args {| nodes := nodes cl; log := log cl ++ [OpStarted op] |})
    as (evs & Hlog & Hevs).
  pose proof (accepts_sent k op evs Hk Hevs) as Hacc.
  destruct (compute run op args _) as [[out|e|] cl1]; simpl in *.
  - exists (OpStarted op :: evs ++ [OpFinished op]). split.
    + rewrite Hlog, <- !app_assoc. reflexivity.
    + simpl. rewrite decide_True by done. simpl.
      rewrite accepts_app, Hacc. simpl. by rewrite decide_True.
  - exists (OpStarted op :: evs). split.
    + rewrite Hlog, <- !app_assoc. reflexivity.
    + simpl. rewrite decide_True by done. exact Hacc.
  - exists (OpStarted op :: evs). split.
    + rewrite Hlog, <- !app_assoc. reflexivity.
    + simpl. rewrite decide_True by done. exact Hacc.
Qed.

Lemma reaches_ext {A} (k : nat) (m m' : M Cluster A) :
  (∀ cl, m cl = m' cl) → reaches k m → reaches k m'.
Proof. intros Heq Hm cl. rewrite <- Heq. apply Hm. Qed.

Lemma reaches_first (run : Run) (op : Op) :
  pipeline !! 0%nat = Some op → reaches 1 (stage run op []).
Proof.
  intros Hop cl. destruct (stage_accepted run op [] 0 cl Hop) as (evs & Hlog & Hacc).
  exists evs. eexists. split; [done|]. split; [done|].
  destruct (stage run op [] cl).1; eauto.
Qed.

Lemma reaches_next {A} (run : Run) (op : Op) (k : nat) (m : M Cluster A)
    (args : A → list Output) :
  pipeline !! k = Some op →
  reaches k m →
  reaches (S k) (x <- m ;; stage run op (args x)).
Proof.
  intros Hop Hm cl. destruct (Hm cl) as (evs & s & Hlog & Hacc & Hs).
  unfold bind. destruct (m cl) as [[x|e|] cl1]; simpl in *.
  - subst s.
    destruct (stage_accepted run op (args x) k cl1 Hop) as (evs' & Hlog' & Hacc').
    exists (evs ++ evs'). eexists. split; [by rewrite Hlog', Hlog, app_assoc|].
    split; [by rewrite accepts_app, Hacc|].
    destruct (stage run op (args x) cl1).1; eauto.
  - destruct Hs as (j & Hj & ->). exists evs, (Running j).
    repeat split; try done. exists j. split; [lia|done].
  - destruct Hs as (j & Hj & ->). exists evs, (Running j).
    repeat split; try done. exists j. split; [lia|done].
Qed.

Lemma execute_job_leaf (run : Run) (op : Op) (cl : Cluster) :
  execute_job run (Invoke op []) cl = stage run op [] cl.
Proof. reflexivity. Qed.

Lemma execute_job_unary (run : Run) (op : Op) (i : Invocation) (cl : Cluster) :
  execute_job run (Invoke op [i]) cl
  = (x <- execute_job run i ;; stage run op [x]) cl.
Proof.
  simpl. unfold bind. destruct (execute_job run i cl) as [[x|e|] cl1]; reflexivity.
Qed.

Lemma squash_person_overrides_reaches (run : Run) :
  reaches 11 (execute_job run squash_person_overrides).
Proof.
  unfold squash_person_overrides, dictionary_after_override_delete_mutations,
    dictionary_after_person_id_update_mutations, prepared_dictionary,
    created_snapshot_dictionary, prepared_snapshot_table.
  repeat (eapply reaches_ext; [intros cl; symmetry; apply execute_job_unary|];
          apply (reaches_next run _ _ _ (λ x, [x])); [reflexivity|]).
  eapply reaches_ext; [intros cl; symmetry; apply execute_job_leaf|].
  by apply reaches_first.
Qed.

Lemma accepts_finished (s s' : Stage) (evs : list Event) :
  accepts s evs = Some s' →
  (finished_ops s <= finished_ops s')%nat
  ∧ ∀ j op, (finished_ops s <= j < finished_ops s')%nat →
            pipeline !! j = Some op → OpFinished op ∈ evs.
Proof.
  revert s. induction evs as [|e evs IH]; intros s; simpl.
  - intros [= ->]. split; [lia|]. intros j op Hj. lia.
  - destruct (step s e) as [s1|] eqn:Hstep; simpl; [|discriminate].
    intros Hacc. destruct (IH s1 Hacc) as [Hle Hfin].
    assert (Hs1 : finished_ops s1 = finished_ops s
                  ∨ (finished_ops s1 = S (finished_ops s)
                     ∧ ∃ op, pipeline !! finished_ops s = Some op ∧ e = OpFinished op)).
    { destruct s as [k|k], e as [op|op|h q]; simpl in Hstep; try discriminate.
      - case_decide; [|discriminate]. injection Hstep as <-. by left.
      - case_decide; [|discriminate]. injection Hstep as <-. right. eauto.
      - destruct (pipeline !! k) as [op|]; simpl in Hstep; [|discriminate].
        destruct (allowed op q); [|discriminate]. injection Hstep as <-. by left. }
    destruct Hs1 as [Heq|(Heq & op' & Hop' & ->)].
    + split; [lia|]. intros j op Hj Hop. apply list_elem_of_further, (Hfin j); [lia|done].
    + split; [lia|]. intros j op Hj Hop.
      destruct (decide (j = finished_ops s)) as [->|Hne].
      * rewrite Hop' in Hop. injection Hop as <-. apply list_elem_of_here.
      * apply list_elem_of_further, (Hfin j); [lia|done].
Qed.

Lemma accepts_at (s : Stage) (evs : list Event) (i : nat) (e : Event) :
  accepts (Idle 0) evs = Some s → evs !! i = Some e →
  ∃ s1 s2, accepts (Idle 0) (take i evs) = Some s1 ∧ step s1 e = Some s2.
Proof.
  intros Hacc He. rewrite <- (take_drop_middle evs i e He), accepts_app in Hacc.
  destruct (accepts (Idle 0) (take i evs)) as [s1|]; simpl in Hacc; [|discriminate].
  destruct (step s1 e) as [s2|] eqn:Hstep; simpl in Hacc; [|discriminate]. eauto.
Qed.

Lemma pipeline_index (k : nat) (op : Op) :
  pipeline !! k = Some op → pipeline !! k = Some op ∧ (k < 11)%nat.
Proof. intros H. split; [done|]. apply lookup_lt_Some in H. simpl in H. lia. Qed.

(** A statement is sent only while an op that may send it is running, and
    every earlier op of the pipeline has finished by then. *)
Lemma sent_while_running (s : Stage) (evs : list Event) (i : nat)
    (h : HostInfo) (q : Query) :
  accepts (Idle 0) evs = Some s → evs !! i = Some (Sent h q) →
  ∃ k op, pipeline !! k = Some op ∧ allowed op q = true
          ∧ ∀ j up, (j < k)%nat → pipeline !! j = Some up →
                    OpFinished up ∈ take i evs.
Proof.
  intros Hacc He. destruct (accepts_at s evs i _ Hacc He) as (s1 & s2 & Hs1 & Hstep).
  destruct s1 as [k|k]; simpl in Hstep; [discriminate|].
  destruct (pipeline !! k) as [op|] eqn:Hop; simpl in Hstep; [|discriminate].
  destruct (allowed op q) eqn:Hq; [|discriminate].
  exists k, op. repeat split; try done.
  intros j up Hj Hup. destruct (accepts_finished _ _ _ Hs1) as [_ Hfin].
  apply (Hfin j); [simpl; lia|done].
Qed.

(** An op starts only when every earlier op of the pipeline has finished. *)
Lemma started_after_upstream (s : Stage) (evs : list Event) (i : nat) (op : Op) :
  accepts (Idle 0) evs = Some s → evs !! i = Some (OpStarted op) →
  ∃ k, pipeline !! k = Some op
       ∧ ∀ j up, (j < k)%nat → pipeline !! j = Some up →
                 OpFinished up ∈ take i evs.
Proof.
  intros Hacc He. destruct (accepts_at s evs i _ Hacc He) as (s1 & s2 & Hs1 & Hstep).
  destruct s1 as [k|k]; simpl in Hstep; [|discriminate].
  case_decide as Hop; [|discriminate].
  exists k. split; [done|].
  intros j up Hj Hup. destruct (accepts_finished _ _ _ Hs1) as [_ Hfin].
  apply (Hfin j); [simpl; lia|done].
Qed.

(** *** The job graph *)

Lemma runnable_next (k : nat) (op : Op) :
  runnable squash_person_overrides (take k pipeline) op = true →
  pipeline !! k = Some op.
Proof.
  intros H.
  do 12 (destruct k as [|k];
         [destruct op; vm_compute in H; first [discriminate|reflexivity]|]).
  destruct op; vm_compute in H; discriminate.
Qed.

Lemma prefix_is_take (l p : list Op) : l `prefix_of` p → l = take (length l) p.
Proof. intros [t ->]. by rewrite take_app_length. Qed.

Lemma schedule_is_prefix (order : list Op) :
  schedule squash_person_overrides order → order `prefix_of` pipeline.
Proof.
  induction order as [|op order IH] using rev_ind; intros Hs.
  - apply prefix_nil.
  - assert (Horder : order `prefix_of` pipeline).
    { apply IH. intros i o Hi.
      pose proof (lookup_lt_Some _ _ _ Hi) as Hlt.
      specialize (Hs i o). rewrite lookup_app_l in Hs by done.
      rewrite take_app_le in Hs by lia. by apply Hs. }
    specialize (Hs (length order) op).
    rewrite lookup_app_r, Nat.sub_diag in Hs by lia.
    specialize (Hs eq_refl). rewrite take_app_length in Hs.
    pose proof (prefix_is_take _ _ Horder) as Htake.
    rewrite Htake in Hs. apply runnable_next in Hs.
    exists (drop (S (length order)) pipeline).
    rewrite <- (take_drop_middle pipeline (length order) op Hs) at 1.
    rewrite <- Htake, <- app_assoc. reflexivity.
Qed.

Lemma index_of_start_overrides_delete (k : nat) :
  pipeline !! k = Some Op_start_overrides_delete_mutations → k = 7%nat.
Proof.
  intros H. do 12 (destruct k as [|k]; [first [discriminate|reflexivity]|]).
  discriminate.
Qed.

(** *** What the fan-out does to the hosts *)

Lemma visit_nodes {A} (pick : HostInfo → bool) (fn : M Client A)
    (l : list (HostInfo * Server)) :
  (visit pick fn l).1.2
  = (λ hs, if pick hs.1 then (hs.1, task_server fn hs.2) else hs) <$> l.
Proof.
  induction l as [|[h s] l IH]; [reflexivity|]. simpl.
  unfold task_server. destruct (visit pick fn l) as [[outs l'] evs]. simpl in IH.
  destruct (pick h); [destruct (fn _) as [o c]|]; simpl; by rewrite IH.
Qed.

Lemma visit_outs {A} (pick : HostInfo → bool) (fn : M Client A)
    (l : list (HostInfo * Server)) :
  (visit pick fn l).1.1
  = (λ hs, (hs.1, task_outcome fn hs.2)) <$> filter (λ hs, pick hs.1 = true) l.
Proof.
  induction l as [|[h s] l IH]; [reflexivity|]. simpl.
  unfold task_outcome. destruct (visit pick fn l) as [[outs l'] evs]. simpl in IH.
  rewrite filter_cons. simpl.
  destruct (pick h); simpl.
  - destruct (fn _) as [o c]. simpl. by rewrite IH.
  - exact IH.
Qed.

Lemma submit_eq {A} (pick : list HostInfo → HostInfo → bool) (fn : M Client A)
    (cl : Cluster) :
  ∃ evs,
    submit pick fn cl
    = (Returned ((λ hs, (hs.1, task_outcome fn hs.2))
                   <$> filter (λ hs, pick (hosts cl) hs.1 = true) (nodes cl)),
       {| nodes := (λ hs, if pick (hosts cl) hs.1
                          then (hs.1, task_server fn hs.2) else hs) <$> nodes cl;
          log := log cl ++ evs |}).
Proof.
  unfold submit.
  pose proof (visit_nodes (pick (hosts cl)) fn (nodes cl)) as Hn.
  pose proof (visit_outs (pick (hosts cl)) fn (nodes cl)) as Ho.
  destruct (visit (pick (hosts cl)) fn (nodes cl)) as [[outs l] evs].
  simpl in *. subst. by exists evs.
Qed.

Lemma hosts_preserved (g : HostInfo * Server → HostInfo * Server)
    (l : list (HostInfo * Server)) :
  (∀ hs, (g hs).1 = hs.1) → (g <$> l).*1 = l.*1.
Proof.
  intros Hg. rewrite <- list_fmap_compose. apply list_fmap_ext.
  intros _ hs _. apply Hg.
Qed.

Ltac hosts_preserved :=
  unfold hosts; simpl; apply hosts_preserved; intros [? ?]; simpl;
  by match goal with |- context [if ?b then _ else _] => destruct b end.

Lemma collect_values {A} (outs : list (HostInfo * Outcome A))
    (values : list (HostInfo * A)) :
  collect outs = Some (inl values) →
  outs = (λ ha, (ha.1, Returned ha.2)) <$> values.
Proof.
  revert values. induction outs as [|[h o] outs IH]; intros values; simpl.
  - by intros [= <-].
  - destruct (collect outs) as [[vs|es]|]; simpl; [| |discriminate].
    + destruct o; try discriminate. intros [= <-]. simpl. by rewrite (IH vs).
    + destruct o; discriminate.
Qed.

Lemma result_returned {A} (futures : FutureList A) (cl cl' : Cluster)
    (values : list (HostInfo * A)) :
  result futures cl = (Returned values, cl') →
  futures cl = (Returned ((λ ha, (ha.1, Returned ha.2)) <$> values), cl').
Proof.
  unfold result, bind. destruct (futures cl) as [[outs|e|] cl1]; try discriminate.
  destruct (collect outs) as [[vs|es]|] eqn:Hc; try discriminate.
  intros [= <- <-]. by rewrite (collect_values _ _ Hc).
Qed.

(** *** Every shard gets its update mutation *)

Lemma first_of_shard (all : list HostInfo) (h : HostInfo) :
  h ∈ all →
  ∃ h0, h0 ∈ all ∧ shard_num h0 = shard_num h
        ∧ head (filter (λ h', shard_num h' = shard_num h0) all) = Some h0.
Proof.
  intros Hin.
  destruct (filter (λ h', shard_num h' = shard_num h) all) as [|h0 rest] eqn:Hf.
  - assert (h ∈ filter (λ h', shard_num h' = shard_num h) all)
      by (by apply list_elem_of_filter).
    rewrite Hf in H. by apply not_elem_of_nil in H.
  - assert (Hh0 : h0 ∈ filter (λ h', shard_num h' = shard_num h) all)
      by (rewrite Hf; apply list_elem_of_here).
    apply list_elem_of_filter in Hh0 as [Hshard Hall].
    exists h0. repeat split; try done. rewrite Hshard, Hf. reflexivity.
Qed.

Lemma start_person_id_update_mutations_covers
    (dictionary dictionary' : PersonOverridesSnapshotDictionary)
    (shard_mutations : gmap Z Mutation) (cl cl' : Cluster) :
  start_person_id_update_mutations dictionary cl
    = (Returned (dictionary', shard_mutations), cl') →
  hosts cl' = hosts cl
  ∧ ∀ h, h ∈ hosts cl → is_Some (shard_mutations !! shard_num h).
Proof.
  unfold start_person_id_update_mutations, bind.
  destruct (result _ cl) as [[values|e|] cl1] eqn:Hres; try discriminate.
  intros [= <- <- <-]. apply result_returned in Hres.
  unfold map_one_host_per_shard in Hres.
  destruct (submit_eq
              (λ all h, bool_decide (head (filter (λ h', shard_num h' = shard_num h) all)
                                     = Some h))
              (PersonOverridesSnapshotDictionary_enqueue_person_id_update_mutation dictionary)
              cl) as (evs & Hsubmit).
  rewrite Hsubmit in Hres. injection Hres as Houts <-.
  split; [hosts_preserved|].
  intros h Hh. destruct (first_of_shard (hosts cl) h Hh) as (h0 & Hh0 & Hshard & Hhead).
  apply not_eq_None_Some. intros Hnot%not_elem_of_list_to_map_2. apply Hnot.
  rewrite <- Hshard. clear Hnot.
  assert (Hpicked : h0 ∈ values.*1).
  { apply (f_equal (fmap fst)) in Houts. rewrite <- !list_fmap_compose in Houts.
    simpl in Houts.
    assert (Hv : (fst ∘ (λ ha : HostInfo * Mutation, (ha.1, Returned ha.2))) <$> values
                 = values.*1) by (by apply list_fmap_ext).
    rewrite Hv in Houts. rewrite <- Houts.
    unfold hosts in Hh0. apply list_elem_of_fmap in Hh0 as ([h' s] & -> & Hin).
    apply list_elem_of_fmap. exists (h', s). split; [done|].
    apply list_elem_of_filter. split; [|done]. simpl in *.
    by apply bool_decide_eq_true_2. }
  apply list_elem_of_fmap in Hpicked as ([h' m] & -> & Hin). simpl.
  apply list_elem_of_fmap. exists (shard_num h', m). split; [done|].
  apply elem_of_reverse, list_elem_of_fmap. by exists (h', m).
Qed.

(** *** Every host sees its shard's update mutation done *)

Lemma Mutation_is_done_on (m : Mutation) (c : Client) :
  (Mutation_is_done m c).1 = task_outcome (Mutation_is_done m) (server c)
  ∧ server (Mutation_is_done m c).2 = server c.
Proof.
  unfold task_outcome, Mutation_is_done, bind. rewrite !execute_eq. simpl.
  destruct (_ ≫= _) as [results|]; simpl; [|done].
  destruct results as [|[|x [|y r]] [|r' l]]; done.
Qed.

Lemma Mutation_wait_returned (polls : nat) (m : Mutation) (c c' : Client) :
  Mutation_wait polls m c = (Returned tt, c') → mutation_done m (server c').
Proof.
  revert c. induction polls as [|n IH]; intros c; simpl; [discriminate|].
  unfold bind at 1. destruct (Mutation_is_done_on m c) as [Hout Hserver].
  destruct (Mutation_is_done m c) as [[done|e|] c1]; simpl in *; try discriminate.
  destruct (py_bool done) eqn:Hdone.
  - intros [= <-]. exists done. by rewrite Hserver.
  - unfold bind, sleep. apply IH.
Qed.

Lemma fold_merge_run_all {A} (rest : list (FutureList A)) (x : FutureList A)
    (cl : Cluster) :
  fold_left merge rest x cl = merge x (run_all rest) cl.
Proof.
  revert x. induction rest as [|y rest IH]; intros x; simpl.
  - unfold merge, bind, ret. destruct (x cl) as [[rx|e|] cl1]; try reflexivity.
    by rewrite app_nil_r.
  - rewrite IH. unfold merge, bind, ret.
    destruct (x cl) as [[rx|e|] cl1]; try reflexivity.
    destruct (y cl1) as [[ry|e|] cl2]; try reflexivity.
    destruct (run_all rest cl2) as [[rr|e|] cl3]; try reflexivity.
    by rewrite app_assoc.
Qed.

Lemma run_all_waits (polls : nat) (sms : list (Z * Mutation)) (cl cl' : Cluster)
    (outs : list (HostInfo * Outcome unit)) :
  NoDup sms.*1 →
  run_all ((λ sm : Z * Mutation,
              map_all_hosts_in_shard sm.1 (Mutation_wait polls sm.2)) <$> sms) cl
    = (Returned outs, cl') →
  all_returned outs →
  hosts cl' = hosts cl
  ∧ (∀ h s' m, (h, s') ∈ nodes cl' → (shard_num h, m) ∈ sms → mutation_done m s')
  ∧ (∀ h s', (h, s') ∈ nodes cl' → shard_num h ∉ sms.*1 → (h, s') ∈ nodes cl).
Proof.
  revert cl outs. induction sms as [|[shard m] sms IH]; intros cl outs Hnd; simpl.
  - intros [= <- <-] _. split; [done|]. split; [|done].
    intros h s' m' _ Hin. by apply not_elem_of_nil in Hin.
  - apply NoDup_cons in Hnd as [Hfresh Hnd].
    unfold merge at 1, bind. unfold map_all_hosts_in_shard at 1.
    destruct (submit_eq (λ _ h, bool_decide (shard_num h = shard))
                (Mutation_wait polls m) cl) as (evs & ->).
    destruct (run_all _ _) as [[outs'|e|] cl1] eqn:Hrest; try discriminate.
    intros [= <- <-] Hall.
    destruct (IH _ _ Hnd Hrest) as (Hhosts & Hdone & Hframe).
    { intros h o Ho. apply (Hall h). apply elem_of_app. by right. }
    split; [rewrite Hhosts; hosts_preserved|]. split.
    + intros h s' m' Hin [Hhere|Hlater]%elem_of_cons.
      * injection Hhere as Hshard ->.
        apply Hframe in Hin; [|by rewrite Hshard]. simpl in Hin.
        apply list_elem_of_fmap in Hin as ([h0 s0] & Heq & Hin0). simpl in Heq.
        destruct (bool_decide (shard_num h0 = shard)) eqn:E.
        -- injection Heq as -> ->.
           destruct (Hall h0 (task_outcome (Mutation_wait polls m) s0)) as [[] Hret].
           { apply elem_of_app. left. apply list_elem_of_fmap. exists (h0, s0).
             split; [done|]. apply list_elem_of_filter. split; [|done].
             exact E. }
           unfold task_outcome in Hret. unfold task_server.
           destruct (Mutation_wait polls m _) as [o c1] eqn:Hwait.
           simpl in *. subst o.
           by apply Mutation_wait_returned in Hwait.
        -- injection Heq as -> ->. apply bool_decide_eq_false in E. done.
      * by apply (Hdone h).
    + intros h s' Hin Hnot. apply not_elem_of_cons in Hnot as [Hne Hnot].
      apply Hframe in Hin; [|done]. simpl in Hin.
      apply list_elem_of_fmap in Hin as ([h0 s0] & Heq & Hin0). simpl in Heq.
      case_bool_decide as Hshard.
      * injection Heq as -> _. by destruct Hne.
      * by injection Heq as -> ->.
Qed.

Lemma wait_for_person_id_update_mutations_returned (polls : nat)
    (dictionary dictionary' : PersonOverridesSnapshotDictionary)
    (shard_mutations : gmap Z Mutation) (cl cl' : Cluster) :
  wait_for_person_id_update_mutations polls (dictionary, shard_mutations) cl
    = (Returned dictionary', cl') →
  hosts cl' = hosts cl
  ∧ ∀ h s' m, (h, s') ∈ nodes cl' → shard_mutations !! shard_num h = Some m →
              mutation_done m s'.
Proof.
  unfold wait_for_person_id_update_mutations.
  pose proof (NoDup_fst_map_to_list shard_mutations) as Hnd.
  assert (Hin : ∀ k m, (k, m) ∈ map_to_list shard_mutations
                       ↔ shard_mutations !! k = Some m)
    by (intros; apply elem_of_map_to_list).
  destruct (map_to_list shard_mutations) as [|sm sms] eqn:Hlist; [discriminate|].
  rewrite fmap_cons. cbv [reduce_merge bind ret].
  destruct (result _ cl) as [[values|e|] cl1] eqn:Hres; try discriminate.
  intros [= <- <-]. apply result_returned in Hres.
  rewrite fold_merge_run_all in Hres.
  destruct (run_all_waits polls (sm :: sms) cl cl1 _ Hnd Hres) as (Hhosts & Hdone & _).
  { intros h o Ho. apply list_elem_of_fmap in Ho as ([h' a] & [= -> ->] & _). eauto. }
  split; [done|]. intros h s' m Hnode Hm. apply (Hdone h); [done|]. by apply Hin.
Qed.

(** C9. The ops of the job form one chain: a scheduler that starts an op
    only after everything upstream of it has finished can run them in the
    pipeline order only.  The record of every run is a word of the linear
    state machine create, populate, sync, create-dictionary,
    load-and-verify, start updates, wait updates, start delete, wait delete,
    drop dictionary, drop table: an op starts only after every earlier op
    has finished, each op sends only its own statements, and an
    ALTER ... DELETE reaches a host only after the op that waits for the
    update mutations has finished.  That op is given a mutation for the
    shard of every host, and when it has returned every host reports the
    mutation of its shard as done. *)
Theorem squash_person_overrides_is_linear (run : Run) (cl : Cluster) :
  ops_of squash_person_overrides = pipeline
  ∧ (∀ order, schedule squash_person_overrides order → order `prefix_of` pipeline)
  ∧ (∃ evs s,
      log (execute_job run squash_person_overrides cl).2 = log cl ++ evs
      ∧ accepts (Idle 0) evs = Some s
      ∧ (∀ out, (execute_job run squash_person_overrides cl).1 = Returned out →
           s = Idle 11)
      ∧ (∀ i op, evs !! i = Some (OpStarted op) →
           ∃ k, pipeline !! k = Some op
                ∧ ∀ j up, (j < k)%nat → pipeline !! j = Some up →
                          OpFinished up ∈ take i evs)
      ∧ (∀ i h q, evs !! i = Some (Sent h q) → is_alter_delete q = true →
           OpFinished Op_wait_for_person_id_update_mutations ∈ take i evs))
  ∧ (∀ dictionary dictionary' shard_mutations cl0 cl1,
       start_person_id_update_mutations dictionary cl0
         = (Returned (dictionary', shard_mutations), cl1) →
       hosts cl1 = hosts cl0
       ∧ ∀ h, h ∈ hosts cl0 → is_Some (shard_mutations !! shard_num h))
  ∧ (∀ dictionary dictionary' shard_mutations cl0 cl1,
       wait_for_person_id_update_mutations (poll_budget run)
         (dictionary, shard_mutations) cl0 = (Returned dictionary', cl1) →
       hosts cl1 = hosts cl0
       ∧ ∀ h s' m, (h, s') ∈ nodes cl1 → shard_mutations !! shard_num h = Some m →
                   mutation_done m s').
Proof.
  split; [reflexivity|]. split; [apply schedule_is_prefix|].
  split; [|split;
           [apply start_person_id_update_mutations_covers
           |apply wait_for_person_id_update_mutations_returned]].
  destruct (squash_person_overrides_reaches run cl) as (evs & s & Hlog & Hacc & Hs).
  exists evs, s. split; [done|]. split; [done|]. split; [|split].
  - intros out Hout. by rewrite Hout in Hs.
  - intros i op He. by eapply started_after_upstream.
  - intros i h q He Hq.
    destruct (sent_while_running s evs i h q Hacc He) as (k & op & Hop & Hallowed & Hup).
    assert (op = Op_start_overrides_delete_mutations) as ->.
    { destruct q as [| | | | | | | | | | | |db t [|cond]]; try discriminate.
      destruct op; try discriminate. reflexivity. }
    apply index_of_start_overrides_delete in Hop as ->.
    apply (Hup 6%nat); [lia|reflexivity].
Qed.

(** *** The checksum gate *)

Lemma distinct_values_one (checksums : list (HostInfo * Value)) :
  distinct_values checksums = 1%nat ↔
  ∃ x, checksums ≠ [] ∧ ∀ h v, (h, v) ∈ checksums → v = x.
Proof.
  unfold distinct_values. split.
  - intros Hlen.
    destruct (remove_dups checksums.*2) as [|x [|y l]] eqn:E; try discriminate.
    exists x. split.
    + intros ->. discriminate.
    + intros h v Hin.
      assert (Hv : v ∈ remove_dups checksums.*2).
      { apply elem_of_remove_dups, list_elem_of_fmap. by exists (h, v). }
      rewrite E in Hv. by apply list_elem_of_singleton in Hv.
  - intros (x & Hne & Hall).
    assert (Hsub : ∀ v, v ∈ remove_dups checksums.*2 → v = x).
    { intros v Hv. apply elem_of_remove_dups, list_elem_of_fmap in Hv
        as ([h v'] & -> & Hin). by apply (Hall h). }
    pose proof (NoDup_remove_dups checksums.*2) as Hnd.
    destruct (remove_dups checksums.*2) as [|a [|b l]] eqn:E.
    + destruct checksums as [|[h v] rest]; [done|].
      assert (Hv : v ∈ remove_dups ((h, v) :: rest).*2).
      { apply elem_of_remove_dups. simpl. apply list_elem_of_here. }
      rewrite E in Hv. by apply not_elem_of_nil in Hv.
    + reflexivity.
    + rewrite (Hsub a), (Hsub b) in Hnd;
        [|apply list_elem_of_further, list_elem_of_here|apply list_elem_of_here].
      apply NoDup_cons in Hnd as [Hnotin _].
      destruct Hnotin. apply list_elem_of_here.
Qed.

Lemma execute_job_squash_upstream (run : Run) (cl : Cluster) :
  execute_job run squash_person_overrides cl
  = (d0 <- execute_job run created_snapshot_dictionary ;;
     d1 <- stage run Op_load_and_verify_snapshot_dictionary [d0] ;;
     d2 <- stage run Op_start_person_id_update_mutations [d1] ;;
     d3 <- stage run Op_wait_for_person_id_update_mutations [d2] ;;
     d4 <- stage run Op_start_overrides_delete_mutations [d3] ;;
     d5 <- stage run Op_wait_for_overrides_delete_mutations [d4] ;;
     d6 <- stage run Op_drop_snapshot_dictionary [d5] ;;
     stage run Op_drop_snapshot_table [d6]) cl.
Proof.
  unfold squash_person_overrides, dictionary_after_override_delete_mutations,
    dictionary_after_person_id_update_mutations, prepared_dictionary.
  rewrite execute_job_unary. unfold bind at 1 2.
  rewrite execute_job_unary. unfold bind at 1 2.
  rewrite execute_job_unary. unfold bind at 1 2.
  rewrite execute_job_unary. unfold bind at 1 2.
  rewrite execute_job_unary. unfold bind at 1 2.
  rewrite execute_job_unary. unfold bind at 1 2.
  rewrite execute_job_unary. unfold bind.
  destruct (execute_job run created_snapshot_dictionary cl) as [[d0|e|] cl0];
    try reflexivity.
  repeat (match goal with
          | |- context [stage run ?op [?a] ?c] =>
              destruct (stage run op [a] c) as [[?|?|] ?]
          end; try reflexivity).
Qed.

Lemma index_of_alter (k : nat) (op : Op) (q : Query) :
  pipeline !! k = Some op → allowed op q = true → is_alter q = true →
  (5 <= k)%nat.
Proof.
  intros Hop Hallowed Hq. destruct q; try discriminate.
  do 5 (destruct k as [|k]; [injection Hop as <-; discriminate|]). lia.
Qed.

(** C4. [load_and_verify_snapshot_dictionary] returns the dictionary only
    when the hosts have all loaded it and reported one and the same
    checksum; when two hosts report different checksums it raises
    AssertionError.  When the op raises in a run of the job, the run ends
    there, in the state the op left: no later op is started.  In no run is
    an ALTER sent to a host before this op has finished. *)
Theorem load_and_verify_requires_equal_checksums
    (polls : nat) (dictionary : PersonOverridesSnapshotDictionary) (cl : Cluster) :
  let load_all :=
    result (map_all_hosts (PersonOverridesSnapshotDictionary_load polls dictionary)) in
  (∀ d cl',
     load_and_verify_snapshot_dictionary polls dictionary cl = (Returned d, cl') →
     d = dictionary
     ∧ ∃ checksums x,
         load_all cl = (Returned checksums, cl')
         ∧ checksums ≠ []
         ∧ ∀ h v, (h, v) ∈ checksums → v = x)
  ∧ (∀ checksums cl' h1 v1 h2 v2,
       load_all cl = (Returned checksums, cl') →
       (h1, v1) ∈ checksums → (h2, v2) ∈ checksums → v1 ≠ v2 →
       load_and_verify_snapshot_dictionary polls dictionary cl
       = (Raised AssertionError, cl'))
  ∧ (∀ run d cl0 e cl1,
       execute_job run created_snapshot_dictionary cl = (Returned (OutDictionary d), cl0) →
       load_and_verify_snapshot_dictionary (poll_budget run) d
         {| nodes := nodes cl0;
            log := log cl0 ++ [OpStarted Op_load_and_verify_snapshot_dictionary] |}
       = (Raised e, cl1) →
       execute_job run squash_person_overrides cl = (Raised e, cl1))
  ∧ (∀ run, ∃ evs,
       log (execute_job run squash_person_overrides cl).2 = log cl ++ evs
       ∧ ∀ i h q, evs !! i = Some (Sent h q) → is_alter q = true →
           OpFinished Op_load_and_verify_snapshot_dictionary ∈ take i evs).
Proof.
  intros load_all. split; [|split; [|split]].
  - intros d cl'. unfold load_and_verify_snapshot_dictionary, bind.
    fold load_all. destruct (load_all cl) as [[checksums|e|] cl1]; try discriminate.
    case_bool_decide as Hone; simpl; [|discriminate].
    intros [= <- <-]. split; [done|].
    apply distinct_values_one in Hone as (x & Hne & Hall).
    by exists checksums, x.
  - intros checksums cl' h1 v1 h2 v2 Hload H1 H2 Hne.
    unfold load_and_verify_snapshot_dictionary, bind. fold load_all.
    rewrite Hload. rewrite bool_decide_eq_false_2; [reflexivity|].
    intros (x & _ & Hall)%distinct_values_one.
    apply Hne. by rewrite (Hall h1 v1), (Hall h2 v2).
  - intros run d cl0 e cl1 Hup Hload.
    rewrite execute_job_squash_upstream. unfold bind at 1. rewrite Hup.
    unfold bind at 1. unfold stage at 1. unfold bind at 1, record at 1.
    unfold bind at 1. simpl. unfold bind at 1. rewrite Hload. reflexivity.
  - intros run.
    destruct (squash_person_overrides_reaches run cl) as (evs & s & Hlog & Hacc & _).
    exists evs. split; [done|]. intros i h q He Hq.
    destruct (sent_while_running s evs i h q Hacc He) as (k & op & Hop & Hallowed & Hup).
    pose proof (index_of_alter k op q Hop Hallowed Hq) as Hk.
    apply (Hup 4%nat); [lia|reflexivity].
Qed.

(** ** Further properties of the module *)

(** *** Names *)

Lemma hex_value_digit (n : N) : (n < 16)%N → hex_value (hex_digit n) = n.
Proof.
  intros H. rewrite <- (N2Nat.id n).
  assert (N.to_nat n < 16)%nat as Hk by lia.
  generalize dependent (N.to_nat n). intros k Hk.
  do 16 (destruct k as [|k]; [vm_compute; reflexivity|]). lia.
Qed.

Lemma unhex_from_app (a b : string) (acc : N) :
  unhex_from acc (a +:+ b) = unhex_from (unhex_from acc a) b.
Proof.
  revert acc. induction a as [|c a IH]; intros acc; [reflexivity|].
  change (String c a +:+ b) with (String c (a +:+ b)). simpl. apply IH.
Qed.

Lemma unhex_hex_digits (width : nat) (n : N) :
  unhex (hex_digits width n) = (n mod 16 ^ N.of_nat width)%N.
Proof.
  unfold unhex. revert n. induction width as [|w IH]; intros n.
  - simpl. by rewrite N.mod_1_r.
  - cbn [hex_digits]. rewrite unhex_from_app, IH. cbn [unhex_from].
    rewrite hex_value_digit by (apply N.mod_lt; lia).
    rewrite Nat2N.inj_succ, N.pow_succ_r'.
    rewrite (N.Div0.mod_mul_r n 16). lia.
Qed.

Lemma string_app_inv_head (s x y : string) : s +:+ x = s +:+ y → x = y.
Proof.
  induction s as [|c s IH]; [done|].
  change (String c s +:+ x) with (String c (s +:+ x)).
  change (String c s +:+ y) with (String c (s +:+ y)).
  intros [= H]. by apply IH.
Qed.

Lemma string_length_app (a b : string) :
  String.length (a +:+ b) = (String.length a + String.length b)%nat.
Proof.
  induction a as [|c a IH]; [done|].
  change (String c a +:+ b) with (String c (a +:+ b)). simpl. by rewrite IH.
Qed.

Lemma string_app_inv_tail (t x y : string) : x +:+ t = y +:+ t → x = y.
Proof.
  revert y. induction x as [|c x IH]; intros [|c' y] H.
  - done.
  - apply (f_equal String.length) in H.
    change (String c' y +:+ t) with (String c' (y +:+ t)) in H.
    simpl in H. rewrite !string_length_app in H. simpl in H. lia.
  - apply (f_equal String.length) in H.
    change (String c x +:+ t) with (String c (x +:+ t)) in H.
    simpl in H. rewrite !string_length_app in H. simpl in H. lia.
  - change (String c x +:+ t) with (String c (x +:+ t)) in H.
    change (String c' y +:+ t) with (String c' (y +:+ t)) in H.
    injection H as -> H. f_equal. by apply IH.
Qed.

Lemma length_hex_digits (width : nat) (n : N) :
  String.length (hex_digits width n) = width.
Proof.
  revert n. induction width as [|w IH]; intros n; [done|].
  cbn [hex_digits]. rewrite string_length_app, IH. simpl. lia.
Qed.

Lemma hex_inj (a b : N) :
  (a < 2 ^ 128)%N → (b < 2 ^ 128)%N → hex a = hex b → a = b.
Proof.
  intros Ha Hb H. apply (f_equal unhex) in H. unfold hex in H.
  rewrite !unhex_hex_digits in H.
  change (16 ^ N.of_nat 32)%N with (2 ^ 128)%N in H.
  by rewrite !N.mod_small in H.
Qed.

(** X1: the names of the snapshot table and of its dictionary identify the
    run: two runs whose identifiers differ never share a table or a
    dictionary, and no dictionary bears the name of a snapshot table. *)
Theorem snapshot_names_identify_the_run (a b : PersonOverridesSnapshotTable) :
  (id a < 2 ^ 128)%N → (id b < 2 ^ 128)%N →
  (PersonOverridesSnapshotTable_qualified_name a
     = PersonOverridesSnapshotTable_qualified_name b → id a = id b)
  ∧ (PersonOverridesSnapshotDictionary_qualified_name {| source := a |}
     = PersonOverridesSnapshotDictionary_qualified_name {| source := b |} → id a = id b)
  ∧ PersonOverridesSnapshotDictionary_qualified_name {| source := a |}
    ≠ PersonOverridesSnapshotTable_qualified_name b.
Proof.
  intros Ha Hb.
  unfold PersonOverridesSnapshotDictionary_qualified_name,
    PersonOverridesSnapshotDictionary_name,
    PersonOverridesSnapshotTable_qualified_name, PersonOverridesSnapshotTable_name.
  cbn [source]. split; [|split].
  - intros H. do 3 apply string_app_inv_head in H. by apply hex_inj.
  - intros H. do 2 apply string_app_inv_head in H.
    apply string_app_inv_tail in H. apply string_app_inv_head in H. by apply hex_inj.
  - intros H. do 2 apply string_app_inv_head in H.
    rewrite string_app_assoc in H. apply string_app_inv_head in H.
    apply (f_equal String.length) in H.
    unfold hex in H. rewrite string_length_app, !length_hex_digits in H.
    simpl in H. lia.
Qed.

(** *** Creating and dropping *)

(** X2: creating the snapshot table never fails, leaves a table that
    exists with its rows as they were (an empty one if there was none),
    touches no other table, and doing it again changes nothing. *)
Theorem create_table_is_idempotent (self : PersonOverridesSnapshotTable) (c : Client) :
  let qn := PersonOverridesSnapshotTable_qualified_name self in
  ∃ c',
    PersonOverridesSnapshotTable_create self c = (Returned tt, c')
    ∧ journal c' = journal c ++ [CreateTableIfNotExists qn]
    ∧ tables (server c') !! qn
      = Some (default {| rows := []; queue_size := 0 |} (tables (server c) !! qn))
    ∧ (∀ other, other ≠ qn → tables (server c') !! other = tables (server c) !! other)
    ∧ server (PersonOverridesSnapshotTable_create self c').2 = server c'.
Proof.
  intros qn. unfold PersonOverridesSnapshotTable_create, bind, ret.
  rewrite execute_eq. fold qn. cbn [run].
  destruct (tables (server c) !! qn) as [t|] eqn:Hqn; cbn [fst snd].
  - eexists. split; [reflexivity|].
    cbn [server journal set_tables set_dictionaries tables dictionaries].
    split; [reflexivity|]. split; [by rewrite Hqn|]. split; [done|].
    rewrite execute_eq. cbn [run server]. by rewrite Hqn.
  - eexists. split; [reflexivity|].
    cbn [server journal set_tables set_dictionaries tables dictionaries].
    split; [reflexivity|]. split; [by rewrite lookup_insert_eq|].
    split; [by intros other Hother; rewrite lookup_insert_ne|].
    rewrite execute_eq. cbn [run server set_tables tables].
    by rewrite lookup_insert_eq.
Qed.

(** X3: creating the dictionary never fails; a dictionary that exists is
    kept as it is, with its status and contents, whatever layout the new
    call asks for; otherwise it is created unloaded over the snapshot table
    of the same run. *)
Theorem create_dictionary_is_idempotent
    (self : PersonOverridesSnapshotDictionary) (shards max_execution_time : Z)
    (c : Client) :
  let qn := PersonOverridesSnapshotDictionary_qualified_name self in
  ∃ c',
    PersonOverridesSnapshotDictionary_create self shards max_execution_time c
      = (Returned tt, c')
    ∧ dictionaries (server c') !! qn
      = Some (default
                {| dict_source := PersonOverridesSnapshotTable_qualified_name (source self);
                   status := "NOT_LOADED"; last_exception := ""; dict_data := ∅ |}
                (dictionaries (server c) !! qn))
    ∧ (∀ other, other ≠ qn →
         dictionaries (server c') !! other = dictionaries (server c) !! other)
    ∧ tables (server c') = tables (server c)
    ∧ ∀ shards' max_execution_time',
        server (PersonOverridesSnapshotDictionary_create self
                  shards' max_execution_time' c').2 = server c'.
Proof.
  intros qn. unfold PersonOverridesSnapshotDictionary_create, bind, ret.
  rewrite execute_eq. fold qn. cbn [run].
  destruct (dictionaries (server c) !! qn) as [d|] eqn:Hqn; cbn [fst snd].
  - eexists. split; [reflexivity|].
    cbn [server journal set_tables set_dictionaries tables dictionaries].
    split; [by rewrite Hqn|]. split; [done|]. split; [done|].
    intros shards' met'. rewrite execute_eq. cbn [run server]. by rewrite Hqn.
  - eexists. split; [reflexivity|].
    cbn [server journal set_tables set_dictionaries tables dictionaries].
    split; [by rewrite lookup_insert_eq|].
    split; [by intros other Hother; rewrite lookup_insert_ne|]. split; [done|].
    intros shards' met'. rewrite execute_eq.
    cbn [run server set_dictionaries dictionaries].
    by rewrite lookup_insert_eq.
Qed.

(** X4: dropping the snapshot table never fails, whether or not the table
    exists; afterwards the host has no such table, the other tables are as
    before, and a [populate] of the dropped table fails on the server at its
    first statement. *)
Theorem drop_table_removes_it (self : PersonOverridesSnapshotTable) (c : Client) :
  let qn := PersonOverridesSnapshotTable_qualified_name self in
  ∃ c',
    PersonOverridesSnapshotTable_drop self c = (Returned tt, c')
    ∧ journal c' = journal c ++ [DropTableIfExists qn]
    ∧ tables (server c') !! qn = None
    ∧ (∀ other, other ≠ qn → tables (server c') !! other = tables (server c) !! other)
    ∧ PersonOverridesSnapshotTable_populate self c'
      = (Raised ServerException,
         {| server := server c'; journal := journal c' ++ [SelectCount qn] |}).
Proof.
  intros qn. unfold PersonOverridesSnapshotTable_drop, bind, ret.
  rewrite execute_eq. fold qn. cbn [run fst snd].
  eexists. split; [reflexivity|].
    cbn [server journal set_tables set_dictionaries tables dictionaries].
  split; [reflexivity|]. split; [apply lookup_delete_eq|].
  split; [by intros other Hother; apply lookup_delete_ne|].
  unfold PersonOverridesSnapshotTable_populate, bind.
  rewrite execute_eq. fold qn. cbn [run server set_tables tables].
  by rewrite lookup_delete_eq.
Qed.

(** X5: dropping the dictionary never fails; afterwards the host has no
    such dictionary, its tables are untouched, and a status check of the
    dropped dictionary reports that it does not exist. *)
Theorem drop_dictionary_removes_it (self : PersonOverridesSnapshotDictionary)
    (c : Client) :
  let qn := PersonOverridesSnapshotDictionary_qualified_name self in
  ∃ c',
    PersonOverridesSnapshotDictionary_drop self c = (Returned tt, c')
    ∧ journal c' = journal c ++ [DropDictionaryIfExists qn]
    ∧ dictionaries (server c') !! qn = None
    ∧ (∀ other, other ≠ qn →
         dictionaries (server c') !! other = dictionaries (server c) !! other)
    ∧ tables (server c') = tables (server c)
    ∧ (PersonOverridesSnapshotDictionary_is_loaded self c').1
      = Raised (Exception "dictionary does not exist").
Proof.
  intros qn. unfold PersonOverridesSnapshotDictionary_drop, bind, ret.
  rewrite execute_eq. fold qn. cbn [run fst snd].
  eexists. split; [reflexivity|].
    cbn [server journal set_tables set_dictionaries tables dictionaries].
  split; [reflexivity|]. split; [apply lookup_delete_eq|].
  split; [by intros other Hother; apply lookup_delete_ne|]. split; [done|].
  unfold PersonOverridesSnapshotDictionary_is_loaded, bind.
  rewrite execute_eq. cbn [run server set_dictionaries dictionaries].
  change (qualify CLICKHOUSE_DATABASE (PersonOverridesSnapshotDictionary_name self))
    with qn.
  by rewrite lookup_delete_eq.
Qed.

(** *** More on [populate] and [sync] *)

Lemma populate_eq (self : PersonOverridesSnapshotTable) (c : Client) :
  let qn := PersonOverridesSnapshotTable_qualified_name self in
  let count := SelectCount qn in
  let fill :=
    InsertLatestOverrides qn
      (CLICKHOUSE_DATABASE +:+ "." +:+ PERSON_DISTINCT_ID_OVERRIDES_TABLE)
      (timestamp self) in
  PersonOverridesSnapshotTable_populate self c
  = match tables (server c) !! qn with
    | None =>
        (Raised ServerException,
         {| server := server c; journal := journal c ++ [count] |})
    | Some t =>
        match rows t, toDateTime (timestamp self) with
        | _ :: _, _ =>
            (Raised AssertionError,
             {| server := server c; journal := journal c ++ [count] |})
        | [], None =>
            (Raised ServerException,
             {| server := server c; journal := journal c ++ [count; fill] |})
        | [], Some cutoff =>
            (Returned tt,
             {| server :=
                  set_tables
                    (insert qn
                       {| rows := latest_overrides cutoff (overrides (server c));
                          queue_size := queue_size t |}) (server c);
                journal := journal c ++ [count; fill] |})
        end
    end.
Proof.
  intros qn count fill.
  unfold PersonOverridesSnapshotTable_populate, bind. rewrite execute_eq.
  fold qn. cbn [run].
  destruct (tables (server c) !! qn) as [t|] eqn:Hqn; cbn [fst snd]; [|done].
  cbn [unpack1 ret]. rewrite py_eq_count_zero.
  destruct (rows t) as [|r l] eqn:Hrows; cbn [length]; [|done].
  rewrite bool_decide_eq_true_2 by done. cbn [assert ret].
  rewrite execute_eq. cbn [run server journal]. rewrite Hqn, Hrows.
  destruct (toDateTime (timestamp self)) as [cutoff|]; cbn [fst snd].
  - rewrite decide_True by done. cbn [fst snd]. by rewrite <- app_assoc.
  - by rewrite <- app_assoc.
Qed.

Lemma latest_overrides_nil (cutoff : Z) (l : list Override.Row) :
  latest_overrides cutoff l = [] ↔ filter (λ o, Override._timestamp o < cutoff) l = [].
Proof.
  unfold latest_overrides. split.
  - intros H. apply fmap_nil_inv, map_to_list_empty_iff in H.
    destruct (filter _ l) as [|o eligible] eqn:Heq; [done|].
    pose proof (aggregate_lookup (o :: eligible) (Override.key o)) as Hk.
    rewrite H, lookup_empty in Hk.
    exfalso. apply (Hk o); [apply list_elem_of_here|done].
  - intros ->. reflexivity.
Qed.

(** X6: [populate] changes nothing on the host but the rows of its own
    snapshot table: the overrides, the events, the dictionaries, the
    mutations and every other table are as before, however the call ends. *)
Theorem populate_changes_only_the_snapshot
    (self : PersonOverridesSnapshotTable) (c : Client) :
  let qn := PersonOverridesSnapshotTable_qualified_name self in
  let s' := server (PersonOverridesSnapshotTable_populate self c).2 in
  overrides s' = overrides (server c)
  ∧ events s' = events (server c)
  ∧ dictionaries s' = dictionaries (server c)
  ∧ mutations s' = mutations (server c)
  ∧ (∀ other, other ≠ qn → tables s' !! other = tables (server c) !! other)
  ∧ (queue_size <$> tables s' !! qn) = (queue_size <$> tables (server c) !! qn).
Proof.
  intros qn s'. subst s'. rewrite populate_eq. fold qn.
  destruct (tables (server c) !! qn) as [t|] eqn:Hqn;
    [|by cbn [snd server]; rewrite ?Hqn].
  destruct (rows t) as [|r l]; [|by cbn [snd server]; rewrite ?Hqn].
  destruct (toDateTime (timestamp self)) as [cutoff|];
    [|by cbn [snd server]; rewrite ?Hqn].
  cbn [snd server set_tables tables overrides events dictionaries mutations].
  repeat split; try done.
  - by intros other Hother; rewrite lookup_insert_ne.
  - by rewrite lookup_insert_eq.
Qed.

(** X7: after a [populate] that filled an empty snapshot table, a second
    [populate] of the same table stops at the assertion when the first one
    inserted a row; when no override was old enough the table is still
    empty and the second call inserts again. *)
Theorem populate_guards_against_a_second_insert
    (self : PersonOverridesSnapshotTable) (c : Client) (t : ReplicatedTable)
    (cutoff : Z) :
  let qn := PersonOverridesSnapshotTable_qualified_name self in
  let eligible := filter (λ o, Override._timestamp o < cutoff) (overrides (server c)) in
  tables (server c) !! qn = Some t →
  rows t = [] →
  toDateTime (timestamp self) = Some cutoff →
  ∃ c1,
    PersonOverridesSnapshotTable_populate self c = (Returned tt, c1)
    ∧ (eligible ≠ [] →
       PersonOverridesSnapshotTable_populate self c1
       = (Raised AssertionError,
          {| server := server c1; journal := journal c1 ++ [SelectCount qn] |}))
    ∧ (eligible = [] →
       ∃ c2, PersonOverridesSnapshotTable_populate self c1 = (Returned tt, c2)
             ∧ tables (server c2) !! qn
               = Some {| rows := []; queue_size := queue_size t |}).
Proof.
  intros qn eligible Hqn Hrows Hcutoff.
  rewrite populate_eq. fold qn. rewrite Hqn, Hrows, Hcutoff.
  eexists. split; [reflexivity|]. split.
  - intros Heligible. rewrite populate_eq. fold qn.
    cbn [server set_tables tables]. rewrite lookup_insert_eq. cbn [rows].
    destruct (latest_overrides cutoff (overrides (server c))) eqn:Hl; [|done].
    by apply latest_overrides_nil in Hl.
  - intros Heligible. rewrite populate_eq. fold qn.
    cbn [server set_tables tables overrides]. rewrite lookup_insert_eq. cbn [rows].
    apply latest_overrides_nil in Heligible. rewrite Heligible, Hcutoff.
    eexists. split; [reflexivity|].
    cbn [server set_tables tables queue_size]. by rewrite lookup_insert_eq, Heligible.
Qed.

(** X8: how [populate] fails on the server: without the snapshot table the
    count fails and no INSERT is sent; with an empty table and a timestamp
    the server cannot read, the INSERT fails and the host is unchanged. *)
Theorem populate_server_failures (self : PersonOverridesSnapshotTable) (c : Client) :
  let qn := PersonOverridesSnapshotTable_qualified_name self in
  (tables (server c) !! qn = None →
   PersonOverridesSnapshotTable_populate self c
   = (Raised ServerException,
      {| server := server c; journal := journal c ++ [SelectCount qn] |}))
  ∧ (∀ t, tables (server c) !! qn = Some t → rows t = [] →
          toDateTime (timestamp self) = None →
          PersonOverridesSnapshotTable_populate self c
          = (Raised ServerException,
             {| server := server c;
                journal := journal c
                  ++ [SelectCount qn;
                      InsertLatestOverrides qn
                        (CLICKHOUSE_DATABASE +:+ "." +:+ PERSON_DISTINCT_ID_OVERRIDES_TABLE)
                        (timestamp self)] |})).
Proof.
  intros qn. split.
  - intros Hqn. rewrite populate_eq. fold qn. by rewrite Hqn.
  - intros t Hqn Hrows Htime. rewrite populate_eq. fold qn.
    by rewrite Hqn, Hrows, Htime.
Qed.

(** X9: dropping and re-creating the snapshot table makes [populate]
    runnable again, whatever the table held before: the three calls in a
    row return and leave the table with the latest override of each key
    before the cutoff. *)
Theorem drop_and_create_make_populate_runnable
    (self : PersonOverridesSnapshotTable) (c : Client) (cutoff : Z) :
  toDateTime (timestamp self) = Some cutoff →
  ∃ c',
    (PersonOverridesSnapshotTable_drop self ;;
     PersonOverridesSnapshotTable_create self ;;
     PersonOverridesSnapshotTable_populate self) c = (Returned tt, c')
    ∧ tables (server c') !! PersonOverridesSnapshotTable_qualified_name self
      = Some {| rows := latest_overrides cutoff (overrides (server c));
                queue_size := 0 |}.
Proof.
  intros Hcutoff. set (qn := PersonOverridesSnapshotTable_qualified_name self).
  unfold bind at 1.
  unfold PersonOverridesSnapshotTable_drop at 1. unfold bind at 1, ret.
  rewrite execute_eq. fold qn. cbn [run fst snd].
  unfold bind at 1.
  unfold PersonOverridesSnapshotTable_create at 1. unfold bind at 1, ret.
  rewrite execute_eq. fold qn. cbn [run server set_tables tables].
  rewrite lookup_delete_eq. cbn [fst snd].
  rewrite populate_eq. fold qn. cbn [server set_tables tables overrides].
  rewrite lookup_insert_eq. cbn [rows queue_size]. rewrite Hcutoff.
  eexists. split; [reflexivity|].
  cbn [server set_tables tables]. by rewrite lookup_insert_eq.
Qed.

(** X10: how [sync] fails before it looks at the queue: when the server
    gives up on SYSTEM SYNC REPLICA the queue is not queried; when the
    host has no replica of the table the result set is empty and unpacking
    it raises ValueError. *)
Theorem sync_failures (self : PersonOverridesSnapshotTable) (c : Client) :
  let qn := PersonOverridesSnapshotTable_qualified_name self in
  (sync_replica qn (server c) = None →
   PersonOverridesSnapshotTable_sync self c
   = (Raised ServerException,
      {| server := server c;
         journal := journal c ++ [SystemSyncReplicaStrict qn] |}))
  ∧ (∀ s', sync_replica qn (server c) = Some s' →
           tables s' !! qn = None →
           PersonOverridesSnapshotTable_sync self c
           = (Raised ValueError,
              {| server := s';
                 journal := journal c
                   ++ [SystemSyncReplicaStrict qn;
                       SelectQueueSize CLICKHOUSE_DATABASE
                         (PersonOverridesSnapshotTable_name self)] |})).
Proof.
  intros qn. split.
  - intros Hsync. unfold PersonOverridesSnapshotTable_sync, bind.
    rewrite execute_eq. fold qn. cbn [run]. by rewrite Hsync.
  - intros s' Hsync Hqn. unfold PersonOverridesSnapshotTable_sync, bind.
    rewrite execute_eq. fold qn. cbn [run]. rewrite Hsync. cbn [fst snd].
    rewrite execute_eq. cbn [run server journal].
    change (qualify CLICKHOUSE_DATABASE (PersonOverridesSnapshotTable_name self))
      with qn.
    rewrite Hqn. cbn [fst snd unpack1 raise]. by rewrite <- app_assoc.
Qed.

(** *** Waiting for a mutation *)

Lemma satisfies_is_done (self : Mutation) (dicts : gmap string Dictionary)
    (r : SystemMutations.Row) :
  satisfies {| column := SystemMutations.column r; env_dictionaries := dicts |}
    (And (And (Eq (Col "database") (Lit (VStr CLICKHOUSE_DATABASE)))
              (Eq (Col "table") (Lit (VStr (table self)))))
         (Eq (Col "mutation_id") (Lit (VStr (mutation_id self)))))
  = Some (is_mutation_row self r).
Proof.
  unfold satisfies, eval_top, is_mutation_row. cbn.
  destruct (String.eqb (SystemMutations.database r) CLICKHOUSE_DATABASE),
    (String.eqb (SystemMutations.table r) (table self)),
    (String.eqb (SystemMutations.mutation_id r) (mutation_id self)); reflexivity.
Qed.

Lemma where_mutation_rows (self : Mutation) (dicts : gmap string Dictionary)
    (l : list SystemMutations.Row) :
  where_mutations dicts
    (And (And (Eq (Col "database") (Lit (VStr CLICKHOUSE_DATABASE)))
              (Eq (Col "table") (Lit (VStr (table self)))))
         (Eq (Col "mutation_id") (Lit (VStr (mutation_id self))))) l
  = Some (filter (λ r, is_mutation_row self r = true) l).
Proof.
  induction l as [|r l IH]; [reflexivity|].
  cbn [where_mutations]. rewrite satisfies_is_done, IH. simpl.
  rewrite filter_cons.
  destruct (decide (is_mutation_row self r = true)) as [H|H];
    destruct (is_mutation_row self r); done.
Qed.

Lemma project_is_done (l : list SystemMutations.Row) :
  project_mutations "is_done" l
  = Some ((λ r, [of_bool (SystemMutations.is_done r)]) <$> l).
Proof.
  unfold project_mutations. induction l as [|r l IH]; [reflexivity|].
  simpl in *. rewrite IH. reflexivity.
Qed.

(** What [Mutation.is_done] returns, by the number of selected rows. *)
Lemma Mutation_is_done_eq (self : Mutation) (c : Client) :
  Mutation_is_done self c
  = (match mutation_rows self (server c) with
     | [r] => Returned (of_bool (SystemMutations.is_done r))
     | _ => Raised ValueError
     end,
     {| server := server c; journal := journal c ++ [is_done_query self] |}).
Proof.
  unfold Mutation_is_done, bind. rewrite execute_eq.
  fold (is_done_query self). unfold is_done_query at 1 2. cbn [run fst snd].
  rewrite where_mutation_rows. simpl. rewrite project_is_done. simpl.
  fold (mutation_rows self (server c)).
  destruct (mutation_rows self (server c)) as [|r [|r' l]] eqn:E.
  - reflexivity.
  - reflexivity.
  - pose proof (length_merge_sort (r :: r' :: l)) as Hlen.
    destruct (merge_sort SystemMutations.newer_first (r :: r' :: l)) as [|x [|y l']];
      simpl in Hlen; try discriminate.
    reflexivity.
Qed.

Lemma py_bool_of_bool (b : bool) : py_bool (of_bool b) = b.
Proof. by destruct b. Qed.

Lemma mutation_done_iff (self : Mutation) (s : Server) :
  mutation_done self s
  ↔ ∃ r, mutation_rows self s = [r] ∧ SystemMutations.is_done r = true.
Proof.
  unfold mutation_done, task_outcome. rewrite Mutation_is_done_eq. cbn [fst server].
  destruct (mutation_rows self s) as [|r [|r' l]]; split.
  - by intros (v & [=] & _).
  - by intros (r & [=] & _).
  - intros (v & [= <-] & Hv). exists r. by rewrite py_bool_of_bool in Hv.
  - intros (r0 & [= <-] & Hr). exists (of_bool (SystemMutations.is_done r)).
    by rewrite py_bool_of_bool.
  - by intros (v & [=] & _).
  - by intros (r0 & [=] & _).
Qed.

(** X11: [Mutation.is_done] sends one query and never changes the host.
    It raises ValueError when the host does not list the mutation, and when
    it lists it more than once; when it lists it once the result is the
    row's flag. *)
Theorem is_done_needs_exactly_one_row (self : Mutation) (c : Client) :
  let asked :=
    {| server := server c; journal := journal c ++ [is_done_query self] |} in
  (mutation_rows self (server c) = [] →
   Mutation_is_done self c = (Raised ValueError, asked))
  ∧ (∀ r, mutation_rows self (server c) = [r] →
          ∃ v, Mutation_is_done self c = (Returned v, asked)
               ∧ py_bool v = SystemMutations.is_done r)
  ∧ ((2 <= length (mutation_rows self (server c)))%nat →
     Mutation_is_done self c = (Raised ValueError, asked)).
Proof.
  intros asked. rewrite Mutation_is_done_eq. fold asked. split; [|split].
  - by intros ->.
  - intros r ->. eexists. split; [reflexivity|]. apply py_bool_of_bool.
  - destruct (mutation_rows self (server c)) as [|r [|r' l]]; simpl; [lia|lia|done].
Qed.

Lemma Mutation_wait_unfold (polls : nat) (self : Mutation) (c : Client) :
  Mutation_wait (S polls) self c
  = match mutation_rows self (server c) with
    | [r] =>
        if SystemMutations.is_done r
        then (Returned tt,
              {| server := server c; journal := journal c ++ [is_done_query self] |})
        else Mutation_wait polls self
               {| server := elapse 15 (server c);
                  journal := journal c ++ [is_done_query self] |}
    | _ => (Raised ValueError,
            {| server := server c; journal := journal c ++ [is_done_query self] |})
    end.
Proof.
  cbn [Mutation_wait]. unfold bind at 1. rewrite Mutation_is_done_eq.
  destruct (mutation_rows self (server c)) as [|r [|r' l]]; try reflexivity.
  rewrite py_bool_of_bool. destruct (SystemMutations.is_done r); reflexivity.
Qed.

(** X12: when [Mutation.wait] returns, it has polled the host until the
    first poll that found the mutation done, has slept fifteen seconds
    after each poll before that one, and has sent nothing but its status
    query. *)
Theorem wait_returns_at_the_first_done_poll
    (polls : nat) (self : Mutation) (c c' : Client) :
  Mutation_wait polls self c = (Returned tt, c') →
  ∃ n, (n < polls)%nat
       ∧ server c' = Nat.iter n (elapse 15) (server c)
       ∧ journal c' = journal c ++ replicate (S n) (is_done_query self)
       ∧ mutation_done self (server c')
       ∧ ∀ k, (k < n)%nat → ¬ mutation_done self (Nat.iter k (elapse 15) (server c)).
Proof.
  revert c. induction polls as [|polls IH]; intros c; [discriminate|].
  rewrite Mutation_wait_unfold.
  destruct (mutation_rows self (server c)) as [|r [|r' l]] eqn:Hrows; try discriminate.
  destruct (SystemMutations.is_done r) eqn:Hdone.
  - intros [= <-]. exists 0%nat. cbn [server journal]. repeat split; [lia| |lia].
    apply mutation_done_iff. by exists r.
  - intros Hwait. apply IH in Hwait as (n & Hn & Hserver & Hjournal & Hdone' & Hbefore).
    cbn [server journal] in *. exists (S n). split; [lia|].
    split; [by rewrite Nat.iter_succ_r|].
    split; [by rewrite Hjournal, <- app_assoc|]. split; [done|].
    intros [|k] Hk.
    + simpl. intros (r0 & Hr0 & Hdone0)%mutation_done_iff.
      rewrite Hrows in Hr0. injection Hr0 as <-. congruence.
    + rewrite Nat.iter_succ_r. apply Hbefore. lia.
Qed.

(** X13: the first poll of [Mutation.wait]: a mutation that is done ends
    the wait at once, without a sleep; a host that does not list the
    mutation ends it with ValueError instead of waiting for the mutation to
    appear. *)
Theorem wait_first_poll (polls : nat) (self : Mutation) (c : Client) :
  let asked :=
    {| server := server c; journal := journal c ++ [is_done_query self] |} in
  (mutation_done self (server c) →
   Mutation_wait (S polls) self c = (Returned tt, asked))
  ∧ (mutation_rows self (server c) = [] →
     Mutation_wait (S polls) self c = (Raised ValueError, asked)).
Proof.
  intros asked. rewrite Mutation_wait_unfold. fold asked. split.
  - intros (r & -> & ->)%mutation_done_iff. reflexivity.
  - by intros ->.
Qed.

(** *** Loading the dictionary *)

Lemma py_eq_str (x y : string) : py_eq (VStr x) (VStr y) = String.eqb x y.
Proof.
  unfold py_eq. destruct (String.eqb_spec x y) as [->|Hne].
  - by rewrite bool_decide_eq_true_2.
  - rewrite bool_decide_eq_false_2; [done|]. by intros [= ?].
Qed.

(** What [__is_loaded] returns for a dictionary of the host, by its status. *)
Lemma is_loaded_eq (self : PersonOverridesSnapshotDictionary) (c : Client) :
  PersonOverridesSnapshotDictionary_is_loaded self c
  = (match dictionaries (server c)
             !! PersonOverridesSnapshotDictionary_qualified_name self with
     | None => Raised (Exception "dictionary does not exist")
     | Some d =>
         if String.eqb (status d) "LOADED" then Returned true
         else if String.eqb (status d) "LOADING"
                 || String.eqb (status d) "FAILED_AND_RELOADING"
                 || String.eqb (status d) "LOADED_AND_RELOADING" then Returned false
         else if String.eqb (status d) "FAILED" then
           Raised (Exception ("failed to load: " +:+ last_exception d))
         else Raised (Exception ("unexpected status: " +:+ status d))
     end,
     {| server := server c; journal := journal c ++ [status_query self] |}).
Proof.
  unfold PersonOverridesSnapshotDictionary_is_loaded, bind. rewrite execute_eq.
  fold (status_query self). unfold status_query at 1 2. cbn [run].
  change (qualify CLICKHOUSE_DATABASE (PersonOverridesSnapshotDictionary_name self))
    with (PersonOverridesSnapshotDictionary_qualified_name self).
  destruct (dictionaries (server c) !! _) as [d|]; cbn [fst snd]; [|done].
  cbn [unpack2 ret]. rewrite !py_eq_str. cbn [py_str].
  destruct (String.eqb (status d) "LOADED"); [done|].
  destruct (String.eqb (status d) "LOADING" || String.eqb (status d) "FAILED_AND_RELOADING"
            || String.eqb (status d) "LOADED_AND_RELOADING"); [done|].
  destruct (String.eqb (status d) "FAILED"); done.
Qed.

(** X14: the status check by status.  LOADED is loaded; the three statuses
    of a load in progress are not yet loaded; FAILED raises with the
    server's last exception; every other status, NOT_LOADED among them,
    raises as unexpected.  The check sends one query and leaves the host
    alone. *)
Theorem is_loaded_by_status
    (self : PersonOverridesSnapshotDictionary) (c : Client) (d : Dictionary) :
  dictionaries (server c) !! PersonOverridesSnapshotDictionary_qualified_name self
    = Some d →
  let polled :=
    {| server := server c; journal := journal c ++ [status_query self] |} in
  (status d = "LOADED" →
   PersonOverridesSnapshotDictionary_is_loaded self c = (Returned true, polled))
  ∧ (status d ∈ ["LOADING"; "FAILED_AND_RELOADING"; "LOADED_AND_RELOADING"] →
     PersonOverridesSnapshotDictionary_is_loaded self c = (Returned false, polled))
  ∧ (status d = "FAILED" →
     PersonOverridesSnapshotDictionary_is_loaded self c
     = (Raised (Exception ("failed to load: " +:+ last_exception d)), polled))
  ∧ (status d ∉ ["LOADED"; "LOADING"; "FAILED_AND_RELOADING";
                  "LOADED_AND_RELOADING"; "FAILED"] →
     PersonOverridesSnapshotDictionary_is_loaded self c
     = (Raised (Exception ("unexpected status: " +:+ status d)), polled)).
Proof.
  intros Hd polled. rewrite is_loaded_eq, Hd. fold polled.
  split; [|split; [|split]].
  - by intros ->.
  - rewrite !elem_of_cons, elem_of_nil. intros [->|[->|[->|[]]]]; reflexivity.
  - by intros ->.
  - rewrite !not_elem_of_cons. intros (H1 & H2 & H3 & H4 & H5 & _).
    apply String.eqb_neq in H1, H2, H3, H4, H5.
    by rewrite H1, H2, H3, H4, H5.
Qed.

Lemma wait_until_loaded_unfold (polls : nat) (self : PersonOverridesSnapshotDictionary)
    (c : Client) :
  wait_until_loaded (S polls) self c
  = match PersonOverridesSnapshotDictionary_is_loaded self c with
    | (Returned true, c1) => (Returned tt, c1)
    | (Returned false, c1) =>
        wait_until_loaded polls self
          {| server := elapse 5 (server c1); journal := journal c1 |}
    | (Raised e, c1) => (Raised e, c1)
    | (Pending, c1) => (Pending, c1)
    end.
Proof.
  cbn [wait_until_loaded]. unfold bind at 1.
  destruct (PersonOverridesSnapshotDictionary_is_loaded self c) as [[[|]|e|] c1];
    reflexivity.
Qed.

Lemma wait_until_loaded_returned (polls : nat)
    (self : PersonOverridesSnapshotDictionary) (c c' : Client) :
  wait_until_loaded polls self c = (Returned tt, c') →
  ∃ n d, (n < polls)%nat
         ∧ server c' = Nat.iter n (elapse 5) (server c)
         ∧ journal c' = journal c ++ replicate (S n) (status_query self)
         ∧ dictionaries (server c')
             !! PersonOverridesSnapshotDictionary_qualified_name self = Some d
         ∧ status d = "LOADED".
Proof.
  revert c. induction polls as [|polls IH]; intros c; [discriminate|].
  rewrite wait_until_loaded_unfold, is_loaded_eq.
  destruct (dictionaries (server c) !! _) as [d|] eqn:Hd; [|discriminate].
  destruct (String.eqb (status d) "LOADED") eqn:Hloaded.
  - intros [= <-]. exists 0%nat, d. cbn [server journal].
    apply String.eqb_eq in Hloaded. repeat split; [lia|done..].
  - destruct (_ || _); [|by destruct (String.eqb (status d) "FAILED")].
    intros Hwait. apply IH in Hwait as (n & d' & Hn & Hserver & Hjournal & Hd' & Hstatus).
    cbn [server journal] in *. exists (S n), d'. split; [lia|].
    split; [by rewrite Nat.iter_succ_r|].
    split; [by rewrite Hjournal, <- app_assoc|]. done.
Qed.

Lemma load_returned (polls : nat) (self : PersonOverridesSnapshotDictionary)
    (c c' : Client) (v : Value) :
  PersonOverridesSnapshotDictionary_load polls self c = (Returned v, c') →
  let qn := PersonOverridesSnapshotDictionary_qualified_name self in
  ∃ n d d0,
    (n < polls)%nat
    ∧ dictionaries (server c) !! qn = Some d0
    ∧ dictionaries (server c') !! qn = Some d
    ∧ status d = "LOADED"
    ∧ v = checksum d
    ∧ journal c'
      = journal c ++ [SystemReloadDictionary qn]
          ++ replicate (S n) (status_query self) ++ [SelectChecksum qn].
Proof.
  intros Hload qn. revert Hload.
  unfold PersonOverridesSnapshotDictionary_load. fold qn.
  unfold bind at 1. rewrite execute_eq. cbn [run].
  destruct (dictionaries (server c) !! qn) as [d0|] eqn:Hd0; cbn [fst snd];
    [|discriminate].
  unfold bind at 1.
  destruct (wait_until_loaded polls self _) as [[[]|e|] c1] eqn:Hwait; try discriminate.
  apply wait_until_loaded_returned in Hwait as (n & d & Hn & Hserver & Hjournal & Hd & Hst).
  fold qn in Hd. cbn [server journal] in Hserver, Hjournal.
  unfold bind at 1. rewrite execute_eq. cbn [run]. rewrite Hd. cbn [fst snd unpack1 ret].
  intros [= <- <-]. exists n, d, d0. cbn [server journal].
  repeat split; try done.
  rewrite Hjournal. by rewrite <- !app_assoc.
Qed.

(** X15: a checksum that [load] returns is the checksum of a dictionary
    that the host reports as LOADED: [load] has reloaded a dictionary that
    existed, has polled its status until LOADED, and has then read the
    checksum, sending nothing else. *)
Theorem load_returns_the_checksum_of_a_loaded_dictionary
    (polls : nat) (self : PersonOverridesSnapshotDictionary) (c c' : Client)
    (v : Value) :
  PersonOverridesSnapshotDictionary_load polls self c = (Returned v, c') →
  let qn := PersonOverridesSnapshotDictionary_qualified_name self in
  is_Some (dictionaries (server c) !! qn)
  ∧ ∃ d n,
      dictionaries (server c') !! qn = Some d
      ∧ status d = "LOADED"
      ∧ v = checksum d
      ∧ (n < polls)%nat
      ∧ journal c'
        = journal c ++ [SystemReloadDictionary qn]
            ++ replicate (S n) (status_query self) ++ [SelectChecksum qn].
Proof.
  intros Hload qn.
  apply load_returned in Hload as (n & d & d0 & Hn & Hd0 & Hd & Hst & Hv & Hj).
  split; [by exists d0|]. by exists d, n.
Qed.

(** X16: the checksum does not depend on the order in which the rows of
    the dictionary are read. *)
Theorem checksum_ignores_row_order (l l' : list Snapshot.Row) :
  l ≡ₚ l' →
  groupBitXor (cityHash64 <$> l) = groupBitXor (cityHash64 <$> l').
Proof.
  unfold groupBitXor. induction 1 as [|x l l' _ IH|x y l|l l1 l2 _ IH1 _ IH2].
  - reflexivity.
  - cbn. by rewrite IH.
  - cbn. rewrite <- !N.lxor_assoc. f_equal. apply N.lxor_comm.
  - by rewrite IH1.
Qed.

(** X17: verification has no false alarm: when every host has loaded the
    dictionary and the hosts hold the same entries, the checksums agree
    and the op returns the dictionary. *)
Theorem equal_dictionaries_pass_verification
    (polls : nat) (dictionary : PersonOverridesSnapshotDictionary)
    (cl cl' : Cluster) (checksums : list (HostInfo * Value)) :
  let qn := PersonOverridesSnapshotDictionary_qualified_name dictionary in
  result (map_all_hosts (PersonOverridesSnapshotDictionary_load polls dictionary)) cl
    = (Returned checksums, cl') →
  nodes cl ≠ [] →
  (∀ h s h' s' d d',
     (h, s) ∈ nodes cl' → (h', s') ∈ nodes cl' →
     dictionaries s !! qn = Some d → dictionaries s' !! qn = Some d' →
     dict_data d = dict_data d') →
  load_and_verify_snapshot_dictionary polls dictionary cl = (Returned dictionary, cl').
Proof.
  intros qn Hresult Hnodes Hsame.
  unfold load_and_verify_snapshot_dictionary. unfold bind at 1. rewrite Hresult.
  assert (∀ h v, (h, v) ∈ checksums →
            ∃ s d, (h, s) ∈ nodes cl' ∧ dictionaries s !! qn = Some d ∧ v = checksum d)
    as Hsum.
  { apply result_returned in Hresult.
    destruct (submit_eq (λ _ _, true)
                (PersonOverridesSnapshotDictionary_load polls dictionary) cl)
      as [evs Hsubmit].
    unfold map_all_hosts in Hresult. rewrite Hsubmit in Hresult.
    injection Hresult as Houts <-. cbn [nodes].
    intros h v Hhv.
    assert ((h, Returned v) ∈ (λ ha : HostInfo * Value, (ha.1, Returned ha.2)) <$> checksums)
      as Hin by (apply list_elem_of_fmap; by exists (h, v)).
    rewrite <- Houts in Hin.
    apply list_elem_of_fmap in Hin as ([h0 s0] & [= -> Hout] & Hin).
    apply list_elem_of_filter in Hin as [_ Hin]. cbn [snd fst] in *.
    unfold task_outcome in Hout.
    destruct (PersonOverridesSnapshotDictionary_load polls dictionary
                {| server := s0; journal := [] |}) as [o c1] eqn:Hload.
    cbn [fst] in Hout. subst o.
    pose proof Hload as Hload'.
    apply load_returned in Hload' as (n & d & d0 & _ & _ & Hd & _ & Hv & _).
    exists (server c1), d. split; [|done].
    apply list_elem_of_fmap. exists (h0, s0). split; [|done].
    cbv beta iota. cbn [fst snd]. unfold task_server. by rewrite Hload. }
  assert (checksums ≠ []) as Hne.
  { apply result_returned in Hresult.
    destruct (submit_eq (λ _ _, true)
                (PersonOverridesSnapshotDictionary_load polls dictionary) cl)
      as [evs Hsubmit].
    unfold map_all_hosts in Hresult. rewrite Hsubmit in Hresult.
    injection Hresult as Houts _. intros ->.
    destruct (nodes cl) as [|hs l]; [done|]. discriminate. }
  destruct checksums as [|[h0 v0] rest] eqn:Hchecksums; [done|].
  rewrite <- Hchecksums in *.
  rewrite bool_decide_eq_true_2.
  - reflexivity.
  - apply distinct_values_one. exists v0. split; [done|].
    intros h v Hhv.
    destruct (Hsum h v Hhv) as (s & d & Hs & Hd & ->).
    destruct (Hsum h0 v0) as (s' & d' & Hs' & Hd' & ->);
      [rewrite Hchecksums; apply list_elem_of_here|].
    unfold checksum, dictionary_rows. by rewrite (Hsame h s h0 s' d d').
Qed.

(** *** The mutations on whole tables *)

Lemma filter_idemp {X} (P : X → Prop) `{!∀ x, Decision (P x)} (l : list X) :
  filter P (filter P l) = filter P l.
Proof. by apply list_filter_filter_l. Qed.

Lemma apply_command_pointwise `{Tabular R} (dicts : gmap string Dictionary)
    (cmd : AlterCommand) (f : R → R) (l : list R) :
  (∀ r, r ∈ l → mutate_row dicts cmd r = Some [f r]) →
  apply_command dicts cmd l = Some (f <$> l).
Proof.
  unfold apply_command. induction l as [|r l IH]; intros Hrow; [reflexivity|].
  simpl. rewrite (Hrow r) by apply list_elem_of_here. simpl.
  specialize (IH (λ r' Hr', Hrow r' (list_elem_of_further _ _ _ Hr'))).
  destruct (mapM (mutate_row dicts cmd) l) as [ls|]; [|discriminate].
  simpl in *. injection IH as IH. by rewrite IH.
Qed.

(** X18: the DELETE mutation on a whole table keeps a part of the rows in
    their order, and applying it again to what it kept removes nothing
    more. *)
Theorem delete_mutation_is_idempotent
    (self : PersonOverridesSnapshotDictionary)
    (dicts : gmap string Dictionary) (d : Dictionary) (l : list Override.Row) :
  dicts !! PersonOverridesSnapshotDictionary_qualified_name self = Some d →
  ∃ l',
    apply_command dicts (overrides_delete_command self) l = Some l'
    ∧ l' `sublist_of` l
    ∧ apply_command dicts (overrides_delete_command self) l' = Some l'.
Proof.
  intros Hd.
  assert (∀ l0, apply_command dicts (overrides_delete_command self) l0
                = Some (filter (λ o, negb (superseded d o) = true) l0)) as Happly.
  { intros l0. apply (mapM_mutate_row dicts (overrides_delete_command self)
                        (λ o, negb (superseded d o))).
    intros o _. by apply delete_override_row. }
  eexists. split; [apply Happly|]. split; [apply sublist_filter|].
  rewrite Happly. f_equal. apply filter_idemp.
Qed.

Lemma has_key_columns_spec (row : Event.Row) :
  has_key_columns row = true ↔
  ∃ team distinct,
    row !! "team_id" = Some (VInt team) ∧ row !! "distinct_id" = Some (VStr distinct)
    ∧ is_Some (row !! "person_id").
Proof.
  unfold has_key_columns. split.
  - destruct (row !! "team_id") as [[]|]; try done.
    destruct (row !! "distinct_id") as [[]|]; try done.
    destruct (row !! "person_id") eqn:Hp; try done. eauto 6.
  - intros (team & distinct & -> & -> & [p ->]). done.
Qed.

Lemma update_event_rewritten (self : PersonOverridesSnapshotDictionary)
    (dicts : gmap string Dictionary) (d : Dictionary) (row : Event.Row) :
  dicts !! PersonOverridesSnapshotDictionary_qualified_name self = Some d →
  has_key_columns row = true →
  mutate_row dicts (person_id_update_command self) row = Some [rewritten d row].
Proof.
  intros Hd (team & distinct & Hteam & Hdistinct & Hperson)%has_key_columns_spec.
  rewrite (update_event_row self dicts d row team distinct) by done.
  unfold rewritten. by rewrite Hteam, Hdistinct.
Qed.

Lemma rewritten_has_key_columns (d : Dictionary) (row : Event.Row) :
  has_key_columns row = true → has_key_columns (rewritten d row) = true.
Proof.
  intros Hrow. pose proof Hrow as (team & distinct & Hteam & Hdistinct & Hperson)
    %has_key_columns_spec.
  unfold rewritten. rewrite Hteam, Hdistinct.
  destruct (dict_data d !! (team, distinct)) as [entry|]; [|done].
  apply has_key_columns_spec. exists team, distinct.
  rewrite !lookup_insert_ne by done. rewrite lookup_insert_eq. eauto.
Qed.

Lemma rewritten_idemp (d : Dictionary) (row : Event.Row) :
  has_key_columns row = true → rewritten d (rewritten d row) = rewritten d row.
Proof.
  intros (team & distinct & Hteam & Hdistinct & Hperson)%has_key_columns_spec.
  unfold rewritten at 2. rewrite Hteam, Hdistinct.
  destruct (dict_data d !! (team, distinct)) as [entry|] eqn:Hentry.
  - unfold rewritten. rewrite !lookup_insert_ne by done.
    rewrite Hteam, Hdistinct, Hentry. apply insert_insert_eq.
  - unfold rewritten. by rewrite Hteam, Hdistinct, Hentry.
Qed.

(** X19: the UPDATE mutation on a whole events table whose rows have the
    key columns rewrites row by row, keeps the number and the order of the
    rows, and applying it again changes nothing. *)
Theorem update_mutation_is_idempotent
    (self : PersonOverridesSnapshotDictionary)
    (dicts : gmap string Dictionary) (d : Dictionary) (l : list Event.Row) :
  dicts !! PersonOverridesSnapshotDictionary_qualified_name self = Some d →
  Forall (λ row, has_key_columns row = true) l →
  apply_command dicts (person_id_update_command self) l = Some (rewritten d <$> l)
  ∧ apply_command dicts (person_id_update_command self) (rewritten d <$> l)
    = Some (rewritten d <$> l).
Proof.
  intros Hd Hl. rewrite Forall_forall in Hl. split.
  - apply apply_command_pointwise. intros row Hrow.
    apply update_event_rewritten; [done|]. by apply Hl.
  - rewrite (apply_command_pointwise dicts _ (rewritten d)).
    + f_equal. rewrite <- list_fmap_compose. apply list_fmap_ext.
      intros i row Hrow. apply rewritten_idemp, Hl.
      by apply list_elem_of_lookup_2 in Hrow.
    + intros row' (row & -> & Hrow)%list_elem_of_fmap.
      apply update_event_rewritten; [done|]. by apply rewritten_has_key_columns, Hl.
Qed.

(** X20: on a host that does not have the job's dictionary both mutations
    fail on the first row they meet: neither command can be evaluated
    without the dictionary. *)
Theorem mutations_need_the_dictionary
    (self : PersonOverridesSnapshotDictionary) (dicts : gmap string Dictionary) :
  dicts !! PersonOverridesSnapshotDictionary_qualified_name self = None →
  (∀ o l, apply_command dicts (overrides_delete_command self) (o :: l) = None)
  ∧ (∀ row l, apply_command dicts (person_id_update_command self) (row :: l) = None).
Proof.
  intros Hd. split.
  - intros o l. unfold apply_command. cbn [mapM].
    assert (mutate_row dicts (overrides_delete_command self) o = None) as ->; [|done].
    unfold mutate_row, overrides_delete_command, satisfies, eval_top. cbn.
    by rewrite Hd.
  - intros row l. unfold apply_command. cbn [mapM].
    assert (mutate_row dicts (person_id_update_command self) row = None) as ->; [|done].
    unfold mutate_row, person_id_update_command, satisfies, eval_top. cbn.
    by rewrite Hd.
Qed.

(** *** From the snapshot to the mutations *)

Lemma snapshot_entries_latest (cutoff : Z) (l : list Override.Row) :
  snapshot_entries (latest_overrides cutoff l)
  = aggregate (filter (λ o, Override._timestamp o < cutoff) l).
Proof.
  unfold snapshot_entries, latest_overrides. rewrite <- list_fmap_compose.
  etrans; [|apply list_to_map_to_list]. f_equal.
  etrans; [|apply list_fmap_id]. apply list_fmap_ext.
  by intros i [[??][??]] Hi.
Qed.

(** X21: with a dictionary that holds the snapshot taken at the cutoff,
    the DELETE mutation removes every override written before the cutoff.
    An override stays exactly when its version is above the versions of
    all overrides of its key written before the cutoff. *)
Theorem delete_removes_every_snapshotted_override
    (self : PersonOverridesSnapshotDictionary)
    (dicts : gmap string Dictionary) (d : Dictionary) (l : list Override.Row)
    (cutoff : Z) :
  dicts !! PersonOverridesSnapshotDictionary_qualified_name self = Some d →
  dict_data d = snapshot_entries (latest_overrides cutoff l) →
  ∃ l',
    apply_command dicts (overrides_delete_command self) l = Some l'
    ∧ (∀ o, o ∈ l → Override._timestamp o < cutoff → o ∉ l')
    ∧ (∀ o, o ∈ l' ↔
         o ∈ l
         ∧ ∀ o', o' ∈ l → Override._timestamp o' < cutoff →
                 Override.key o' = Override.key o →
                 Override.version o' < Override.version o).
Proof.
  intros Hd Hdata. rewrite snapshot_entries_latest in Hdata.
  pose proof (mapM_mutate_row dicts (overrides_delete_command self)
                (λ o, negb (superseded d o)) l
                (λ o _, delete_override_row self dicts d o Hd)) as Happly.
  eexists. split; [exact Happly|].
  assert (∀ o, o ∈ filter (λ o, negb (superseded d o) = true) l ↔
            o ∈ l
            ∧ ∀ o', o' ∈ l → Override._timestamp o' < cutoff →
                    Override.key o' = Override.key o →
                    Override.version o' < Override.version o) as Hkept.
  { intros o. rewrite list_elem_of_filter.
    unfold superseded, snapshot_version. rewrite Hdata.
    pose proof (aggregate_lookup
                  (filter (λ o, Override._timestamp o < cutoff) l) (Override.key o))
      as Hlatest.
    destruct (aggregate _ !! Override.key o) as [[p s]|]; cbn [fmap option_fmap option_map snd].
    - destruct Hlatest as (o1 & Ho1 & Hk1 & _ & Hv1 & Hmax). cbn [fst snd] in *.
      apply list_elem_of_filter in Ho1 as [Ht1 Ho1].
      destruct (Z.leb_spec (Override.version o) s) as [Hle|Hgt]; cbn [negb].
      + split; [by intros [? _]|]. intros [_ Hall].
        specialize (Hall o1 Ho1 Ht1 Hk1). lia.
      + split; [|by intros [? _]]. intros [_ Ho]. split; [done|].
        intros o' Ho' Ht' Hk'.
        assert (Override.version o' <= s); [|lia].
        apply Hmax; [|done]. by apply list_elem_of_filter.
    - cbn [negb]. split; [|by intros [? _]]. intros [_ Ho]. split; [done|].
      intros o' Ho' Ht' Hk'. exfalso. apply (Hlatest o'); [|done].
      by apply list_elem_of_filter. }
  split; [|exact Hkept].
  intros o Ho Ht [_ Hall]%Hkept. specialize (Hall o Ho Ht eq_refl). lia.
Qed.

(** X22: with a dictionary that holds the snapshot taken at the cutoff,
    the UPDATE mutation gives an event the person of an override of its key
    written before the cutoff whose version is the largest among them, and
    leaves an event alone whose key has no such override. *)
Theorem update_gives_events_the_latest_person
    (self : PersonOverridesSnapshotDictionary)
    (dicts : gmap string Dictionary) (d : Dictionary) (l : list Override.Row)
    (cutoff : Z) (row : Event.Row) (team : Z) (distinct : string) :
  dicts !! PersonOverridesSnapshotDictionary_qualified_name self = Some d →
  dict_data d = snapshot_entries (latest_overrides cutoff l) →
  row !! "team_id" = Some (VInt team) →
  row !! "distinct_id" = Some (VStr distinct) →
  is_Some (row !! "person_id") →
  let eligible :=
    filter (λ o, Override._timestamp o < cutoff ∧ Override.key o = (team, distinct)) l in
  ∃ row',
    mutate_row dicts (person_id_update_command self) row = Some [row']
    ∧ (eligible = [] → row' = row)
    ∧ (eligible ≠ [] →
       ∃ o, o ∈ eligible
            ∧ (∀ o', o' ∈ eligible → Override.version o' <= Override.version o)
            ∧ row' = <["person_id" := VUUID (Override.person_id o)]> row).
Proof.
  intros Hd Hdata Hteam Hdistinct Hperson eligible.
  rewrite snapshot_entries_latest in Hdata.
  rewrite (update_event_row self dicts d row team distinct) by done.
  eexists. split; [reflexivity|]. rewrite Hdata.
  pose proof (aggregate_lookup
                (filter (λ o, Override._timestamp o < cutoff) l) (team, distinct))
    as Hlatest.
  assert (∀ o, o ∈ eligible ↔
            o ∈ filter (λ o, Override._timestamp o < cutoff) l
            ∧ Override.key o = (team, distinct)) as Heligible.
  { intros o. subst eligible. rewrite !list_elem_of_filter. tauto. }
  destruct (aggregate _ !! (team, distinct)) as [[p s]|].
  - destruct Hlatest as (o1 & Ho1 & Hk1 & Hp1 & Hv1 & Hmax). cbn [fst snd] in *.
    split.
    + intros Hnone. exfalso. assert (o1 ∈ eligible) as Hin by by apply Heligible.
      rewrite Hnone in Hin. by apply not_elem_of_nil in Hin.
    + intros _. exists o1. split; [by apply Heligible|]. split; [|by rewrite Hp1].
      intros o' [Ho' Hk']%Heligible. rewrite Hv1. by apply Hmax.
  - split; [done|]. intros Hsome. exfalso.
    destruct eligible as [|o rest] eqn:He; [done|].
    assert (o ∈ o :: rest) as Hin by apply list_elem_of_here.
    apply Heligible in Hin as [Hin Hk]. by apply (Hlatest o).
Qed.

(** *** More on the enqueue methods *)

Lemma enqueue_server (self : PersonOverridesSnapshotDictionary)
    (table command_kind : string) (cmd : AlterCommand) (c : Client) :
  server (enqueue self table command_kind cmd c).2 = server c
  ∨ server (enqueue self table command_kind cmd c).2
    = add_mutation (new_mutation CLICKHOUSE_DATABASE table cmd (server c)) (server c).
Proof.
  unfold enqueue, bind. rewrite find_existing_mutation_eq.
  destruct (existing_mutations self table command_kind (server c)) as [|r [|r' l]];
    [|by left..].
  right. rewrite execute_eq. cbn [run fst snd]. rewrite find_existing_mutation_eq.
  cbn [server].
  destruct (existing_mutations _ _ _ _) as [|r [|r' l]]; reflexivity.
Qed.

Lemma existing_mutations_add (self : PersonOverridesSnapshotDictionary)
    (table command_kind : string) (r : SystemMutations.Row) (s : Server) :
  is_existing_mutation self table command_kind r = false →
  existing_mutations self table command_kind (add_mutation r s)
  = existing_mutations self table command_kind s.
Proof.
  intros Hr. unfold existing_mutations. cbn [add_mutation mutations].
  rewrite filter_cons, decide_False; [done|]. by rewrite Hr.
Qed.

Lemma is_existing_mutation_kind (self : PersonOverridesSnapshotDictionary)
    (table command_kind : string) (r : SystemMutations.Row) :
  String.prefix command_kind (SystemMutations.command r) = false →
  is_existing_mutation self table command_kind r = false.
Proof.
  intros Hkind. unfold is_existing_mutation. rewrite Hkind.
  by rewrite andb_false_r.
Qed.

(** X23: the two enqueue methods do not take each other's mutation for
    their own: the rows that the DELETE lookup selects are the same before
    and after the UPDATE has been enqueued, and the other way round, also
    when both mutations are on the same table. *)
Theorem enqueues_do_not_see_each_other
    (self : PersonOverridesSnapshotDictionary) (table : string) (c : Client) :
  existing_mutations self table "DELETE"
    (server (PersonOverridesSnapshotDictionary_enqueue_person_id_update_mutation self c).2)
  = existing_mutations self table "DELETE" (server c)
  ∧ existing_mutations self table "UPDATE"
      (server (PersonOverridesSnapshotDictionary_enqueue_overrides_delete_mutation self c).2)
    = existing_mutations self table "UPDATE" (server c).
Proof.
  rewrite enqueue_person_id_update_mutation_eq, enqueue_overrides_delete_mutation_eq.
  split.
  - destruct (enqueue_server self EVENTS_DATA_TABLE "UPDATE"
                (person_id_update_command self) c) as [->| ->]; [done|].
    apply existing_mutations_add, is_existing_mutation_kind. reflexivity.
  - destruct (enqueue_server self PERSON_DISTINCT_ID_OVERRIDES_TABLE "DELETE"
                (overrides_delete_command self) c) as [->| ->]; [done|].
    apply existing_mutations_add, is_existing_mutation_kind. reflexivity.
Qed.

Lemma existing_mutations_killed (self : PersonOverridesSnapshotDictionary)
    (table command_kind : string) (s : Server) :
  (∀ r, r ∈ mutations s → SystemMutations.table r = table →
        SystemMutations.is_killed r = true) →
  existing_mutations self table command_kind s = [].
Proof.
  intros Hkilled. unfold existing_mutations.
  induction (mutations s) as [|r l IH]; [done|].
  rewrite filter_cons, decide_False.
  - apply IH. intros r' Hr'. apply Hkilled. by apply list_elem_of_further.
  - unfold is_existing_mutation.
    destruct (String.eqb_spec (SystemMutations.table r) table) as [Ht|Ht].
    + rewrite (Hkilled r); [|apply list_elem_of_here|done].
      by rewrite andb_false_r.
    + by rewrite andb_false_r.
Qed.

(** X24: a killed mutation is not taken for an existing one.  On a host
    where every mutation of the table has been killed, an enqueue sends the
    ALTER again and returns the mutation that the server registers for
    it. *)
Theorem killed_mutations_are_enqueued_again
    (self : PersonOverridesSnapshotDictionary) (c : Client) :
  no_backslash CLICKHOUSE_DATABASE = true → no_quote CLICKHOUSE_DATABASE = true →
  ((∀ r, r ∈ mutations (server c) → SystemMutations.table r = EVENTS_DATA_TABLE →
         SystemMutations.is_killed r = true) →
   let r := new_mutation CLICKHOUSE_DATABASE EVENTS_DATA_TABLE
              (person_id_update_command self) (server c) in
   let find := find_existing_mutation_query self EVENTS_DATA_TABLE "UPDATE" in
   PersonOverridesSnapshotDictionary_enqueue_person_id_update_mutation self c
   = (Returned {| table := EVENTS_DATA_TABLE;
                  mutation_id := SystemMutations.mutation_id r |},
      {| server := add_mutation r (server c);
         journal := journal c
           ++ [find;
               AlterTable CLICKHOUSE_DATABASE EVENTS_DATA_TABLE
                 (person_id_update_command self);
               find] |}))
  ∧ ((∀ r, r ∈ mutations (server c) →
           SystemMutations.table r = PERSON_DISTINCT_ID_OVERRIDES_TABLE →
           SystemMutations.is_killed r = true) →
     let r := new_mutation CLICKHOUSE_DATABASE PERSON_DISTINCT_ID_OVERRIDES_TABLE
                (overrides_delete_command self) (server c) in
     let find :=
       find_existing_mutation_query self PERSON_DISTINCT_ID_OVERRIDES_TABLE "DELETE" in
     PersonOverridesSnapshotDictionary_enqueue_overrides_delete_mutation self c
     = (Returned {| table := PERSON_DISTINCT_ID_OVERRIDES_TABLE;
                    mutation_id := SystemMutations.mutation_id r |},
        {| server := add_mutation r (server c);
           journal := journal c
             ++ [find;
                 AlterTable CLICKHOUSE_DATABASE PERSON_DISTINCT_ID_OVERRIDES_TABLE
                   (overrides_delete_command self);
                 find] |})).
Proof.
  intros Hb Hq.
  rewrite enqueue_person_id_update_mutation_eq, enqueue_overrides_delete_mutation_eq.
  split.
  - intros Hkilled.
    apply (enqueue_fresh self EVENTS_DATA_TABLE "UPDATE"
             (person_id_update_command self) c Hb eq_refl
             (update_command_names_dictionary self Hb Hq)).
    by apply existing_mutations_killed.
  - intros Hkilled.
    apply (enqueue_fresh self PERSON_DISTINCT_ID_OVERRIDES_TABLE "DELETE"
             (overrides_delete_command self) c Hb eq_refl
             (delete_command_names_dictionary self Hb Hq)).
    by apply existing_mutations_killed.
Qed.

(** X25: when the lookup selects more than one live mutation, an enqueue
    stops at the assertion of the lookup: no ALTER is sent and the host is
    unchanged. *)
Theorem enqueue_refuses_ambiguous_mutations
    (self : PersonOverridesSnapshotDictionary) (c : Client) :
  ((2 <= length (existing_mutations self EVENTS_DATA_TABLE "UPDATE" (server c)))%nat →
   PersonOverridesSnapshotDictionary_enqueue_person_id_update_mutation self c
   = (Raised AssertionError,
      {| server := server c;
         journal := journal c
           ++ [find_existing_mutation_query self EVENTS_DATA_TABLE "UPDATE"] |}))
  ∧ ((2 <= length (existing_mutations self PERSON_DISTINCT_ID_OVERRIDES_TABLE
                     "DELETE" (server c)))%nat →
     PersonOverridesSnapshotDictionary_enqueue_overrides_delete_mutation self c
     = (Raised AssertionError,
        {| server := server c;
           journal := journal c
             ++ [find_existing_mutation_query self
                   PERSON_DISTINCT_ID_OVERRIDES_TABLE "DELETE"] |})).
Proof.
  rewrite enqueue_person_id_update_mutation_eq, enqueue_overrides_delete_mutation_eq.
  split; intros Hlen; unfold enqueue, bind; rewrite find_existing_mutation_eq;
    destruct (existing_mutations _ _ _ _) as [|r [|r' l]]; simpl in Hlen;
    solve [lia | reflexivity].
Qed.

(** *** The ops on the cluster *)

Lemma bind_returned {S A B} (m : M S A) (k : A → M S B) (s s' : S) (b : B) :
  bind m k s = (Returned b, s') →
  ∃ a s1, m s = (Returned a, s1) ∧ k a s1 = (Returned b, s').
Proof.
  unfold bind. destruct (m s) as [[a|e|] s1]; try discriminate. eauto.
Qed.

Lemma result_state {A} (futures : FutureList A) (cl : Cluster) :
  (result futures cl).2 = (futures cl).2.
Proof.
  unfold result, bind. destruct (futures cl) as [[outs|e|] cl1]; try reflexivity.
  by destruct (collect outs) as [[vs|es]|].
Qed.

Lemma result_any_state {A} (future : FutureList A) (cl : Cluster) :
  (result_any future cl).2 = (future cl).2.
Proof.
  unfold result_any, bind. rewrite <- result_state.
  destruct (result future cl) as [[[|[h a] vs]|e|] cl1]; reflexivity.
Qed.

Lemma bind_ret_state {S A B} (m : M S A) (f : A → B) (s : S) :
  (bind m (λ a, ret (f a)) s).2 = (m s).2.
Proof. unfold bind, ret. by destruct (m s) as [[a|e|] s1]. Qed.

Lemma visit_events {A} (pick : HostInfo → bool) (fn : M Client A)
    (l : list (HostInfo * Server)) (e : Event) :
  e ∈ (visit pick fn l).2 → ∃ h q, e = Sent h q ∧ pick h = true.
Proof.
  induction l as [|[h s] l IH]; simpl.
  - by intros ?%not_elem_of_nil.
  - destruct (visit pick fn l) as [[outs l'] evs]. simpl in IH.
    destruct (pick h) eqn:Hpick; [|exact IH].
    destruct (fn _) as [o c]. simpl.
    intros [(q & -> & _)%list_elem_of_fmap|He]%elem_of_app; [eauto|by apply IH].
Qed.

Lemma submit_log {A} (pick : list HostInfo → HostInfo → bool) (fn : M Client A)
    (cl : Cluster) :
  ∃ evs, log (submit pick fn cl).2 = log cl ++ evs
         ∧ ∀ e, e ∈ evs → ∃ h q, e = Sent h q ∧ pick (hosts cl) h = true.
Proof.
  unfold submit.
  pose proof (visit_events (pick (hosts cl)) fn (nodes cl)) as Hev.
  destruct (visit (pick (hosts cl)) fn (nodes cl)) as [[outs l] evs].
  exists evs. split; [done|]. exact Hev.
Qed.

Lemma submit_nodes {A} (pick : list HostInfo → HostInfo → bool) (fn : M Client A)
    (cl : Cluster) :
  nodes (submit pick fn cl).2
  = (λ hs, if pick (hosts cl) hs.1 then (hs.1, task_server fn hs.2) else hs)
      <$> nodes cl.
Proof. destruct (submit_eq pick fn cl) as [evs ->]. reflexivity. Qed.

(** X26: [populate_snapshot_table] runs [populate] through [any_host], so
    it writes on one host only: every host but the selected one (the first
    of the topology) is left as it was, and every statement of the op is a
    statement of [populate] sent to that host. *)
Theorem populate_snapshot_table_writes_on_one_host
    (table : PersonOverridesSnapshotTable) (cl : Cluster) :
  let cl' := (populate_snapshot_table table cl).2 in
  hosts cl' = hosts cl
  ∧ (∀ h s, (h, s) ∈ nodes cl → head (hosts cl) ≠ Some h → (h, s) ∈ nodes cl')
  ∧ ∃ evs, log cl' = log cl ++ evs
           ∧ ∀ e, e ∈ evs → ∃ h q, e = Sent h q ∧ head (hosts cl) = Some h
                                   ∧ allowed Op_populate_snapshot_table q = true.
Proof.
  intros cl'. subst cl'. unfold populate_snapshot_table.
  rewrite (bind_ret_state _ (λ _, table)), result_any_state. unfold any_host.
  split; [|split].
  - unfold hosts at 1. rewrite submit_nodes. apply hosts_preserved.
    intros [h s]. cbn [fst snd]. by destruct (bool_decide _).
  - intros h s Hin Hhead. rewrite submit_nodes.
    apply list_elem_of_fmap. exists (h, s). split; [|done]. cbn [fst snd].
    by rewrite bool_decide_eq_false_2.
  - destruct (submit_log (λ all h, bool_decide (head all = Some h))
                (PersonOverridesSnapshotTable_populate table) cl) as (evs & Hlog & Hev).
    exists evs. split; [done|]. intros e He.
    destruct (Hev e He) as (h & q & -> & Hpick). exists h, q.
    split; [done|]. split; [by apply bool_decide_eq_true_1 in Hpick|].
    destruct (sends_submit (allowed Op_populate_snapshot_table)
                (λ all h, bool_decide (head all = Some h))
                (PersonOverridesSnapshotTable_populate table)
                (issues_table_populate table) cl) as (evs' & Hlog' & Hall).
    rewrite Hlog in Hlog'. apply app_inv_head in Hlog'. subst evs'.
    rewrite forallb_forall in Hall. apply (Hall (Sent h q)).
    by apply list_elem_of_In.
Qed.

(** X27: a cluster without hosts.  No checksum is reported, so the count
    of distinct checksums is zero and verification fails its assertion;
    the update mutations are started for no shard, and waiting for the
    mutations of no shard raises TypeError, as [reduce] does on an empty
    sequence. *)
Theorem no_hosts_no_run (polls : nat) (dictionary : PersonOverridesSnapshotDictionary)
    (cl : Cluster) :
  nodes cl = [] →
  (load_and_verify_snapshot_dictionary polls dictionary cl).1 = Raised AssertionError
  ∧ (start_person_id_update_mutations dictionary cl).1 = Returned (dictionary, ∅)
  ∧ wait_for_person_id_update_mutations polls (dictionary, ∅) cl = (Raised TypeError, cl).
Proof.
  intros Hnodes. split; [|split].
  - unfold load_and_verify_snapshot_dictionary, result, map_all_hosts, submit, bind.
    rewrite Hnodes. reflexivity.
  - unfold start_person_id_update_mutations, result, map_one_host_per_shard, submit, bind.
    rewrite Hnodes. reflexivity.
  - unfold wait_for_person_id_update_mutations. rewrite map_to_list_empty. reflexivity.
Qed.

(** X28: when [wait_for_overrides_delete_mutations] returns, it returns
    the dictionary it was given, the topology is unchanged, and every host
    of the cluster reports the mutation as done. *)
Theorem wait_for_overrides_delete_mutations_waits_on_every_host
    (polls : nat) (dictionary dictionary' : PersonOverridesSnapshotDictionary)
    (mutation : Mutation) (cl cl' : Cluster) :
  wait_for_overrides_delete_mutations polls (dictionary, mutation) cl
    = (Returned dictionary', cl') →
  dictionary' = dictionary
  ∧ hosts cl' = hosts cl
  ∧ ∀ h s', (h, s') ∈ nodes cl' → mutation_done mutation s'.
Proof.
  unfold wait_for_overrides_delete_mutations.
  intros (values & cl1 & Hres & [= <- <-])%bind_returned.
  apply result_returned in Hres. unfold map_all_hosts in Hres.
  destruct (submit_eq (λ _ _, true) (Mutation_wait polls mutation) cl) as (evs & Hsubmit).
  rewrite Hsubmit in Hres. injection Hres as Houts <-.
  split; [done|].
  split; [unfold hosts; cbn [nodes]; apply hosts_preserved; by intros [??]|].
  cbn [nodes]. intros h s' ([h0 s] & [= -> ->] & Hin)%list_elem_of_fmap.
  cbn [fst snd].
  assert ((h0, task_outcome (Mutation_wait polls mutation) s)
            ∈ (λ ha : HostInfo * unit, (ha.1, Returned ha.2)) <$> values) as Hout.
  { rewrite <- Houts. apply list_elem_of_fmap. exists (h0, s). split; [done|].
    by apply list_elem_of_filter. }
  apply list_elem_of_fmap in Hout as ([h1 []] & [= _ Hout] & _).
  unfold task_outcome in Hout. unfold task_server.
  destruct (Mutation_wait polls mutation {| server := s; journal := [] |})
    as [o c1] eqn:Hwait.
  cbn [fst snd] in *. subst o. by apply Mutation_wait_returned in Hwait.
Qed.

Lemma index_of_drop (k : nat) (op : Op) (q : Query) :
  pipeline !! k = Some op → allowed op q = true → is_drop q = true →
  (9 <= k)%nat.
Proof.
  intros Hop Hallowed Hq. destruct q; try discriminate;
    do 9 (destruct k as [|k]; [injection Hop as <-; discriminate|]); lia.
Qed.

(** X29: in every run of the job, whatever its outcome, a DROP is sent to
    a host only after both waiting ops have finished: a run that fails
    before the mutations are done leaves the snapshot table and the
    dictionary in place. *)
Theorem cleanup_follows_the_mutations (run : Run) (cl : Cluster) :
  ∃ evs,
    log (execute_job run squash_person_overrides cl).2 = log cl ++ evs
    ∧ ∀ i h q, evs !! i = Some (Sent h q) → is_drop q = true →
        OpFinished Op_wait_for_person_id_update_mutations ∈ take i evs
        ∧ OpFinished Op_wait_for_overrides_delete_mutations ∈ take i evs.
Proof.
  destruct (squash_person_overrides_reaches run cl) as (evs & s & Hlog & Hacc & _).
  exists evs. split; [done|]. intros i h q He Hq.
  destruct (sent_while_running s evs i h q Hacc He) as (k & op & Hop & Hallowed & Hup).
  pose proof (index_of_drop k op q Hop Hallowed Hq) as Hk.
  split; [apply (Hup 6%nat)|apply (Hup 8%nat)]; solve [lia|reflexivity].
Qed.

(** *** A whole run *)

Lemma keeps_hosts_ret {A} (a : A) : keeps_hosts (ret a).
Proof. by intros cl. Qed.

Lemma keeps_hosts_raise {A} (e : PyError) : keeps_hosts (@raise _ A e).
Proof. by intros cl. Qed.

Lemma keeps_hosts_pending {A} : keeps_hosts (@pending _ A).
Proof. by intros cl. Qed.

Lemma keeps_hosts_assert (cond : bool) : keeps_hosts (assert cond).
Proof. by destruct cond. Qed.

Lemma keeps_hosts_record (e : Event) : keeps_hosts (record e).
Proof. by intros cl. Qed.

Lemma keeps_hosts_bind {A B} (m : M Cluster A) (k : A → M Cluster B) :
  keeps_hosts m → (∀ a, keeps_hosts (k a)) → keeps_hosts (bind m k).
Proof.
  intros Hm Hk cl. specialize (Hm cl). unfold bind.
  destruct (m cl) as [[a|e|] cl1]; simpl in *; try done.
  by rewrite Hk.
Qed.

Lemma keeps_hosts_submit {A} (pick : list HostInfo → HostInfo → bool)
    (fn : M Client A) :
  keeps_hosts (submit pick fn).
Proof.
  intros cl. unfold hosts at 1. rewrite submit_nodes. apply hosts_preserved.
  intros [h s]. cbn [fst snd]. by destruct (pick _ _).
Qed.

Lemma keeps_hosts_merge {A} (x y : FutureList A) :
  keeps_hosts x → keeps_hosts y → keeps_hosts (merge x y).
Proof.
  intros Hx Hy. unfold merge. apply keeps_hosts_bind; [done|]. intros rx.
  apply keeps_hosts_bind; [done|]. intros ry. apply keeps_hosts_ret.
Qed.

Lemma keeps_hosts_fold_merge {A} (rest : list (FutureList A)) (x : FutureList A) :
  keeps_hosts x → Forall keeps_hosts rest → keeps_hosts (fold_left merge rest x).
Proof.
  revert x. induction rest as [|y rest IH]; intros x Hx Hrest; [done|].
  simpl. apply Forall_cons in Hrest as [Hy Hrest].
  apply IH; [by apply keeps_hosts_merge|done].
Qed.

Lemma keeps_hosts_result {A} (futures : FutureList A) :
  keeps_hosts futures → keeps_hosts (result futures).
Proof. intros H cl. by rewrite result_state. Qed.

Lemma keeps_hosts_result_any {A} (future : FutureList A) :
  keeps_hosts future → keeps_hosts (result_any future).
Proof. intros H cl. by rewrite result_any_state. Qed.

Ltac keeps_hosts_step :=
  first
    [ apply keeps_hosts_ret | apply keeps_hosts_raise | apply keeps_hosts_assert
    | apply keeps_hosts_record
    | apply keeps_hosts_result_any | apply keeps_hosts_result
    | apply keeps_hosts_submit
    | apply keeps_hosts_bind; [|intros] ].

Lemma keeps_hosts_wait_for_person_id_update_mutations (polls : nat)
    (inputs : PersonOverridesSnapshotDictionary * gmap Z Mutation) :
  keeps_hosts (wait_for_person_id_update_mutations polls inputs).
Proof.
  destruct inputs as [dictionary shard_mutations].
  unfold wait_for_person_id_update_mutations.
  assert (Hall : Forall keeps_hosts
            ((λ sm : Z * Mutation,
                map_all_hosts_in_shard sm.1 (Mutation_wait polls sm.2))
               <$> map_to_list shard_mutations)).
  { apply Forall_fmap, Forall_forall. intros [shard mutation] _.
    apply keeps_hosts_submit. }
  destruct (_ <$> map_to_list shard_mutations) as [|x rest].
  - apply (keeps_hosts_raise TypeError).
  - apply Forall_cons in Hall as [Hx Hrest].
    change (keeps_hosts (result (fold_left merge rest x) ;; ret dictionary)).
    apply keeps_hosts_bind; [|intros; apply keeps_hosts_ret].
    by apply keeps_hosts_result, keeps_hosts_fold_merge.
Qed.

Lemma keeps_hosts_compute (run : Run) (op : Op) (args : list Output) :
  keeps_hosts (compute run op args).
Proof.
  destruct op, args as [|[] [|]]; simpl; try apply keeps_hosts_raise.
  - unfold create_snapshot_table. repeat keeps_hosts_step.
  - unfold populate_snapshot_table. repeat keeps_hosts_step.
  - unfold wait_for_snapshot_table_replication. repeat keeps_hosts_step.
  - unfold create_snapshot_dictionary. repeat keeps_hosts_step.
  - unfold load_and_verify_snapshot_dictionary. repeat keeps_hosts_step.
  - unfold start_person_id_update_mutations. repeat keeps_hosts_step.
  - apply keeps_hosts_bind; [apply keeps_hosts_wait_for_person_id_update_mutations|].
    intros. apply keeps_hosts_ret.
  - unfold start_overrides_delete_mutations. repeat keeps_hosts_step.
  - unfold wait_for_overrides_delete_mutations. destruct inputs as [d m].
    repeat keeps_hosts_step.
  - unfold drop_snapshot_dictionary. repeat keeps_hosts_step.
  - unfold drop_snapshot_table. repeat keeps_hosts_step.
Qed.

Lemma keeps_hosts_stage (run : Run) (op : Op) (args : list Output) :
  keeps_hosts (stage run op args).
Proof.
  unfold stage. repeat keeps_hosts_step. apply keeps_hosts_compute.
Qed.

Lemma keeps_hosts_unary (run : Run) (op : Op) (i : Invocation) :
  keeps_hosts (execute_job run i) → keeps_hosts (execute_job run (Invoke op [i])).
Proof.
  intros Hi cl. rewrite execute_job_unary.
  apply keeps_hosts_bind; [done|]. intros x. apply keeps_hosts_stage.
Qed.

Lemma keeps_hosts_squash_person_overrides (run : Run) :
  keeps_hosts (execute_job run squash_person_overrides).
Proof.
  unfold squash_person_overrides, dictionary_after_override_delete_mutations,
    dictionary_after_person_id_update_mutations, prepared_dictionary,
    created_snapshot_dictionary, prepared_snapshot_table.
  do 10 apply keeps_hosts_unary.
  intros cl. rewrite execute_job_leaf. apply keeps_hosts_stage.
Qed.

Lemma compute_carries (run : Run) (op : Op) (args : list Output) (out : Output)
    (cl cl' : Cluster) :
  compute run op args cl = (Returned out, cl') →
  Forall (carries run) args → carries run out.
Proof.
  intros Hcompute Hargs.
  destruct op, args as [|[] [|]]; simpl in Hcompute; try discriminate;
    try (apply Forall_cons in Hargs as [Harg _]; simpl in Harg);
    apply bind_returned in Hcompute as (x & cl1 & Hop & [= <- <-]).
  - unfold create_snapshot_table in Hop.
    by apply bind_returned in Hop as (? & ? & _ & [= <- _]).
  - unfold populate_snapshot_table in Hop.
    by apply bind_returned in Hop as (? & ? & _ & [= <- _]).
  - unfold wait_for_snapshot_table_replication in Hop.
    by apply bind_returned in Hop as (? & ? & _ & [= <- _]).
  - unfold create_snapshot_dictionary in Hop.
    apply bind_returned in Hop as (? & ? & _ & [= <- _]). simpl. by subst.
  - unfold load_and_verify_snapshot_dictionary in Hop.
    apply bind_returned in Hop as (? & ? & _ & Hop).
    by apply bind_returned in Hop as (? & ? & _ & [= <- _]).
  - unfold start_person_id_update_mutations in Hop.
    by apply bind_returned in Hop as (? & ? & _ & [= <- _]).
  - destruct inputs as [d sm]. unfold wait_for_person_id_update_mutations in Hop.
    apply bind_returned in Hop as (? & ? & _ & Hop).
    by apply bind_returned in Hop as (? & ? & _ & [= <- _]).
  - unfold start_overrides_delete_mutations in Hop.
    by apply bind_returned in Hop as (? & ? & _ & [= <- _]).
  - destruct inputs as [d m]. unfold wait_for_overrides_delete_mutations in Hop.
    by apply bind_returned in Hop as (? & ? & _ & [= <- _]).
  - unfold drop_snapshot_dictionary in Hop.
    apply bind_returned in Hop as (? & ? & _ & [= <- _]). simpl. by subst.
  - done.
Qed.

Lemma stage_returned (run : Run) (op : Op) (args : list Output) (out : Output)
    (cl cl' : Cluster) :
  stage run op args cl = (Returned out, cl') →
  ∃ cl1,
    compute run op args {| nodes := nodes cl; log := log cl ++ [OpStarted op] |}
      = (Returned out, cl1)
    ∧ nodes cl' = nodes cl1.
Proof.
  unfold stage. intros ([] & cl0 & [= <-] & Hrest)%bind_returned.
  apply bind_returned in Hrest as (out' & cl1 & Hcompute & Hrest).
  apply bind_returned in Hrest as ([] & cl2 & [= <-] & [= <- <-]).
  by exists cl1.
Qed.

Lemma stage_carries (run : Run) (op : Op) (args : list Output) (out : Output)
    (cl cl' : Cluster) :
  stage run op args cl = (Returned out, cl') →
  Forall (carries run) args → carries run out.
Proof.
  intros (cl1 & Hcompute & _)%stage_returned. by eapply compute_carries.
Qed.

Lemma collect_returned {A} (values : list (HostInfo * A)) :
  collect ((λ ha, (ha.1, Returned ha.2)) <$> values) = Some (inl values).
Proof.
  induction values as [|[h a] values IH]; [done|].
  rewrite fmap_cons. cbn [collect fst snd]. by rewrite IH.
Qed.

Lemma filter_all {X} (P : X → Prop) `{!∀ x, Decision (P x)} (l : list X) :
  (∀ x, P x) → filter P l = l.
Proof.
  intros HP. induction l as [|x l IH]; [done|].
  by rewrite filter_cons, decide_True, IH.
Qed.

(** A task that returns on every host, run on all hosts. *)
Lemma map_all_hosts_total {A} (fn : M Client A) (a : A) (cl : Cluster) :
  (∀ c, (fn c).1 = Returned a) →
  ∃ evs,
    result (map_all_hosts fn) cl
    = (Returned ((λ hs, (hs.1, a)) <$> nodes cl),
       {| nodes := (λ hs, (hs.1, task_server fn hs.2)) <$> nodes cl;
          log := log cl ++ evs |}).
Proof.
  intros Hfn. unfold result, map_all_hosts, bind.
  destruct (submit_eq (λ _ _, true) fn cl) as (evs & ->). exists evs.
  rewrite filter_all by done.
  assert ((λ hs : HostInfo * Server, (hs.1, task_outcome fn hs.2)) <$> nodes cl
          = (λ ha : HostInfo * A, (ha.1, Returned ha.2))
              <$> ((λ hs : HostInfo * Server, (hs.1, a)) <$> nodes cl)) as ->.
  { rewrite <- list_fmap_compose. apply list_fmap_ext. intros i [h s] _.
    unfold task_outcome. cbn. by rewrite Hfn. }
  by rewrite collect_returned.
Qed.

Lemma drop_snapshot_dictionary_nodes (dictionary : PersonOverridesSnapshotDictionary)
    (cl : Cluster) :
  nodes (drop_snapshot_dictionary dictionary cl).2
  = (λ hs, (hs.1,
            set_dictionaries
              (delete (PersonOverridesSnapshotDictionary_qualified_name dictionary))
              hs.2)) <$> nodes cl.
Proof.
  unfold drop_snapshot_dictionary.
  assert (∀ c, (PersonOverridesSnapshotDictionary_drop dictionary c).1 = Returned tt)
    as Hdrop.
  { intros c. unfold PersonOverridesSnapshotDictionary_drop, bind.
    by rewrite execute_eq. }
  destruct (map_all_hosts_total _ tt cl Hdrop) as (evs & Hres).
  unfold bind at 1. rewrite Hres. cbn [snd nodes ret].
  apply list_fmap_ext. intros i [h s] _. reflexivity.
Qed.

Lemma drop_snapshot_table_nodes (table : PersonOverridesSnapshotTable) (cl : Cluster) :
  nodes (drop_snapshot_table table cl).2
  = (λ hs, (hs.1,
            set_tables (delete (PersonOverridesSnapshotTable_qualified_name table)) hs.2))
      <$> nodes cl.
Proof.
  unfold drop_snapshot_table.
  assert (∀ c, (PersonOverridesSnapshotTable_drop table c).1 = Returned tt) as Hdrop.
  { intros c. unfold PersonOverridesSnapshotTable_drop, bind. by rewrite execute_eq. }
  destruct (map_all_hosts_total _ tt cl Hdrop) as (evs & Hres).
  unfold bind at 1. rewrite Hres. cbn [snd nodes ret].
  apply list_fmap_ext. intros i [h s] _. reflexivity.
Qed.

Lemma created_snapshot_dictionary_carries (run : Run) (out : Output)
    (cl cl' : Cluster) :
  execute_job run created_snapshot_dictionary cl = (Returned out, cl') →
  carries run out.
Proof.
  unfold created_snapshot_dictionary, prepared_snapshot_table.
  rewrite execute_job_unary.
  intros (x2 & cl2 & H2 & Hstage3)%bind_returned.
  rewrite execute_job_unary in H2.
  apply bind_returned in H2 as (x1 & cl1 & H1 & Hstage2).
  rewrite execute_job_unary in H1.
  apply bind_returned in H1 as (x0 & cl0 & H0 & Hstage1).
  rewrite execute_job_leaf in H0.
  apply stage_carries in H0; [|done].
  apply stage_carries in Hstage1; [|by apply Forall_singleton].
  apply stage_carries in Hstage2; [|by apply Forall_singleton].
  apply stage_carries in Hstage3; [|by apply Forall_singleton]. done.
Qed.

(** X30: a run of the job that returns leaves none of its artifacts
    behind: the topology is as it was, and no host has the snapshot table
    of the run or the dictionary of the run any more. *)
Theorem successful_run_leaves_no_snapshot
    (run : Run) (cl cl' : Cluster) (out : Output) :
  execute_job run squash_person_overrides cl = (Returned out, cl') →
  out = OutNone
  ∧ hosts cl' = hosts cl
  ∧ ∀ h s, (h, s) ∈ nodes cl' →
      tables s !! PersonOverridesSnapshotTable_qualified_name (run_table run) = None
      ∧ dictionaries s
          !! PersonOverridesSnapshotDictionary_qualified_name (run_dictionary run) = None.
Proof.
  intros Hrun.
  pose proof (keeps_hosts_squash_person_overrides run cl) as Hhosts.
  rewrite Hrun in Hhosts. cbn [snd] in Hhosts.
  rewrite execute_job_squash_upstream in Hrun.
  apply bind_returned in Hrun as (d0 & cl0 & H0 & Hrun).
  apply created_snapshot_dictionary_carries in H0.
  apply bind_returned in Hrun as (d1 & cl1 & H1 & Hrun).
  apply stage_carries in H1; [|by apply Forall_singleton].
  apply bind_returned in Hrun as (d2 & cl2 & H2 & Hrun).
  apply stage_carries in H2; [|by apply Forall_singleton].
  apply bind_returned in Hrun as (d3 & cl3 & H3 & Hrun).
  apply stage_carries in H3; [|by apply Forall_singleton].
  apply bind_returned in Hrun as (d4 & cl4 & H4 & Hrun).
  apply stage_carries in H4; [|by apply Forall_singleton].
  apply bind_returned in Hrun as (d5 & cl5 & H5 & Hrun).
  apply stage_carries in H5; [|by apply Forall_singleton].
  apply bind_returned in Hrun as (d6 & cl6 & H6 & H7).
  pose proof (stage_carries _ _ _ _ _ _ H6 ltac:(by apply Forall_singleton)) as Hd6.
  apply stage_returned in H6 as (cl6' & H6 & Hnodes6).
  apply stage_returned in H7 as (cl7' & H7 & Hnodes7).
  destruct d5 as [|t5|dictionary|sm|dm]; try discriminate H6.
  destruct d6 as [|table|d6|sm|dm]; try discriminate H7.
  cbn [carries] in H5, Hd6. subst dictionary table.
  cbn [compute] in H6, H7.
  apply bind_returned in H6 as (t6 & cl6a & Hdrop_dictionary & [= _ <-]).
  apply bind_returned in H7 as ([] & cl7a & Hdrop_table & [= <- <-]).
  split; [done|]. split; [done|].
  apply (f_equal (λ r, nodes r.2)) in Hdrop_dictionary, Hdrop_table.
  rewrite drop_snapshot_dictionary_nodes in Hdrop_dictionary.
  rewrite drop_snapshot_table_nodes in Hdrop_table.
  cbn [snd nodes] in Hdrop_dictionary, Hdrop_table.
  intros h s Hin. rewrite Hnodes7, <- Hdrop_table in Hin.
  apply list_elem_of_fmap in Hin as ([h6 s6] & [= -> ->] & Hin6).
  rewrite Hnodes6, <- Hdrop_dictionary in Hin6.
  apply list_elem_of_fmap in Hin6 as ([h5 s5] & [= -> ->] & Hin5).
  cbn [fst snd set_tables set_dictionaries tables dictionaries].
  split; apply lookup_delete_eq.
Qed.

End Properties.

(** ** The scenario of the specification *)

(** The snapshot of the scenario: one row [(1, A, 9, 2)]. *)
Example populate_scenario :
  latest_overrides 20 demo_overrides = [demo_snapshot_row].
Proof. vm_compute. reflexivity. Qed.

(** The DELETE removes both overrides of [(1, A)] with versions at most 2
    and keeps the later one and the other key. *)
Example delete_scenario :
  apply_command demo_dictionaries
    (overrides_delete_command (deployment := demo) demo_dictionary) demo_overrides
  = Some [demo_override "A" 7 3 30; demo_override "B" 4 1 40].
Proof. vm_compute. reflexivity. Qed.

(** The UPDATE rewrites the event of [(1, A)] and leaves the other one. *)
Example update_scenario :
  apply_command demo_dictionaries
    (person_id_update_command (deployment := demo) demo_dictionary)
    [demo_event "A" 1 "pageview"; demo_event "C" 3 "click"]
  = Some [demo_event "A" 9 "pageview"; demo_event "C" 3 "click"].
Proof. vm_compute. reflexivity. Qed.

(** ** The theorems at work on the small deployment *)

Lemma delete_mutation_removes_superseded_overrides_witness :
  (∀ c q,
     q ∈ journal (demo_enqueue_delete c).2 →
     q ∈ journal c
     ∨ q = demo_find_query "person_distinct_id_overrides" "DELETE"
     ∨ q = AlterTable "default" "person_distinct_id_overrides"
             (overrides_delete_command (deployment := demo) demo_dictionary))
  ∧ ∃ l',
      apply_command demo_dictionaries
        (overrides_delete_command (deployment := demo) demo_dictionary) demo_overrides
      = Some l'
      ∧ (∀ o, o ∈ demo_overrides →
           (o ∉ l' ↔ ∃ p s, dict_data demo_loaded !! Override.key o = Some (p, s)
                             ∧ s >= Override.version o))
      ∧ (∀ o, o ∈ demo_overrides →
           dict_data demo_loaded !! Override.key o = None → o ∈ l')
      ∧ (∀ o, o ∈ l' → o ∈ demo_overrides).
Proof.
  apply (delete_mutation_removes_superseded_overrides (deployment := demo)
           demo_dictionary demo_dictionaries demo_loaded demo_overrides).
  vm_compute. reflexivity.
Defined.

Lemma populate_requires_empty_table_witness :
  demo_populate (demo_client (demo_server [demo_snapshot_row] 0))
  = (Raised AssertionError,
     {| server := demo_server [demo_snapshot_row] 0;
        journal := [SelectCount demo_table_name] |})
  ∧ ∃ outcome c',
      demo_populate (demo_client (demo_server [] 0)) = (outcome, c')
      ∧ journal c'
        = [SelectCount demo_table_name;
           InsertLatestOverrides demo_table_name
             "default.person_distinct_id_overrides" "t2"].
Proof.
  split.
  - apply (populate_requires_empty_table (deployment := demo) demo_table
             (demo_client (demo_server [demo_snapshot_row] 0))
             {| rows := [demo_snapshot_row]; queue_size := 0 |}).
    + vm_compute. reflexivity.
    + discriminate.
  - apply (populate_requires_empty_table (deployment := demo) demo_table
             (demo_client (demo_server [] 0))
             {| rows := []; queue_size := 0 |}).
    + vm_compute. reflexivity.
    + reflexivity.
Defined.

Lemma populate_inserts_latest_overrides_witness :
  ∃ c' t',
    demo_populate (demo_client (demo_server [] 0)) = (Returned tt, c')
    ∧ tables (server c')
        !! PersonOverridesSnapshotTable_qualified_name (deployment := demo) demo_table
      = Some t'
    ∧ overrides (server c') = demo_overrides
    ∧ NoDup (Snapshot.key <$> rows t')
    ∧ (∀ k, k ∈ Snapshot.key <$> rows t' ↔
            k ∈ Override.key <$> filter (λ o, Override._timestamp o < 20) demo_overrides)
    ∧ (∀ r, r ∈ rows t' →
         ∃ o, o ∈ filter (λ o, Override._timestamp o < 20) demo_overrides
              ∧ Override.key o = Snapshot.key r
              ∧ Override.person_id o = Snapshot.person_id r
              ∧ Override.version o = Snapshot.version r
              ∧ ∀ o', o' ∈ filter (λ o, Override._timestamp o < 20) demo_overrides →
                      Override.key o' = Snapshot.key r →
                      Override.version o' <= Snapshot.version r).
Proof.
  apply (populate_inserts_latest_overrides (deployment := demo) demo_table
           (demo_client (demo_server [] 0)) {| rows := []; queue_size := 0 |} 20).
  - vm_compute. reflexivity.
  - reflexivity.
  - reflexivity.
Defined.

Lemma sync_requires_empty_queue_witness :
  (∃ t, sync_replica (Deployment := demo) demo_table_name
          (demo_server [demo_snapshot_row] 0)
        = Some (demo_server [demo_snapshot_row] 0)
        ∧ tables (demo_server [demo_snapshot_row] 0) !! demo_table_name = Some t
        ∧ queue_size t = 0)
  ∧ demo_sync (demo_client (demo_server [demo_snapshot_row] 3))
    = (Raised AssertionError,
       {| server := demo_server [demo_snapshot_row] 3;
          journal := [SystemSyncReplicaStrict demo_table_name;
                      SelectQueueSize "default"
                        (PersonOverridesSnapshotTable_name demo_table)] |}).
Proof.
  split.
  - apply (proj1 (sync_requires_empty_queue (deployment := demo) demo_table
                    (demo_client (demo_server [demo_snapshot_row] 0)))
             {| server := demo_server [demo_snapshot_row] 0;
                journal := [SystemSyncReplicaStrict demo_table_name;
                            SelectQueueSize "default"
                              (PersonOverridesSnapshotTable_name demo_table)] |}).
    vm_compute. reflexivity.
  - apply (proj2 (sync_requires_empty_queue (deployment := demo) demo_table
                    (demo_client (demo_server [demo_snapshot_row] 3)))
             (demo_server [demo_snapshot_row] 3)
             {| rows := [demo_snapshot_row]; queue_size := 3 |}).
    + reflexivity.
    + vm_compute. reflexivity.
    + discriminate.
Defined.

Lemma update_mutation_rewrites_person_id_witness :
  (∀ c q,
     q ∈ journal (demo_enqueue_update c).2 →
     q ∈ journal c
     ∨ q = demo_find_query "sharded_events" "UPDATE"
     ∨ q = AlterTable "default" "sharded_events"
             (person_id_update_command (deployment := demo) demo_dictionary))
  ∧ ∃ row',
      mutate_row demo_dictionaries
        (person_id_update_command (deployment := demo) demo_dictionary)
        (demo_event "A" 1 "pageview") = Some [row']
      ∧ (∀ p v, dict_data demo_loaded !! (1, "A") = Some (p, v) →
           row' !! "person_id" = Some (VUUID p)
           ∧ ∀ col, col ≠ "person_id" → row' !! col = demo_event "A" 1 "pageview" !! col)
      ∧ (dict_data demo_loaded !! (1, "A") = None → row' = demo_event "A" 1 "pageview").
Proof.
  apply (update_mutation_rewrites_person_id (deployment := demo) demo_dictionary
           demo_dictionaries demo_loaded (demo_event "A" 1 "pageview") 1 "A").
  - vm_compute. reflexivity.
  - vm_compute. reflexivity.
  - vm_compute. reflexivity.
  - exists (VUUID 1). vm_compute. reflexivity.
Defined.

Lemma load_fails_without_dictionary_witness :
  PersonOverridesSnapshotDictionary_is_loaded (deployment := demo) demo_dictionary
    (demo_client (demo_server [] 0))
  = (Raised (Exception "dictionary does not exist"),
     {| server := demo_server [] 0;
        journal := [SelectStatus "default"
                      (PersonOverridesSnapshotDictionary_name demo_dictionary)] |})
  ∧ (∀ polls,
       wait_until_loaded (deployment := demo) (S polls) demo_dictionary
         (demo_client (demo_server [] 0))
       = (Raised (Exception "dictionary does not exist"),
          {| server := demo_server [] 0;
             journal := [SelectStatus "default"
                           (PersonOverridesSnapshotDictionary_name demo_dictionary)] |}))
  ∧ (∀ polls, ∃ e c',
       PersonOverridesSnapshotDictionary_load (deployment := demo) polls
         demo_dictionary (demo_client (demo_server [] 0)) = (Raised e, c')).
Proof.
  apply (load_fails_without_dictionary (deployment := demo) demo_dictionary
           (demo_client (demo_server [] 0))).
  vm_compute. reflexivity.
Defined.

Lemma enqueue_twice_returns_the_same_mutation_witness :
  (length (existing_mutations (deployment := demo) demo_dictionary "sharded_events"
             "UPDATE" (server demo_after_update)) = 1%nat
   ∧ demo_enqueue_update demo_after_update
     = (Returned {| table := "sharded_events"; mutation_id := "0000000000" |},
        {| server := server demo_after_update;
           journal := journal demo_after_update
             ++ [demo_find_query "sharded_events" "UPDATE"] |}))
  ∧ (length (existing_mutations (deployment := demo) demo_dictionary
               "person_distinct_id_overrides" "DELETE" (server demo_after_delete))
     = 1%nat
     ∧ demo_enqueue_delete demo_after_delete
       = (Returned {| table := "person_distinct_id_overrides";
                      mutation_id := "0000000000" |},
          {| server := server demo_after_delete;
             journal := journal demo_after_delete
               ++ [demo_find_query "person_distinct_id_overrides" "DELETE"] |}))
  ∧ (∃ m' c',
       demo_enqueue_update (demo_client (demo_server [] 0)) = (Returned m', c')
       ∧ journal c'
         = [demo_find_query "sharded_events" "UPDATE";
            AlterTable "default" "sharded_events"
              (person_id_update_command (deployment := demo) demo_dictionary);
            demo_find_query "sharded_events" "UPDATE"])
  ∧ (∃ m' c',
       demo_enqueue_delete (demo_client (demo_server [] 0)) = (Returned m', c')
       ∧ journal c'
         = [demo_find_query "person_distinct_id_overrides" "DELETE";
            AlterTable "default" "person_distinct_id_overrides"
              (overrides_delete_command (deployment := demo) demo_dictionary);
            demo_find_query "person_distinct_id_overrides" "DELETE"]).
Proof.
  split; [|split; [|split]].
  - apply (proj1 (enqueue_twice_returns_the_same_mutation (deployment := demo)
                    demo_dictionary (demo_client (demo_server [] 0)) demo_after_update
                    {| table := "sharded_events"; mutation_id := "0000000000" |})).
    vm_compute. reflexivity.
  - apply (proj1 (proj2 (enqueue_twice_returns_the_same_mutation (deployment := demo)
                    demo_dictionary (demo_client (demo_server [] 0)) demo_after_delete
                    {| table := "person_distinct_id_overrides";
                       mutation_id := "0000000000" |}))).
    vm_compute. reflexivity.
  - apply (proj1 (proj2 (proj2 (enqueue_twice_returns_the_same_mutation
                    (deployment := demo)
                    demo_dictionary (demo_client (demo_server [] 0)) demo_after_update
                    {| table := "sharded_events"; mutation_id := "0000000000" |}))));
      reflexivity.
  - apply (proj2 (proj2 (proj2 (enqueue_twice_returns_the_same_mutation
                    (deployment := demo)
                    demo_dictionary (demo_client (demo_server [] 0)) demo_after_update
                    {| table := "sharded_events"; mutation_id := "0000000000" |}))));
      reflexivity.
Defined.

Lemma find_existing_mutation_selects_by_pattern_witness :
  demo_find_existing_mutation demo_after_update
  = (Returned (Some {| table := "sharded_events"; mutation_id := "0000000000" |}),
     {| server := server demo_after_update;
        journal := journal demo_after_update
          ++ [demo_find_query "sharded_events" "UPDATE"] |})
  ∧ ∀ r, r ∈ mutations (server demo_after_update) →
         names_dictionary (deployment := demo) demo_dictionary
           "sharded_events" "UPDATE" r = true →
         r ∈ existing_mutations (deployment := demo) demo_dictionary
               "sharded_events" "UPDATE" (server demo_after_update).
Proof.
  destruct (find_existing_mutation_selects_by_pattern (deployment := demo)
              demo_dictionary "sharded_events" "UPDATE" demo_after_update)
    as (Hcall & _ & Hcontains).
  split.
  - exact Hcall.
  - apply Hcontains. reflexivity.
Defined.

(** C6.  The lookup is meant to consider the mutations whose command
    contains the qualified name of the dictionary: the pattern is
    [concat('%', name, '%')], and both callers take a hit for "this mutation
    already exists".  The name goes into the pattern as it is, and LIKE
    reads each of its underscores as a one-character wildcard.  On a host
    whose only mutation is a live UPDATE of the events table by another
    dictionary, named like the job's with hyphens for underscores, no
    command contains the qualified name of the job's dictionary; yet the
    lookup returns that mutation, and [enqueue_person_id_update_mutation]
    returns it as its own and sends no ALTER. *)
Theorem find_existing_mutation_matches_a_foreign_command :
  mutations (server demo_foreign_client) = [demo_foreign_mutation]
  ∧ contains (SystemMutations.command demo_foreign_mutation) demo_dictionary_name = false
  ∧ filter (λ r, names_dictionary (deployment := demo) demo_dictionary
                   "sharded_events" "UPDATE" r = true)
      (mutations (server demo_foreign_client)) = []
  ∧ demo_find_existing_mutation demo_foreign_client
    = (Returned (Some {| table := "sharded_events"; mutation_id := "0000000042" |}),
       {| server := server demo_foreign_client;
          journal := [demo_find_query "sharded_events" "UPDATE"] |})
  ∧ demo_enqueue_update demo_foreign_client
    = (Returned {| table := "sharded_events"; mutation_id := "0000000042" |},
       {| server := server demo_foreign_client;
          journal := [demo_find_query "sharded_events" "UPDATE"] |}).
Proof. vm_compute. repeat split; reflexivity. Qed.

Lemma load_and_verify_requires_equal_checksums_witness :
  (∃ checksums x,
     demo_load_all demo_single_created = (Returned checksums, demo_single_loaded)
     ∧ checksums ≠ [] ∧ ∀ h v, (h, v) ∈ checksums → v = x)
  ∧ demo_load_and_verify demo_diverging_started
    = (Raised AssertionError, demo_diverging_failed)
  ∧ demo_execute_job squash_person_overrides demo_diverging
    = (Raised AssertionError, demo_diverging_failed).
Proof.
  split; [|split].
  - apply (proj1 (load_and_verify_requires_equal_checksums (deployment := demo)
                    3 demo_dictionary demo_single_created)
             demo_dictionary demo_single_loaded).
    vm_compute. reflexivity.
  - apply (proj1 (proj2 (load_and_verify_requires_equal_checksums (deployment := demo)
                    3 demo_dictionary demo_diverging_started))
             [(demo_host "ch1" 1 1, VInt 101); (demo_host "ch2" 1 2, VInt 0)]
             demo_diverging_failed
             (demo_host "ch1" 1 1) (VInt 101) (demo_host "ch2" 1 2) (VInt 0)).
    + vm_compute. reflexivity.
    + apply list_elem_of_here.
    + apply list_elem_of_further, list_elem_of_here.
    + discriminate.
  - apply (proj1 (proj2 (proj2 (load_and_verify_requires_equal_checksums
                    (deployment := demo) 3 demo_dictionary demo_diverging)))
             demo_run demo_dictionary demo_diverging_created
             AssertionError demo_diverging_failed).
    + vm_compute. reflexivity.
    + vm_compute. reflexivity.
Defined.

Lemma squash_person_overrides_is_linear_witness :
  (∃ evs,
     log (demo_execute_job squash_person_overrides demo_single).2 = log demo_single ++ evs
     ∧ accepts (Idle 0) evs = Some (Idle 11))
  ∧ [Op_create_snapshot_table; Op_populate_snapshot_table] `prefix_of` pipeline
  ∧ (∀ h, h ∈ hosts demo_single_loaded →
          is_Some (demo_single_mutations !! shard_num h))
  ∧ (∀ h s' m, (h, s') ∈ nodes demo_single_waited →
               demo_single_mutations !! shard_num h = Some m →
               mutation_done (deployment := demo) m s').
Proof.
  destruct (squash_person_overrides_is_linear (deployment := demo) demo_run demo_single)
    as (_ & Hschedule & (evs & s & Hlog & Hacc & Hreturned & _) & Hstart & Hwait).
  split; [|split; [|split]].
  - exists evs. split; [exact Hlog|].
    rewrite Hacc. f_equal. apply (Hreturned OutNone). vm_compute. reflexivity.
  - apply Hschedule. intros i op Hi.
    pose proof (lookup_lt_Some _ _ _ Hi) as Hlt. simpl in Hlt.
    destruct i as [|[|i]]; [| |lia]; injection Hi as <-; vm_compute; reflexivity.
  - apply (Hstart demo_dictionary demo_dictionary demo_single_mutations
             demo_single_loaded demo_single_started).
    vm_compute. reflexivity.
  - apply (Hwait demo_dictionary demo_dictionary demo_single_mutations
             demo_single_started demo_single_waited).
    vm_compute. reflexivity.
Defined.

(** ** The further properties at work on the small deployment *)

Lemma snapshot_names_identify_the_run_witness :
  PersonOverridesSnapshotTable_qualified_name (deployment := demo) demo_table
    ≠ PersonOverridesSnapshotTable_qualified_name (deployment := demo) demo_other_table
  ∧ PersonOverridesSnapshotDictionary_qualified_name (deployment := demo)
      {| source := demo_table |}
    ≠ PersonOverridesSnapshotDictionary_qualified_name (deployment := demo)
        {| source := demo_other_table |}.
Proof.
  destruct (snapshot_names_identify_the_run (deployment := demo)
              demo_table demo_other_table) as (Htable & Hdictionary & _).
  - reflexivity.
  - reflexivity.
  - split; intros Hname; [apply Htable in Hname|apply Hdictionary in Hname];
      discriminate Hname.
Defined.

Lemma populate_guards_against_a_second_insert_witness :
  (∃ c1,
     demo_populate (demo_client (demo_server [] 0)) = (Returned tt, c1)
     ∧ demo_populate c1
       = (Raised AssertionError,
          {| server := server c1;
             journal := journal c1 ++ [SelectCount demo_table_name] |}))
  ∧ (∃ c1 c2,
       demo_populate (demo_client demo_late_server) = (Returned tt, c1)
       ∧ demo_populate c1 = (Returned tt, c2)
       ∧ tables (server c2) !! demo_table_name
         = Some {| rows := []; queue_size := 0 |}).
Proof.
  split.
  - destruct (populate_guards_against_a_second_insert (deployment := demo) demo_table
                (demo_client (demo_server [] 0)) {| rows := []; queue_size := 0 |} 20)
      as (c1 & Hfirst & Hsecond & _).
    + vm_compute. reflexivity.
    + reflexivity.
    + reflexivity.
    + exists c1. split; [exact Hfirst|]. apply Hsecond. vm_compute. discriminate.
  - destruct (populate_guards_against_a_second_insert (deployment := demo) demo_table
                (demo_client demo_late_server) {| rows := []; queue_size := 0 |} 20)
      as (c1 & Hfirst & _ & Hsecond).
    + vm_compute. reflexivity.
    + reflexivity.
    + reflexivity.
    + destruct Hsecond as (c2 & Hsecond & Htable); [vm_compute; reflexivity|].
      exists c1, c2. split; [exact Hfirst|]. split; [exact Hsecond|exact Htable].
Defined.

Lemma populate_server_failures_witness :
  demo_populate (demo_client demo_fresh_server)
  = (Raised ServerException,
     {| server := demo_fresh_server; journal := [SelectCount demo_table_name] |})
  ∧ PersonOverridesSnapshotTable_populate (deployment := demo) demo_undated_table
      (demo_client (demo_server [] 0))
    = (Raised ServerException,
       {| server := demo_server [] 0;
          journal := [SelectCount demo_table_name;
                      InsertLatestOverrides demo_table_name
                        "default.person_distinct_id_overrides" "yesterday"] |}).
Proof.
  split.
  - apply (proj1 (populate_server_failures (deployment := demo) demo_table
                    (demo_client demo_fresh_server))).
    vm_compute. reflexivity.
  - apply (proj2 (populate_server_failures (deployment := demo) demo_undated_table
                    (demo_client (demo_server [] 0)))
             {| rows := []; queue_size := 0 |}).
    + vm_compute. reflexivity.
    + reflexivity.
    + reflexivity.
Defined.

Lemma drop_and_create_make_populate_runnable_witness :
  ∃ c',
    (PersonOverridesSnapshotTable_drop (deployment := demo) demo_table ;;
     PersonOverridesSnapshotTable_create (deployment := demo) demo_table ;;
     demo_populate) (demo_client (demo_server [demo_snapshot_row; demo_snapshot_row] 3))
    = (Returned tt, c')
    ∧ tables (server c')
        !! PersonOverridesSnapshotTable_qualified_name (deployment := demo) demo_table
      = Some {| rows := latest_overrides 20 demo_overrides; queue_size := 0 |}.
Proof.
  apply (drop_and_create_make_populate_runnable (deployment := demo) demo_table
           (demo_client (demo_server [demo_snapshot_row; demo_snapshot_row] 3)) 20).
  reflexivity.
Defined.

Lemma sync_failures_witness :
  PersonOverridesSnapshotTable_sync (deployment := demo_unreachable) demo_table
    (demo_client (demo_server [] 0))
  = (Raised ServerException,
     {| server := demo_server [] 0;
        journal := [SystemSyncReplicaStrict demo_table_name] |})
  ∧ demo_sync (demo_client demo_fresh_server)
    = (Raised ValueError,
       {| server := demo_fresh_server;
          journal := [SystemSyncReplicaStrict demo_table_name;
                      SelectQueueSize "default"
                        (PersonOverridesSnapshotTable_name demo_table)] |}).
Proof.
  split.
  - apply (proj1 (sync_failures (deployment := demo_unreachable) demo_table
                    (demo_client (demo_server [] 0)))).
    reflexivity.
  - apply (proj2 (sync_failures (deployment := demo) demo_table
                    (demo_client demo_fresh_server)) demo_fresh_server).
    + reflexivity.
    + vm_compute. reflexivity.
Defined.

Lemma is_done_needs_exactly_one_row_witness :
  Mutation_is_done (deployment := demo) demo_mutation (demo_client (demo_server [] 0))
  = (Raised ValueError,
     {| server := demo_server [] 0;
        journal := [is_done_query (deployment := demo) demo_mutation] |})
  ∧ (∃ v, Mutation_is_done (deployment := demo) demo_mutation demo_after_wait
          = (Returned v,
             {| server := server demo_after_wait;
                journal := journal demo_after_wait
                  ++ [is_done_query (deployment := demo) demo_mutation] |})
          ∧ py_bool v = true)
  ∧ Mutation_is_done (deployment := demo) demo_mutation (demo_client demo_twice_listed)
    = (Raised ValueError,
       {| server := demo_twice_listed;
          journal := [is_done_query (deployment := demo) demo_mutation] |}).
Proof.
  split; [|split].
  - apply (proj1 (is_done_needs_exactly_one_row (deployment := demo) demo_mutation
                    (demo_client (demo_server [] 0)))).
    reflexivity.
  - apply (proj1 (proj2 (is_done_needs_exactly_one_row (deployment := demo)
                           demo_mutation demo_after_wait))
             {| SystemMutations.database := "default";
                SystemMutations.table := "sharded_events";
                SystemMutations.mutation_id := "0000000000";
                SystemMutations.command :=
                  format_command
                    (person_id_update_command (deployment := demo) demo_dictionary);
                SystemMutations.create_time := 100;
                SystemMutations.is_done := true;
                SystemMutations.is_killed := false |}).
    vm_compute. reflexivity.
  - apply (proj2 (proj2 (is_done_needs_exactly_one_row (deployment := demo)
                           demo_mutation (demo_client demo_twice_listed)))).
    vm_compute. lia.
Defined.

Lemma wait_returns_at_the_first_done_poll_witness :
  ∃ n, (n < 3)%nat
       ∧ server demo_after_wait = Nat.iter n (demo_elapse 15) (server demo_after_update)
       ∧ journal demo_after_wait
         = journal demo_after_update
             ++ replicate (S n) (is_done_query (deployment := demo) demo_mutation)
       ∧ mutation_done (deployment := demo) demo_mutation (server demo_after_wait)
       ∧ ∀ k, (k < n)%nat →
              ¬ mutation_done (deployment := demo) demo_mutation
                  (Nat.iter k (demo_elapse 15) (server demo_after_update)).
Proof.
  apply (wait_returns_at_the_first_done_poll (deployment := demo) 3 demo_mutation
           demo_after_update demo_after_wait).
  vm_compute. reflexivity.
Defined.

Lemma wait_first_poll_witness :
  Mutation_wait (deployment := demo) 3 demo_mutation demo_after_wait
  = (Returned tt,
     {| server := server demo_after_wait;
        journal := journal demo_after_wait
          ++ [is_done_query (deployment := demo) demo_mutation] |})
  ∧ Mutation_wait (deployment := demo) 3 demo_mutation (demo_client (demo_server [] 0))
    = (Raised ValueError,
       {| server := demo_server [] 0;
          journal := [is_done_query (deployment := demo) demo_mutation] |}).
Proof.
  split.
  - apply (proj1 (wait_first_poll (deployment := demo) 2 demo_mutation demo_after_wait)).
    exists (VInt 1). vm_compute. split; reflexivity.
  - apply (proj2 (wait_first_poll (deployment := demo) 2 demo_mutation
                    (demo_client (demo_server [] 0)))).
    reflexivity.
Defined.

Lemma is_loaded_by_status_witness :
  PersonOverridesSnapshotDictionary_is_loaded (deployment := demo) demo_dictionary
    (demo_client demo_created_server)
  = (Raised (Exception "unexpected status: NOT_LOADED"),
     {| server := demo_created_server;
        journal := [status_query (deployment := demo) demo_dictionary] |})
  ∧ PersonOverridesSnapshotDictionary_is_loaded (deployment := demo) demo_dictionary
      demo_after_load
    = (Returned true,
       {| server := server demo_after_load;
          journal := journal demo_after_load
            ++ [status_query (deployment := demo) demo_dictionary] |}).
Proof.
  split.
  - destruct (is_loaded_by_status (deployment := demo) demo_dictionary
                (demo_client demo_created_server)
                {| dict_source := demo_table_name;
                   status := "NOT_LOADED"; last_exception := "";
                   dict_data := ∅ |}) as (_ & _ & _ & Hother).
    + vm_compute. reflexivity.
    + apply Hother. cbn [status]. rewrite !not_elem_of_cons.
      repeat split; [discriminate..|apply not_elem_of_nil].
  - destruct (is_loaded_by_status (deployment := demo) demo_dictionary
                demo_after_load demo_loaded) as (Hloaded & _).
    + vm_compute. reflexivity.
    + apply Hloaded. reflexivity.
Defined.

Lemma load_returns_the_checksum_of_a_loaded_dictionary_witness :
  is_Some (dictionaries demo_created_server !! demo_dictionary_name)
  ∧ ∃ d n,
      dictionaries (server demo_after_load) !! demo_dictionary_name = Some d
      ∧ status d = "LOADED"
      ∧ VInt 101 = checksum (deployment := demo) d
      ∧ (n < 3)%nat
      ∧ journal demo_after_load
        = [SystemReloadDictionary demo_dictionary_name]
            ++ replicate (S n) (status_query (deployment := demo) demo_dictionary)
            ++ [SelectChecksum demo_dictionary_name].
Proof.
  apply (load_returns_the_checksum_of_a_loaded_dictionary (deployment := demo) 3
           demo_dictionary (demo_client demo_created_server) demo_after_load (VInt 101)).
  vm_compute. reflexivity.
Defined.

Lemma checksum_ignores_row_order_witness :
  groupBitXor
    (demo_cityHash64 <$> [demo_snapshot_row;
                          {| Snapshot.team_id := 1; Snapshot.distinct_id := "B";
                             Snapshot.person_id := 4; Snapshot.version := 1 |}])
  = groupBitXor
      (demo_cityHash64 <$> [{| Snapshot.team_id := 1; Snapshot.distinct_id := "B";
                               Snapshot.person_id := 4; Snapshot.version := 1 |};
                            demo_snapshot_row]).
Proof.
  apply (checksum_ignores_row_order (deployment := demo)). apply perm_swap.
Defined.

Lemma equal_dictionaries_pass_verification_witness :
  load_and_verify_snapshot_dictionary (deployment := demo) 3 demo_dictionary
    demo_replicated
  = (Returned demo_dictionary, demo_replicated_loaded).
Proof.
  apply (equal_dictionaries_pass_verification (deployment := demo) 3 demo_dictionary
           demo_replicated demo_replicated_loaded
           [(demo_host "ch1" 1 1, VInt 101); (demo_host "ch2" 1 2, VInt 101)]).
  - vm_compute. reflexivity.
  - discriminate.
  - intros h s h' s' d d' Hs Hs' Hd Hd'.
    assert (∀ h0 s0, (h0, s0) ∈ nodes demo_replicated_loaded →
                     s0 = server demo_after_load) as Hnode.
    { intros h0 s0 Hin. unfold demo_replicated_loaded in Hin. cbn [nodes] in Hin.
      rewrite !elem_of_cons, elem_of_nil in Hin.
      destruct Hin as [Hin|[Hin|[]]]; exact (f_equal snd Hin). }
    apply Hnode in Hs, Hs'. subst s s'. congruence.
Defined.

Lemma delete_mutation_is_idempotent_witness :
  ∃ l',
    apply_command demo_dictionaries
      (overrides_delete_command (deployment := demo) demo_dictionary) demo_overrides
    = Some l'
    ∧ l' `sublist_of` demo_overrides
    ∧ apply_command demo_dictionaries
        (overrides_delete_command (deployment := demo) demo_dictionary) l'
      = Some l'.
Proof.
  apply (delete_mutation_is_idempotent (deployment := demo) demo_dictionary
           demo_dictionaries demo_loaded demo_overrides).
  vm_compute. reflexivity.
Defined.

Lemma update_mutation_is_idempotent_witness :
  apply_command demo_dictionaries
    (person_id_update_command (deployment := demo) demo_dictionary)
    [demo_event "A" 1 "pageview"; demo_event "C" 3 "click"]
  = Some (rewritten demo_loaded
            <$> [demo_event "A" 1 "pageview"; demo_event "C" 3 "click"])
  ∧ apply_command demo_dictionaries
      (person_id_update_command (deployment := demo) demo_dictionary)
      (rewritten demo_loaded <$> [demo_event "A" 1 "pageview"; demo_event "C" 3 "click"])
    = Some (rewritten demo_loaded
              <$> [demo_event "A" 1 "pageview"; demo_event "C" 3 "click"]).
Proof.
  apply (update_mutation_is_idempotent (deployment := demo) demo_dictionary
           demo_dictionaries demo_loaded
           [demo_event "A" 1 "pageview"; demo_event "C" 3 "click"]).
  - vm_compute. reflexivity.
  - repeat constructor.
Defined.

Lemma mutations_need_the_dictionary_witness :
  (∀ o l, apply_command ∅
            (overrides_delete_command (deployment := demo) demo_dictionary) (o :: l)
          = None)
  ∧ (∀ row l, apply_command ∅
                (person_id_update_command (deployment := demo) demo_dictionary)
                (row :: l)
              = None).
Proof.
  apply (mutations_need_the_dictionary (deployment := demo) demo_dictionary ∅).
  reflexivity.
Defined.

Lemma delete_removes_every_snapshotted_override_witness :
  ∃ l',
    apply_command demo_dictionaries
      (overrides_delete_command (deployment := demo) demo_dictionary) demo_overrides
    = Some l'
    ∧ (∀ o, o ∈ demo_overrides → Override._timestamp o < 20 → o ∉ l')
    ∧ (∀ o, o ∈ l' ↔
         o ∈ demo_overrides
         ∧ ∀ o', o' ∈ demo_overrides → Override._timestamp o' < 20 →
                 Override.key o' = Override.key o →
                 Override.version o' < Override.version o).
Proof.
  apply (delete_removes_every_snapshotted_override (deployment := demo) demo_dictionary
           demo_dictionaries demo_loaded demo_overrides 20).
  - vm_compute. reflexivity.
  - vm_compute. reflexivity.
Defined.

Lemma update_gives_events_the_latest_person_witness :
  ∃ row',
    mutate_row demo_dictionaries
      (person_id_update_command (deployment := demo) demo_dictionary)
      (demo_event "A" 1 "pageview") = Some [row']
    ∧ ∃ o, o ∈ filter (λ o, Override._timestamp o < 20 ∧ Override.key o = (1, "A"))
                 demo_overrides
           ∧ (∀ o', o' ∈ filter (λ o, Override._timestamp o < 20
                                      ∧ Override.key o = (1, "A")) demo_overrides →
                    Override.version o' <= Override.version o)
           ∧ row' = <["person_id" := VUUID (Override.person_id o)]>
                      (demo_event "A" 1 "pageview").
Proof.
  destruct (update_gives_events_the_latest_person (deployment := demo) demo_dictionary
              demo_dictionaries demo_loaded demo_overrides 20
              (demo_event "A" 1 "pageview") 1 "A")
    as (row' & Hrow & _ & Hlatest).
  - vm_compute. reflexivity.
  - vm_compute. reflexivity.
  - vm_compute. reflexivity.
  - vm_compute. reflexivity.
  - exists (VUUID 1). vm_compute. reflexivity.
  - exists row'. split; [exact Hrow|]. apply Hlatest. vm_compute. discriminate.
Defined.

Lemma killed_mutations_are_enqueued_again_witness :
  demo_enqueue_update (demo_client demo_killed_server)
  = (Returned {| table := "sharded_events"; mutation_id := "0000000001" |},
     {| server :=
          add_mutation
            (new_mutation "default" "sharded_events"
               (person_id_update_command (deployment := demo) demo_dictionary)
               demo_killed_server)
            demo_killed_server;
        journal :=
          [demo_find_query "sharded_events" "UPDATE";
           AlterTable "default" "sharded_events"
             (person_id_update_command (deployment := demo) demo_dictionary);
           demo_find_query "sharded_events" "UPDATE"] |}).
Proof.
  apply (proj1 (killed_mutations_are_enqueued_again (deployment := demo)
                  demo_dictionary (demo_client demo_killed_server) eq_refl eq_refl)).
  intros r Hr _. apply list_elem_of_singleton in Hr. subst r. reflexivity.
Defined.

Lemma enqueue_refuses_ambiguous_mutations_witness :
  demo_enqueue_update (demo_client demo_twice_listed)
  = (Raised AssertionError,
     {| server := demo_twice_listed;
        journal := [demo_find_query "sharded_events" "UPDATE"] |}).
Proof.
  apply (proj1 (enqueue_refuses_ambiguous_mutations (deployment := demo)
                  demo_dictionary (demo_client demo_twice_listed))).
  vm_compute. lia.
Defined.

Lemma no_hosts_no_run_witness :
  (demo_load_and_verify demo_empty).1 = Raised AssertionError
  ∧ (demo_start_updates demo_empty).1 = Returned (demo_dictionary, ∅)
  ∧ demo_wait_updates (demo_dictionary, ∅) demo_empty = (Raised TypeError, demo_empty).
Proof.
  apply (no_hosts_no_run (deployment := demo) 3 demo_dictionary demo_empty).
  reflexivity.
Defined.

Lemma wait_for_overrides_delete_mutations_waits_on_every_host_witness :
  demo_dictionary = demo_dictionary
  ∧ hosts demo_single_deleted = hosts demo_single_delete_started
  ∧ ∀ h s', (h, s') ∈ nodes demo_single_deleted →
            mutation_done (deployment := demo) demo_delete_mutation s'.
Proof.
  apply (wait_for_overrides_delete_mutations_waits_on_every_host (deployment := demo)
           3 demo_dictionary demo_dictionary demo_delete_mutation
           demo_single_delete_started demo_single_deleted).
  vm_compute. reflexivity.
Defined.

Lemma successful_run_leaves_no_snapshot_witness :
  OutNone = OutNone
  ∧ hosts demo_single_finished = hosts demo_single
  ∧ ∀ h s, (h, s) ∈ nodes demo_single_finished →
      tables s !! PersonOverridesSnapshotTable_qualified_name (deployment := demo)
                    (run_table demo_run) = None
      ∧ dictionaries s
          !! PersonOverridesSnapshotDictionary_qualified_name (deployment := demo)
               (run_dictionary demo_run) = None.
Proof.
  apply (successful_run_leaves_no_snapshot (deployment := demo) demo_run
           demo_single demo_single_finished OutNone).
  vm_compute. reflexivity.
Defined.
